(** * docling-serve: webhook notification subsystem

    A shallow embedding of
      - [docling_serve/datamodel/webhook.py]  (URL allow-list validation,
        [WebhookConfig]),
      - [docling_serve/http_notifier.py]      ([HttpNotifier]: dispatch
        bookkeeping, signing, retry loop),
      - [docling_serve/notifier.py]           ([MultiNotifier]: fan-out over
        [asyncio.gather]),
    and the properties of the specification stated over it.

    Conventions.  Python [dict]s used as maps are [gmap]s, the dispatched
    [set] is a [gset].  [float] seconds are exact rationals ([Q]), with
    the [OverflowError] of converting too large an integer.  Python
    [str] is [string]; [.encode()] is the identity on these byte strings.
    Functions of the Python standard library or of third-party packages
    ([urlparse], [json.dumps], [hmac.new(...).hexdigest()]) are parameters
    of the sections that use them.  Coroutines are cut at their [await]s:
    a notification of [HttpNotifier] is the part before and the part
    after its one await, with a schedule that says what runs in between;
    [asyncio.gather] runs over the iterations of the event loop, each
    listing the children it resumes. *)

From Stdlib Require Import ZArith QArith String Ascii List Bool Lia.
From Stdlib Require Import DecimalString DecimalPos DecimalZ.
From stdpp Require Import base decidable option list gmap strings.

Import ListNotations.
Local Open Scope Z_scope.
Local Open Scope string_scope.
Local Open Scope list_scope.

(* ===================================================================== *)
(** * datamodel/webhook.py                                                *)
(* ===================================================================== *)

Module Webhook.

(** The two attributes of [urllib.parse.ParseResult] that the validator
    reads: [scheme] is a (possibly empty) string, [hostname] is [None]
    when the URL has no network location. *)
Record ParseResult := mkParseResult {
  scheme : string;
  hostname : option string
}.

(** [ValueError(msg)] *)
Inductive exn := ValueError (msg : string).

(** Python truthiness of a sequence: non-empty. *)
Definition truthy_seq {A} (l : list A) : bool :=
  match l with [] => false | _ :: _ => true end.

(** [x in seq] for a sequence of strings. *)
Definition str_in (x : string) (l : list string) : bool :=
  existsb (String.eqb x) l.

(** [x in seq] when [x] may be [None]: a list of strings never holds
    [None]. *)
Definition opt_in (x : option string) (l : list string) : bool :=
  match x with
  | None => false
  | Some h => str_in h l
  end.

(** [', '.join(l)] *)
Fixpoint join (sep : string) (l : list string) : string :=
  match l with
  | [] => ""
  | [x] => x
  | x :: rest => x ++ sep ++ join sep rest
  end.

(** [f"{x}"] of an optional string: [None] prints as the word None. *)
Definition fmt_opt (x : option string) : string :=
  match x with None => "None" | Some h => h end.

(** [Literal["POST", "PUT", "PATCH"]] *)
Inductive Method := POST | PUT | PATCH.

Definition method_str (m : Method) : string :=
  match m with POST => "POST" | PUT => "PUT" | PATCH => "PATCH" end.

(** [class WebhookConfig(BaseModel)].  [url] is [None] when unset; a set
    URL is kept in its string form [str(url)].  The field constraints
    [ge=0] and [ge=0.0] are the predicate [config_valid] below. *)
Record WebhookConfig := mkWebhookConfig {
  url : option string;
  method : Method;
  secret : option string;
  headers : gmap string string;
  max_retries : Z;
  backoff_factor : Q
}.

Definition config_valid (c : WebhookConfig) : Prop :=
  0 <= max_retries c /\ (0 <= backoff_factor c)%Q.

(** The field defaults of [WebhookConfig]. *)
Definition default_config : WebhookConfig :=
  mkWebhookConfig None POST None ∅ 0 1%Q.

(** A copy of [c] with another [secret]. *)
Definition with_secret (c : WebhookConfig) (s : option string) : WebhookConfig :=
  mkWebhookConfig (url c) (method c) s (headers c) (max_retries c) (backoff_factor c).

(** [class WebhookOverride(BaseModel)] *)
Record WebhookOverride := mkWebhookOverride {
  override_url : string;
  override_secret : option string
}.

Section Validate.

(** [urlparse(str(url))] of the Python standard library, as a parser
    that returns for every URL. *)
Variable urlparse : string -> ParseResult.

(** [validate_webhook_url] over such a parser, that is lines 14-23 on
    the result of line 13: returns [inr tt] for Python's [None] and
    [inl (ValueError msg)] when one of the two checks raises.  The
    function with a parser that can itself raise is
    [validate_webhook_url_raising] below. *)
Definition validate_webhook_url
    (url : string) (allowed_hosts allowed_schemes : list string)
    : exn + unit :=
  let parsed := urlparse url in
  if truthy_seq allowed_schemes && negb (str_in (scheme parsed) allowed_schemes)
  then inl (ValueError
             ("Webhook URL scheme '" ++ scheme parsed ++ "' is not allowed."
              ++ " Allowed schemes: " ++ join ", " allowed_schemes ++ "."))
  else if truthy_seq allowed_hosts && negb (opt_in (hostname parsed) allowed_hosts)
  then inl (ValueError
             ("Webhook host '" ++ fmt_opt (hostname parsed)
              ++ "' is not in the allowed host list."))
  else inr tt.

Definition fails {A B} (r : A + B) : Prop := exists e, r = inl e.

(** The failure condition as the code tests it: the non-emptiness guard
    is on the allow-list, for schemes as for hosts. *)
Definition code_fails
    (url : string) (allowed_hosts allowed_schemes : list string) : Prop :=
  let parsed := urlparse url in
  (allowed_schemes <> [] /\ str_in (scheme parsed) allowed_schemes = false)
  \/ (allowed_hosts <> [] /\ opt_in (hostname parsed) allowed_hosts = false).

(** [WebhookOverride.validate_against]: validates [self.url] and returns
    [self]. *)
Definition validate_against
    (self : WebhookOverride) (allowed_hosts allowed_schemes : list string)
    : exn + WebhookOverride :=
  match validate_webhook_url (override_url self) allowed_hosts allowed_schemes with
  | inl e => inl e
  | inr _ => inr self
  end.

End Validate.

(** ** A parser for concrete URLs

    The part of [urllib.parse.urlsplit] that yields [scheme] and
    [hostname] for URLs of the shape [scheme://host:port/path]: the scheme
    is the text before the first colon when it starts with a letter and
    consists of letters, digits, [+], [-] and [.]; the network location
    follows a leading [//] up to the next [/], [?] or [#]; the host name
    is the network location after its last [@] and before its first
    colon, lower-cased, and [None] when empty.  It serves the concrete
    examples below; the general statements hold for every parser. *)

Definition is_alpha (c : ascii) : bool :=
  let n := nat_of_ascii c in
  ((65 <=? n)%nat && (n <=? 90)%nat) || ((97 <=? n)%nat && (n <=? 122)%nat).

Definition is_scheme_char (c : ascii) : bool :=
  let n := nat_of_ascii c in
  is_alpha c || ((48 <=? n)%nat && (n <=? 57)%nat)
  || Ascii.eqb c "+" || Ascii.eqb c "-" || Ascii.eqb c ".".

Definition lower_char (c : ascii) : ascii :=
  let n := nat_of_ascii c in
  if ((65 <=? n)%nat && (n <=? 90)%nat)%bool then ascii_of_nat (n + 32) else c.

Fixpoint lower (s : string) : string :=
  match s with
  | EmptyString => EmptyString
  | String c r => String (lower_char c) (lower r)
  end.

Fixpoint forall_chars (p : ascii -> bool) (s : string) : bool :=
  match s with
  | EmptyString => true
  | String c r => p c && forall_chars p r
  end.

(** [s.partition(c)]: the text before the first [c] and the text after
    it, or [None] when [c] does not occur. *)
Fixpoint split_at (p : ascii -> bool) (s : string) : option (string * string) :=
  match s with
  | EmptyString => None
  | String c r =>
      if p c then Some (EmptyString, r)
      else match split_at p r with
           | Some (a, b) => Some (String c a, b)
           | None => None
           end
  end.

(** The text before the first character satisfying [p] (all of [s] when
    there is none). *)
Fixpoint take_until (p : ascii -> bool) (s : string) : string :=
  match s with
  | EmptyString => EmptyString
  | String c r => if p c then EmptyString else String c (take_until p r)
  end.

(** [s.rpartition('@')[2]] *)
Fixpoint after_last_at (s : string) : string :=
  match s with
  | EmptyString => EmptyString
  | String c r =>
      if Ascii.eqb c "@" then after_last_at r
      else match split_at (Ascii.eqb "@") r with
           | Some _ => after_last_at r
           | None => s
           end
  end.

Definition split_scheme (url : string) : string * string :=
  match split_at (Ascii.eqb ":") url with
  | Some (String c pre, rest) =>
      if is_alpha c && forall_chars is_scheme_char pre
      then (lower (String c pre), rest)
      else ("", url)
  | _ => ("", url)
  end.

Definition netloc_of (rest : string) : string :=
  match rest with
  | String "/" (String "/" r) =>
      take_until (fun c => Ascii.eqb c "/" || Ascii.eqb c "?" || Ascii.eqb c "#") r
  | _ => ""
  end.

Definition hostname_of (netloc : string) : option string :=
  let h := lower (take_until (Ascii.eqb ":") (after_last_at netloc)) in
  if String.eqb h "" then None else Some h.

Definition urlparse_basic (url : string) : ParseResult :=
  let '(sch, rest) := split_scheme url in
  mkParseResult sch (hostname_of (netloc_of rest)).

(** ** The parser can raise

    [urlparse] does not return for every string: [urlsplit] raises
    [ValueError] on a malformed network location.  Line 13 is outside any
    [try], so such an error leaves [validate_webhook_url] before either
    allow-list is looked at. *)

Section ValidateRaising.

(** [urlparse(str(url))], raising or returning. *)
Variable urlparse : string -> exn + ParseResult.

(** [validate_webhook_url], lines 13-23. *)
Definition validate_webhook_url_raising
    (url : string) (allowed_hosts allowed_schemes : list string)
    : exn + unit :=
  match urlparse url with
  | inl e => inl e
  | inr parsed =>
      if truthy_seq allowed_schemes
         && negb (str_in (scheme parsed) allowed_schemes)
      then inl (ValueError
                 ("Webhook URL scheme '" ++ scheme parsed ++ "' is not allowed."
                  ++ " Allowed schemes: " ++ join ", " allowed_schemes ++ "."))
      else if truthy_seq allowed_hosts
              && negb (opt_in (hostname parsed) allowed_hosts)
      then inl (ValueError
                 ("Webhook host '" ++ fmt_opt (hostname parsed)
                  ++ "' is not in the allowed host list."))
      else inr tt
  end.

(** The failure condition in the words of the specification, on a parsed
    URL. *)
Definition spec_condition
    (parsed : ParseResult) (allowed_hosts allowed_schemes : list string) : Prop :=
  (scheme parsed <> "" /\ str_in (scheme parsed) allowed_schemes = false)
  \/ (allowed_hosts <> [] /\ opt_in (hostname parsed) allowed_hosts = false).

(** The condition the two guards test, on a parsed URL. *)
Definition code_condition
    (parsed : ParseResult) (allowed_hosts allowed_schemes : list string) : Prop :=
  (allowed_schemes <> [] /\ str_in (scheme parsed) allowed_schemes = false)
  \/ (allowed_hosts <> [] /\ opt_in (hostname parsed) allowed_hosts = false).

(** When the function raises: the parser does, or a guard does. *)
Definition raising_condition
    (url : string) (allowed_hosts allowed_schemes : list string) : Prop :=
  (exists e, urlparse url = inl e)
  \/ (exists parsed,
        urlparse url = inr parsed
        /\ code_condition parsed allowed_hosts allowed_schemes).

End ValidateRaising.

(** [c in s] *)
Fixpoint contains (c : ascii) (s : string) : bool :=
  match s with
  | EmptyString => false
  | String c' r => Ascii.eqb c c' || contains c r
  end.

(** [urlparse_basic] with the one check of [urlsplit] that the examples
    meet: a network location with one square bracket and not the other
    raises [ValueError("Invalid IPv6 URL")].  For network locations
    without square brackets. *)
Definition urlparse_checked (url : string) : exn + ParseResult :=
  let '(_, rest) := split_scheme url in
  let netloc := netloc_of rest in
  if (contains "[" netloc && negb (contains "]" netloc))
     || (contains "]" netloc && negb (contains "[" netloc))
  then inl (ValueError "Invalid IPv6 URL")
  else inr (urlparse_basic url).

End Webhook.

(* ===================================================================== *)
(** * http_notifier.py                                                    *)
(* ===================================================================== *)

Module Http_notifier.
Import Webhook.

(** ** Values supplied by the orchestrator *)

(** A JSON-like Python value, for [processing_meta]. *)
#[warnings="-register-all"]
Inductive pyvalue :=
| PyNone
| PyStr (s : string)
| PyInt (n : Z)
| PyDict (items : list (string * pyvalue)).

(** [task.task_status]: a member of the [TaskStatus] enumeration with its
    [.value], or any other object with its [str()]. *)
Inductive status_field :=
| StatusEnum (value : string)
| StatusOther (str_ : string).

(** [task.task_type]: an object with a [value] attribute, or any other
    object with its [str()]. *)
Inductive type_field :=
| TypeWithValue (value : string)
| TypeOther (str_ : string).

(** [task.processing_meta]: a model with [model_dump()], or a plain
    value. *)
Inductive meta_field :=
| MetaModel (model_dump : pyvalue)
| MetaPlain (v : pyvalue).

(** The attributes of a task that the notifier reads; [is_completed] is
    the result of the method call [task.is_completed()]. *)
Record Task := mkTask {
  task_id : string;
  task_status : status_field;
  task_type : type_field;
  processing_meta : meta_field;
  is_completed : bool
}.

(** [getattr(self.orchestrator, "_task_result_keys", {})] *)
Inductive result_keys_attr :=
| AttrMissing
| AttrDict (d : gmap string string)
| AttrOther.

(** The orchestrator as one call sees it: [task_status(task_id=...)]
    either raises (the [str()] of the exception) or returns a task. *)
Record Orchestrator := mkOrchestrator {
  orch_task_status : string -> string + Task;
  _task_result_keys : result_keys_attr
}.

(** The dictionary returned by [_build_payload]. *)
Record Payload := mkPayload {
  p_task_id : string;
  p_status : string;
  p_type : string;
  p_processing_meta : pyvalue;
  p_result_locator : option string
}.

Definition _build_payload (orch : Orchestrator) (tid : string) (task : Task)
    : Payload :=
  let meta := match processing_meta task with
              | MetaModel d => d
              | MetaPlain v => v
              end in
  let locator := match _task_result_keys orch with
                 | AttrDict result_keys => result_keys !! tid
                 | AttrMissing => (∅ : gmap string string) !! tid
                 | AttrOther => None
                 end in
  {| p_task_id := task_id task;
     p_status := match task_status task with
                 | StatusEnum v => v
                 | StatusOther s => s
                 end;
     p_type := match task_type task with
               | TypeWithValue v => v
               | TypeOther s => s
               end;
     p_processing_meta := meta;
     p_result_locator := locator |}.

(** ** The notifier object and its effects *)

(** [self._webhook_configs] and [self._dispatched]. *)
Record HttpNotifier := mkHttpNotifier {
  _webhook_configs : gmap string WebhookConfig;
  _dispatched : gset string
}.

(** [HttpNotifier(orchestrator)] *)
Definition init : HttpNotifier := mkHttpNotifier ∅ ∅.

Inductive level := INFO | WARNING | ERROR.

(** What a hook does besides updating [self]: awaiting the orchestrator,
    logging, and handing a [_dispatch] coroutine to
    [asyncio.create_task]. *)
Inductive effect :=
| TaskStatusCall (tid : string)
| LogRecord (lvl : level) (msg : string)
| CreateTask (tid : string) (config : WebhookConfig) (payload : Payload).

(** A hook is a state transformer over [self] that records its effects in
    program order, each with the notifier as it is when the effect
    happens. *)
Definition trace := list (HttpNotifier * effect).
Definition M (A : Type) : Type := HttpNotifier -> A * HttpNotifier * trace.

Definition ret {A} (a : A) : M A := fun self => (a, self, []).

Definition bind {A B} (m : M A) (k : A -> M B) : M B :=
  fun self =>
    let '(a, self1, t1) := m self in
    let '(b, self2, t2) := k a self1 in
    (b, self2, t1 ++ t2).

Definition get_self : M HttpNotifier := fun self => (self, self, []).
Definition modify (f : HttpNotifier -> HttpNotifier) : M unit :=
  fun self => (tt, f self, []).
Definition emit (e : effect) : M unit := fun self => (tt, self, [(self, e)]).

Declare Scope hook_scope.
Delimit Scope hook_scope with hook.
Notation "x <- m ;; k" := (bind m (fun x => k))
  (at level 100, m at next level, right associativity) : hook_scope.
Notation "m ;; k" := (bind m (fun _ => k))
  (at level 100, right associativity) : hook_scope.
Local Open Scope hook_scope.

(** [self._dispatched.discard(task_id)] *)
Definition dispatched_discard (tid : string) (self : HttpNotifier) : HttpNotifier :=
  mkHttpNotifier (_webhook_configs self) (_dispatched self ∖ {[tid]}).

(** [self._dispatched.add(task_id)] *)
Definition dispatched_add (tid : string) (self : HttpNotifier) : HttpNotifier :=
  mkHttpNotifier (_webhook_configs self) ({[tid]} ∪ _dispatched self).

(** [self._webhook_configs.pop(task_id, None)] *)
Definition configs_pop (tid : string) (self : HttpNotifier) : HttpNotifier :=
  mkHttpNotifier (delete tid (_webhook_configs self)) (_dispatched self).

(** [self._webhook_configs[task_id] = config] *)
Definition configs_set (tid : string) (config : WebhookConfig)
    (self : HttpNotifier) : HttpNotifier :=
  mkHttpNotifier (<[tid := config]> (_webhook_configs self)) (_dispatched self).

Definition add_task (tid : string) : M unit :=
  modify (dispatched_discard tid).

Definition remove_task (tid : string) : M unit :=
  modify (configs_pop tid) ;;
  modify (dispatched_discard tid).

(** [notify_task_subscribers] gives up control once, at
    [await self.orchestrator.task_status(task_id=task_id)] (line 41),
    between the guard of line 37 and the marking of line 50. Across the
    await the coroutine holds its arguments and the local [config] read
    at line 36. *)
Record suspended := mkSuspended {
  s_orch : Orchestrator;
  s_tid : string;
  s_config : WebhookConfig
}.

(** Lines 36-41, up to the await: [None] when the guard returns. *)
Definition notify_begin (orch : Orchestrator) (tid : string)
    : M (option suspended) :=
  self <- get_self ;;
  match _webhook_configs self !! tid with
  | None => ret None
  | Some config =>
      if bool_decide (tid ∈ _dispatched self) then ret None
      else
        emit (TaskStatusCall tid) ;;
        ret (Some (mkSuspended orch tid config))
  end.

(** Lines 41-51, from the orchestrator's answer on: [inl] is what
    [except Exception] catches. *)
Definition notify_resume (co : suspended) : M unit :=
  let tid := s_tid co in
  match orch_task_status (s_orch co) tid with
  | inl exc =>
      emit (LogRecord ERROR
              ("Failed to load task " ++ tid ++ " for webhook: " ++ exc))
  | inr task =>
      if negb (is_completed task) then ret tt
      else
        let payload := _build_payload (s_orch co) tid task in
        modify (dispatched_add tid) ;;
        emit (CreateTask tid (s_config co) payload)
  end.

(** The whole method when nothing else runs during its await. *)
Definition notify_task_subscribers (orch : Orchestrator) (tid : string) : M unit :=
  co <- notify_begin orch tid ;;
  match co with
  | None => ret tt
  | Some co => notify_resume co
  end.

Definition notify_queue_positions : M unit := ret tt.

Definition register_webhook (tid : string) (config : option WebhookConfig)
    : M unit :=
  match config with
  | None => ret tt
  | Some config => modify (configs_set tid config)
  end.

(** A call of one of the notifier's methods, and a sequence of calls in
    which each runs to its end before the next begins. *)
Inductive call :=
| AddTask (tid : string)
| RemoveTask (tid : string)
| NotifyTaskSubscribers (orch : Orchestrator) (tid : string)
| NotifyQueuePositions
| RegisterWebhook (tid : string) (config : option WebhookConfig).

Definition run_call (c : call) : M unit :=
  match c with
  | AddTask tid => add_task tid
  | RemoveTask tid => remove_task tid
  | NotifyTaskSubscribers orch tid => notify_task_subscribers orch tid
  | NotifyQueuePositions => notify_queue_positions
  | RegisterWebhook tid config => register_webhook tid config
  end.

Fixpoint run_calls (cs : list call) : M unit :=
  match cs with
  | [] => ret tt
  | c :: rest => run_call c ;; run_calls rest
  end.

(** The notifier after a hook, and the effects of the hook. *)
Definition state_after {A} (m : M A) (self : HttpNotifier) : HttpNotifier :=
  snd (fst (m self)).
Definition effects_of {A} (m : M A) (self : HttpNotifier) : list effect :=
  map snd (snd (m self)).

(** Is this effect the start of a delivery sequence for [tid]? *)
Definition starts_delivery (tid : string) (e : effect) : bool :=
  match e with
  | CreateTask tid' _ _ => String.eqb tid tid'
  | _ => false
  end.

Definition deliveries_started (tid : string) (t : trace) : nat :=
  length (List.filter (fun se => starts_delivery tid (snd se)) t).

(** Does this call clear the dispatched marker of [tid]? *)
Definition resets (tid : string) (c : call) : bool :=
  match c with
  | AddTask tid' | RemoveTask tid' => String.eqb tid tid'
  | _ => false
  end.

(** No call of the sequence clears the marker of [tid]. *)
Definition no_reset (tid : string) (cs : list call) : bool :=
  forallb (fun c => negb (resets tid c)) cs.

(** [asyncio.create_task] is only reached with the task already marked:
    every [CreateTask] in the trace is recorded with a notifier whose
    dispatched set holds its task id. *)
Definition marked_when_created (se : HttpNotifier * effect) : Prop :=
  match snd se with
  | CreateTask tid _ _ => tid ∈ _dispatched (fst se)
  | _ => True
  end.

(** ** Vocabulary for statements about sequences of calls *)

(** The task id a call is about ([None] for [notify_queue_positions]). *)
Definition call_target (c : call) : option string :=
  match c with
  | AddTask tid | RemoveTask tid | NotifyTaskSubscribers _ tid
  | RegisterWebhook tid _ => Some tid
  | NotifyQueuePositions => None
  end.

Definition about (tid : string) (c : call) : bool :=
  match call_target c with
  | Some tid' => String.eqb tid tid'
  | None => false
  end.



(** The deliveries handed to [asyncio.create_task] for [tid], in order,
    each with its configuration and payload. *)
Definition deliveries_of (tid : string) (t : trace)
    : list (WebhookConfig * Payload) :=
  omap (fun se : HttpNotifier * effect =>
          match snd se with
          | CreateTask tid' config payload =>
              if String.eqb tid tid' then Some (config, payload) else None
          | _ => None
          end) t.

(** What [tid] is to the notifier: its stored configuration and whether
    it is marked. *)
Definition view (tid : string) (self : HttpNotifier)
    : option WebhookConfig * bool :=
  (_webhook_configs self !! tid, bool_decide (tid ∈ _dispatched self)).

(** ** Calls that overlap

    The hooks are coroutines on one event loop. [add_task], [remove_task],
    [notify_queue_positions] and [register_webhook] have no [await]: once
    called, each runs to its end. A [notify_task_subscribers] that passes
    its guard waits at line 41, and until it is resumed anything may run:
    other hooks, and other notifications up to their own await. *)
Record World := mkWorld {
  w_self : HttpNotifier;
  (* the notifications waiting at line 41, oldest first *)
  w_suspended : list suspended;
  w_trace : trace
}.

(** One turn of the event loop: a hook is called and runs to its first
    await or to its end, or the [i]-th waiting notification gets the
    orchestrator's answer and runs to its end. *)
Inductive step :=
| Call (c : call)
| Resume (i : nat).

Definition do_step (w : World) (s : step) : World :=
  match s with
  | Call (NotifyTaskSubscribers orch tid) =>
      let '(co, self, t) := notify_begin orch tid (w_self w) in
      mkWorld self (w_suspended w ++ option_list co) (w_trace w ++ t)
  | Call c =>
      let '(_, self, t) := run_call c (w_self w) in
      mkWorld self (w_suspended w) (w_trace w ++ t)
  | Resume i =>
      match w_suspended w !! i with
      | None => w
      | Some co =>
          let '(_, self, t) := notify_resume co (w_self w) in
          mkWorld self (delete i (w_suspended w)) (w_trace w ++ t)
      end
  end.

Definition run_schedule (ss : list step) (w : World) : World :=
  fold_left do_step ss w.

(** The notifier with no call under way. *)
Definition at_rest (self : HttpNotifier) : World := mkWorld self [] [].

(** The schedule in which each call runs to its end before the next
    begins. *)
Definition one_by_one (cs : list call) : list step :=
  flat_map (fun c => match c with
                     | NotifyTaskSubscribers _ _ => [Call c; Resume 0]
                     | _ => [Call c]
                     end) cs.

(** Does the call run to its end without an await? *)
Definition no_await (c : call) : bool :=
  match c with
  | NotifyTaskSubscribers _ _ => false
  | _ => true
  end.

(** The trace entry of a notification of [tid] at its await, having
    passed the guard with [config] stored for [tid]. *)
Definition passed_guard_with (tid : string) (config : WebhookConfig)
    (se : HttpNotifier * effect) : Prop :=
  snd se = TaskStatusCall tid /\
  _webhook_configs (fst se) !! tid = Some config /\
  (tid ∉ _dispatched (fst se)).

(** Before position [bound] the trace holds the await of a notification
    of [tid] that passed the guard with [config]. *)
Definition guard_entry (t : trace) (bound : nat) (tid : string)
    (config : WebhookConfig) : Prop :=
  exists j se, (j < bound)%nat /\ t !! j = Some se /\
               passed_guard_with tid config se.

(** Every waiting notification, and every delivery created so far, goes
    back to an await recorded earlier in the trace; a delivery is created
    with its task marked. *)
Definition world_ok (w : World) : Prop :=
  (forall co, co ∈ w_suspended w ->
     guard_entry (w_trace w) (length (w_trace w)) (s_tid co) (s_config co))
  /\ (forall i s tid config payload,
        w_trace w !! i = Some (s, CreateTask tid config payload) ->
        guard_entry (w_trace w) i tid config /\ tid ∈ _dispatched s).

(** ** Delivery: [_dispatch] *)

(** [int(x)] of a float: truncation towards zero. *)
Definition py_int (x : Q) : Z := Z.quot (Qnum x) (Z.pos (Qden x)).

(** [str(n)] of an integer: decimal digits, with a minus sign when
    negative. *)
Definition py_str_int (n : Z) : string := NilZero.string_of_int (Z.to_int n).

(** [max(x, 0.0)]: Python's [max] keeps its first argument unless a later
    one is strictly greater. *)
Definition py_max_float (x y : Q) : Q := if Qlt_le_dec x y then y else x.

(** Truthiness of [config.secret : str | None]: a non-empty string. *)
Definition truthy_secret (s : option string) : option string :=
  match s with
  | Some (String c r) => Some (String c r)
  | _ => None
  end.

(** The keyword arguments of [client.request(...)]. *)
Record Request := mkRequest {
  req_method : Method;
  req_url : string;
  req_content : string;
  req_headers : gmap string string;
  req_timeout : Q
}.

(** What awaiting [client.request(...)] yields: a response with its
    status code and text, or an exception (its [str()]). *)
Inductive outcome :=
| Response (status_code : Z) (text : string)
| Raised (exc : string).

(** What a delivery sequence does: HTTP requests, [asyncio.sleep]s and
    log records, in order; [Uncaught] ends a sequence whose coroutine
    dies of an exception. *)
Inductive io_event :=
| HttpRequest (r : Request)
| Sleep (seconds : Q)
| Log (lvl : level) (msg : string)
| Uncaught (exc : string).

(** [float(2**attempt)], the conversion of the integer operand with which
    the product [backoff * (2**attempt)] starts: exact up to [2**1023],
    [OverflowError] from [2**1024] on.  The product of a float and such
    a power of two is exact while it stays in the range of floats, and
    is kept as the exact rational. *)
Definition float_of_pow2 (attempt : nat) : option Q :=
  if (Z.of_nat attempt <? 1024)%Z
  then Some (inject_Z (2 ^ Z.of_nat attempt))
  else None.

Definition overflow_error : string :=
  "OverflowError: int too large to convert to float".

(** [str(config.url)] *)
Definition url_str (u : option string) : string :=
  match u with None => "None" | Some s => s end.

Definition is_2xx (code : Z) : bool := ((200 <=? code) && (code <? 300))%Z.

Section Dispatch.

(** [json.dumps(payload)] *)
Variable json_dumps : Payload -> string.
(** [hmac.new(key, message, hashlib.sha256).hexdigest()] *)
Variable hmac_sha256_hexdigest : string -> string -> string.

(** Lines 80-81 and 85-86: the timestamp, the body, the signed message
    and its digest. *)
Definition timestamp_of (time_time : Q) : string := py_str_int (py_int time_time).
Definition body_of (payload : Payload) : string := json_dumps payload.
Definition signed_message (timestamp body : string) : string :=
  timestamp ++ "." ++ body.

(** [signature_header]: the digest when [config.secret] is truthy, else
    [None]. *)
Definition signature_of (config : WebhookConfig) (timestamp body : string)
    : option string :=
  match truthy_secret (secret config) with
  | Some key => Some (hmac_sha256_hexdigest key (signed_message timestamp body))
  | None => None
  end.

(** Lines 82-89: the header dictionary.  In the dict display the
    entries of [config.headers] come after [Content-Type] and replace
    it on a clash; the two assignments come last. *)
Definition build_headers (config : WebhookConfig) (timestamp body : string)
    : gmap string string :=
  let headers0 := headers config ∪ {[ "Content-Type" := "application/json" ]} in
  let headers1 := match signature_of config timestamp body with
                  | Some digest => <[ "X-Docling-Signature" := digest ]> headers0
                  | None => headers0
                  end in
  <[ "X-Docling-Timestamp" := timestamp ]> headers1.

Section Loop.
(** The endpoint and the transport: what the [i]-th request of this
    delivery sequence yields. *)
Variable server : nat -> outcome.
Variable tid : string.
Variable request : Request.
Variable signature_header : option string.
(** [attempts] and [backoff], lines 91-92. *)
Variable attempts : Z.
Variable backoff : Q.

Definition exhausted_record : io_event :=
  Log ERROR ("Exhausted webhook retries for task " ++ tid ++ " (signature="
             ++ match truthy_secret signature_header with
                | Some d => d
                | None => "<none>"
                end ++ ")").

(** Lines 118-120, then [rest] (the iterations that follow): the sleep
    when attempts remain, unless computing its length raises, which is
    outside every [try] and ends the coroutine. *)
Definition backoff_sleep (attempt : nat) (rest : list io_event) : list io_event :=
  if (Z.of_nat attempt <? attempts - 1)%Z
  then match float_of_pow2 attempt with
       | Some p => Sleep (backoff * p) :: rest
       | None => [Uncaught overflow_error]
       end
  else rest.

(** The [for attempt in range(attempts)] loop with [remaining]
    iterations to go, then the record of line 122; a 2xx response
    returns from [_dispatch]. *)
Fixpoint attempt_loop (remaining attempt : nat) : list io_event :=
  match remaining with
  | O => [exhausted_record]
  | S remaining' =>
      HttpRequest request ::
      match server attempt with
      | Response status_code text =>
          if is_2xx status_code
          then [Log INFO ("Webhook for task " ++ tid ++ " delivered with status "
                          ++ py_str_int status_code)]
          else
            Log WARNING ("Webhook for task " ++ tid ++ " failed with status "
                         ++ py_str_int status_code ++ ": " ++ text)
            :: backoff_sleep attempt (attempt_loop remaining' (S attempt))
      | Raised exc =>
          Log ERROR ("Webhook attempt for task " ++ tid ++ " failed: " ++ exc)
          :: backoff_sleep attempt (attempt_loop remaining' (S attempt))
      end
  end.
End Loop.

(** The keyword arguments of lines 97-103, the same on every iteration
    of the loop. *)
Definition request_of (time_time : Q) (config : WebhookConfig)
    (payload : Payload) : Request :=
  let timestamp := timestamp_of time_time in
  let body := body_of payload in
  {| req_method := method config;
     req_url := url_str (url config);
     req_content := body;
     req_headers := build_headers config timestamp body;
     req_timeout := 10 |}.

(** [_dispatch(task_id, config, payload)], run when [time.time()]
    returns [time_time] against the endpoint [server]. *)
Definition _dispatch (time_time : Q) (server : nat -> outcome)
    (tid : string) (config : WebhookConfig) (payload : Payload)
    : list io_event :=
  let timestamp := timestamp_of time_time in
  let body := body_of payload in
  let signature_header := signature_of config timestamp body in
  let attempts := Z.max (max_retries config) 0 + 1 in
  let backoff := py_max_float (backoff_factor config) 0 in
  attempt_loop server tid (request_of time_time config payload)
               signature_header attempts backoff (Z.to_nat attempts) 0.

End Dispatch.

(** An attempt fails when the request raises or the status is outside
    [200, 300). *)
Definition attempt_fails (o : outcome) : bool :=
  match o with
  | Response status_code _ => negb (is_2xx status_code)
  | Raised _ => true
  end.

(** An endpoint that never answers with a 2xx status. *)
Definition never_2xx (server : nat -> outcome) : Prop :=
  forall i, attempt_fails (server i) = true.

(** The first 2xx answer is the one to request number [k] (zero-based). *)
Definition first_2xx_at (server : nat -> outcome) (k : nat) : Prop :=
  attempt_fails (server k) = false
  /\ forall i, (i < k)%nat -> attempt_fails (server i) = true.

(** Projections of a delivery sequence. *)
Definition requests_of (t : list io_event) : list Request :=
  omap (fun e => match e with HttpRequest r => Some r | _ => None end) t.

Definition sleeps_of (t : list io_event) : list Q :=
  omap (fun e => match e with Sleep q => Some q | _ => None end) t.

(** A delivery sequence without its log records: the requests, the
    sleeps, and the exception that ends it, if any. *)
Definition network_events (t : list io_event) : list io_event :=
  omap (fun e => match e with Log _ _ => None | _ => Some e end) t.

(** The schedule in the words of the specification: one request, then for
    each of the [retries] remaining attempts a sleep of
    [b * 2^attemptIndex] seconds followed by a request. *)
Fixpoint retry_schedule (request : Request) (b : Q) (retries attempt : nat)
    : list io_event :=
  HttpRequest request ::
  match retries with
  | O => []
  | S k => Sleep (b * inject_Z (2 ^ Z.of_nat attempt))
           :: retry_schedule request b k (S attempt)
  end.

(** The shape of a delivery sequence, iteration by iteration: a request
    and the record of its success, which ends the sequence; or a request,
    the record of its failure and then either the record of line 122, an
    uncaught exception, or a sleep and the next iteration. *)
Inductive paced : list io_event -> Prop :=
| paced_delivered r msg :
    paced [HttpRequest r; Log INFO msg]
| paced_exhausted r lvl msg msg' :
    lvl <> INFO -> paced [HttpRequest r; Log lvl msg; Log ERROR msg']
| paced_broken r lvl msg exc :
    lvl <> INFO -> paced [HttpRequest r; Log lvl msg; Uncaught exc]
| paced_retry r lvl msg q t :
    lvl <> INFO -> paced t ->
    paced (HttpRequest r :: Log lvl msg :: Sleep q :: t).

End Http_notifier.

(* ===================================================================== *)
(** * notifier.py                                                         *)
(* ===================================================================== *)

Module Notifier.

(** ** Coroutines and [asyncio.gather]

    The control behaviour of a backend's hook coroutine: it returns,
    raises, or suspends and goes on when the event loop resumes it.
    What it waits for while suspended decides in which loop iteration
    that is: the next one after [await asyncio.sleep(0)], the one after
    the future it awaits is done otherwise.  That is the part of the
    [iteration]s below. *)
Inductive coro :=
| Return
| Raise (exc : string)
| Await (k : coro).

(** The task that [gather] wraps around a coroutine: still running (with
    what is left to run), finished, or failed with an exception. *)
Inductive task_state :=
| Pending (k : coro)
| Finished
| Failed (exc : string).

(** A child of [gather]: its state and how many times the loop has run
    it ([steps = 0]: scheduled, never started). *)
Record child := mkChild {
  steps : nat;
  state : task_state
}.

(** [ensure_future(coro)]: the task is scheduled, nothing has run. *)
Definition spawn (c : coro) : child := mkChild 0 (Pending c).

(** One step of a task: the coroutine runs up to its next suspension. *)
Definition resume (c : coro) : task_state :=
  match c with
  | Return => Finished
  | Raise exc => Failed exc
  | Await k => Pending k
  end.

Definition step_child (t : child) : child :=
  match state t with
  | Pending c => mkChild (S (steps t)) (resume c)
  | _ => t
  end.

(** The task of a coroutine that has been run [n] times. *)
Fixpoint advance (n : nat) (c : coro) : task_state :=
  match n with
  | O => Pending c
  | S n' =>
      match c with
      | Return => Finished
      | Raise exc => Failed exc
      | Await k => advance n' k
      end
  end.

(** One iteration of the event loop, as far as the children of a
    [gather] go: the positions of the children it resumes, in the order
    in which it resumes them.  The loop runs a task at most once per
    iteration. *)
Definition iteration := list nat.

(** The first iteration after [gather] is called: every child was
    scheduled by [ensure_future], in the order of the arguments. *)
Definition everyone (n : nat) : iteration := seq 0 n.

(** The children after an iteration. *)
Definition run_iteration (it : iteration) (ts : list child) : list child :=
  imap (fun i t => if bool_decide (i ∈ it) then step_child t else t) ts.

Definition run_iterations (its : list iteration) (ts : list child)
    : list child :=
  fold_left (fun ts it => run_iteration it ts) its ts.

(** The exception a child raises when it is resumed, if it does. *)
Definition fails_next (t : child) : option string :=
  match state t with
  | Pending (Raise exc) => Some exc
  | _ => None
  end.

(** The exception of the child that fails first in an iteration, if one
    does: the done-callbacks of the children run in the order in which
    the children end. *)
Fixpoint first_failure (it : iteration) (ts : list child) : option string :=
  match it with
  | [] => None
  | i :: rest =>
      match ts !! i ≫= fails_next with
      | Some exc => Some exc
      | None => first_failure rest ts
      end
  end.

Definition is_finished (t : child) : bool :=
  match state t with Finished => true | _ => false end.

(** What [await asyncio.gather(...)] gives the awaiting caller. *)
Inductive gather_result :=
| Returned
| Propagated (exc : string).

(** [asyncio.gather] with the default [return_exceptions=False], over the
    iterations of the event loop that follow.  When a child fails, its
    done-callback sets the exception on the gathering future in the next
    iteration and the awaiting caller is resumed with it in the one after
    that: the other children are neither cancelled nor awaited, they run
    on as those two iterations have it ([sched] lists, for the iteration
    in which the caller is resumed, the children resumed before it).
    When all children have finished the caller gets the results.  The
    second component is the children at the moment the caller resumes;
    [None]: the caller is still waiting when the iterations are over. *)
Fixpoint gather_loop (sched : list iteration) (ts : list child)
    : option (gather_result * list child) :=
  match sched with
  | [] => None
  | it :: rest =>
      let ts1 := run_iteration it ts in
      match first_failure it ts with
      | Some exc => Some (Propagated exc, run_iterations (take 2 rest) ts1)
      | None =>
          if forallb is_finished ts1 then Some (Returned, ts1)
          else gather_loop rest ts1
      end
  end.

Definition gather (cs : list coro) (sched : list iteration)
    : option (gather_result * list child) :=
  gather_loop (everyone (length cs) :: sched) (map spawn cs).

(** The iteration in which a child fails first, and the exception of the
    child that fails first in it. *)
Fixpoint first_failing (its : list iteration) (ts : list child)
    : option (nat * string) :=
  match its with
  | [] => None
  | it :: rest =>
      match first_failure it ts with
      | Some exc => Some (0%nat, exc)
      | None =>
          match first_failing rest (run_iteration it ts) with
          | Some (r, exc) => Some (S r, exc)
          | None => None
          end
      end
  end.

(** The number of steps a coroutine takes to end. *)
Fixpoint coro_steps (c : coro) : nat :=
  match c with
  | Await k => S (coro_steps k)
  | _ => 1%nat
  end.

(** Does a coroutine, run to its end, raise? *)
Fixpoint raises (c : coro) : option string :=
  match c with
  | Return => None
  | Raise exc => Some exc
  | Await k => raises k
  end.

(** How many steps a child still takes. *)
Definition remaining (t : child) : nat :=
  match state t with
  | Pending k => coro_steps k
  | _ => 0%nat
  end.

Definition is_failed (t : child) : bool :=
  match state t with Failed _ => true | _ => false end.

(** A child of the coroutine [c]: it has been started, and it is [c]
    after as many steps as the loop has run it, neither cancelled nor
    replaced. *)
Definition started_from (c : coro) (t : child) : Prop :=
  (1 <= steps t)%nat /\ state t = advance (steps t) c.

(** ** The notifier contract and the composer *)

(** A backend ([BaseNotifier]) as the composer uses it: its four hook
    coroutines. *)
Record BaseNotifier := mkBaseNotifier {
  bn_add_task : string -> coro;
  bn_remove_task : string -> coro;
  bn_notify_task_subscribers : string -> coro;
  bn_notify_queue_positions : coro
}.

(** [self.notifiers] *)
Record MultiNotifier := mkMultiNotifier {
  notifiers : list BaseNotifier
}.

(** Each hook awaits [asyncio.gather] over the same-named hook of every
    held backend, with nothing around the [await]: a [Propagated] result
    is the hook raising to its caller.  [sched]: the loop iterations
    after the one in which the children start. *)
Definition add_task (self : MultiNotifier) (tid : string)
    (sched : list iteration) :=
  gather (map (fun n => bn_add_task n tid) (notifiers self)) sched.

Definition remove_task (self : MultiNotifier) (tid : string)
    (sched : list iteration) :=
  gather (map (fun n => bn_remove_task n tid) (notifiers self)) sched.

Definition notify_task_subscribers (self : MultiNotifier) (tid : string)
    (sched : list iteration) :=
  gather (map (fun n => bn_notify_task_subscribers n tid) (notifiers self)) sched.

Definition notify_queue_positions (self : MultiNotifier)
    (sched : list iteration) :=
  gather (map (fun n => bn_notify_queue_positions n) (notifiers self)) sched.

(** The four lifecycle hooks, for statements about all of them. *)
Inductive hook :=
| HAddTask (tid : string)
| HRemoveTask (tid : string)
| HNotifyTaskSubscribers (tid : string)
| HNotifyQueuePositions.

Definition backend_hook (n : BaseNotifier) (h : hook) : coro :=
  match h with
  | HAddTask tid => bn_add_task n tid
  | HRemoveTask tid => bn_remove_task n tid
  | HNotifyTaskSubscribers tid => bn_notify_task_subscribers n tid
  | HNotifyQueuePositions => bn_notify_queue_positions n
  end.

Definition call_hook (self : MultiNotifier) (h : hook)
    (sched : list iteration) :=
  match h with
  | HAddTask tid => add_task self tid sched
  | HRemoveTask tid => remove_task self tid sched
  | HNotifyTaskSubscribers tid => notify_task_subscribers self tid sched
  | HNotifyQueuePositions => notify_queue_positions self sched
  end.

(** The coroutines a hook of the composer gathers, and all the
    iterations of its [gather]. *)
Definition hook_coros (self : MultiNotifier) (h : hook) : list coro :=
  map (fun n => backend_hook n h) (notifiers self).

Definition hook_iterations (self : MultiNotifier) (sched : list iteration)
    : list iteration :=
  everyone (length (notifiers self)) :: sched.

End Notifier.

(* ===================================================================== *)
(** * notifier.py: the composer and the objects it holds                  *)
(* ===================================================================== *)

Module Composer.

(** Modelled from the spec: [WebsocketNotifier] is not among the sources;
    it is the push-channel backend, a notifier with live subscriber
    bookkeeping, of which the composer reads the [task_subscribers]
    dictionary (task id to subscribers).  A held notifier as
    [isinstance] sees it: an [HttpNotifier] with its state, a
    [WebsocketNotifier] with that dictionary, or some other
    [BaseNotifier]. *)
Inductive backend :=
| Http (n : Http_notifier.HttpNotifier)
| Websocket (task_subscribers : gmap string (list string))
| Other.

(** [next((n for n in self.notifiers if isinstance(n, WebsocketNotifier)),
    None)] *)
Fixpoint websocket_notifier (notifiers : list backend)
    : option (gmap string (list string)) :=
  match notifiers with
  | [] => None
  | Websocket subs :: _ => Some subs
  | _ :: rest => websocket_notifier rest
  end.

(** [self.websocket_notifier.task_subscribers if self.websocket_notifier
    else {}] *)
Definition task_subscribers (notifiers : list backend)
    : gmap string (list string) :=
  match websocket_notifier notifiers with
  | Some subs => subs
  | None => ∅
  end.

(** [MultiNotifier.register_webhook]: the call goes to the held
    notifiers that are [HttpNotifier]s, in order. *)
Definition register_webhook (notifiers : list backend) (tid : string)
    (config : option Webhook.WebhookConfig) : list backend :=
  map (fun b =>
         match b with
         | Http n =>
             Http (Http_notifier.state_after
                     (Http_notifier.register_webhook tid config) n)
         | _ => b
         end) notifiers.

Definition not_websocket (b : backend) : Prop :=
  match b with Websocket _ => False | _ => True end.

Definition is_http (b : backend) : bool :=
  match b with Http _ => true | _ => false end.

(** The [HttpNotifier]s among the held notifiers. *)
Definition http_notifiers (notifiers : list backend)
    : list Http_notifier.HttpNotifier :=
  omap (fun b => match b with Http n => Some n | _ => None end) notifiers.

End Composer.

(* ===================================================================== *)
(** * Concrete objects for the examples                                   *)
(* ===================================================================== *)

Module Examples.
Import Webhook Http_notifier.

Definition hook_url : string := "https://example.com/hook".

(** [WebhookConfig(url=..., secret="abc", max_retries=2, backoff_factor=1.0)] *)
Definition config_signed : WebhookConfig :=
  mkWebhookConfig (Some hook_url) POST (Some "abc") ∅ 2 1.

Definition task_done : Task :=
  mkTask "t1" (StatusEnum "success") (TypeWithValue "convert") (MetaPlain PyNone) true.

Definition task_running : Task :=
  mkTask "t1" (StatusEnum "started") (TypeWithValue "convert") (MetaPlain PyNone) false.

Definition orch_done : Orchestrator := mkOrchestrator (fun _ => inr task_done) AttrMissing.
Definition orch_running : Orchestrator := mkOrchestrator (fun _ => inr task_running) AttrMissing.
Definition orch_failing : Orchestrator :=
  mkOrchestrator (fun _ => inl "connection lost") AttrMissing.

(** A notifier after [register_webhook("t1", config_signed)]. *)
Definition notifier_registered : HttpNotifier :=
  mkHttpNotifier {[ "t1" := config_signed ]} ∅.

(** Stand-ins for [json.dumps] and for the HMAC digest in the concrete
    examples: the statements they appear in do not depend on what they
    compute. *)
Definition json_dumps_stub (p : Payload) : string :=
  "{task_id: " ++ p_task_id p ++ ", status: " ++ p_status p ++ "}".

Definition hmac_stub (key msg : string) : string :=
  "hmac-sha256(" ++ key ++ ", " ++ msg ++ ")".

Definition payload_done : Payload := _build_payload orch_done "t1" task_done.

(** [time.time()] at the start of the example dispatches. *)
Definition clock : Q := 17000000005 # 10.

(** An endpoint that always answers 500. *)
Definition always_500 : nat -> outcome := fun _ => Response 500 "Internal Server Error".

(** No secret, and a custom header named like the signature header. *)
Definition config_unsigned_custom_signature : WebhookConfig :=
  mkWebhookConfig (Some hook_url) POST None
                  {[ "X-Docling-Signature" := "custom" ]} 0 1.

(** The empty string as secret. *)
Definition config_empty_secret : WebhookConfig :=
  mkWebhookConfig (Some hook_url) POST (Some "") ∅ 0 1.

(** The empty string as secret, and a custom header named like the
    signature header. *)
Definition config_empty_secret_custom_signature : WebhookConfig :=
  mkWebhookConfig (Some hook_url) PUT (Some "")
                  {[ "X-Docling-Signature" := "custom" ]} 1 1.

(** [max_retries=1025, backoff_factor=0.0] *)
Definition config_many_retries : WebhookConfig :=
  mkWebhookConfig (Some hook_url) POST None ∅ 1025 0.

(** [backoff_factor = -1.5], as a configuration built without
    validation can have it. *)
Definition config_negative_backoff : WebhookConfig :=
  mkWebhookConfig (Some hook_url) POST None ∅ 3 (-3 # 2).

(** An endpoint that never answers: every request raises. *)
Definition always_timeout : nat -> outcome := fun _ => Raised "ReadTimeout".

(** A custom [Content-Type]. *)
Definition config_custom_content_type : WebhookConfig :=
  mkWebhookConfig (Some hook_url) POST (Some "abc")
                  {[ "Content-Type" := "text/plain" ]} 0 1.

(** Custom headers named like the two generated ones. *)
Definition config_custom_generated_names : WebhookConfig :=
  mkWebhookConfig (Some hook_url) POST (Some "abc")
                  (<[ "X-Docling-Timestamp" := "0" ]>
                     {[ "X-Docling-Signature" := "custom" ]}) 0 1.

(** Two backends: the [add_task] hook of the first raises at once, that
    of the second suspends three times and returns. *)
Definition backend_failing : Notifier.BaseNotifier :=
  Notifier.mkBaseNotifier
    (fun _ => Notifier.Raise "boom") (fun _ => Notifier.Return)
    (fun _ => Notifier.Return) Notifier.Return.

Definition backend_slow : Notifier.BaseNotifier :=
  Notifier.mkBaseNotifier
    (fun _ => Notifier.Await (Notifier.Await (Notifier.Await Notifier.Return)))
    (fun _ => Notifier.Return)
    (fun _ => Notifier.Await Notifier.Return) Notifier.Return.

Definition composer : Notifier.MultiNotifier :=
  Notifier.mkMultiNotifier [backend_failing; backend_slow].

(** The notifiers of a composer: a web-socket notifier between two
    fresh [HttpNotifier]s, and one more notifier. *)
Definition held_notifiers : list Composer.backend :=
  [Composer.Http Http_notifier.init;
   Composer.Websocket {[ "t1" := ["client-1"] ]};
   Composer.Other;
   Composer.Http notifier_registered].

End Examples.

(* ===================================================================== *)
(** * Properties of the URL validation                                    *)
(* ===================================================================== *)

Section ValidateFacts.
Import Webhook.
Variable urlparse : string -> ParseResult.

Lemma truthy_seq_nonempty {A} (l : list A) : truthy_seq l = true <-> l <> [].
Proof. destruct l; simpl; split; congruence. Qed.

Lemma truthy_seq_empty {A} (l : list A) : truthy_seq l = false <-> l = [].
Proof. destruct l; simpl; split; congruence. Qed.

(** The validator raises exactly under the condition its two guards
    test. *)
Lemma validate_webhook_url_fails_iff url hosts schemes :
  fails (validate_webhook_url urlparse url hosts schemes)
  <-> code_fails urlparse url hosts schemes.
Proof.
  unfold validate_webhook_url, code_fails, fails; cbv zeta.
  destruct (truthy_seq schemes) eqn:Hs;
    destruct (str_in (scheme (urlparse url)) schemes) eqn:Hin;
    destruct (truthy_seq hosts) eqn:Hh;
    destruct (opt_in (hostname (urlparse url)) hosts) eqn:Hoh; simpl;
    try apply truthy_seq_nonempty in Hs; try apply truthy_seq_empty in Hs;
    try apply truthy_seq_nonempty in Hh; try apply truthy_seq_empty in Hh;
    split;
    try (intros _; eauto; fail);
    try (intros [e He]; discriminate He);
    try (intros [[? ?]|[? ?]]; congruence);
    try (intros _; left; split; congruence);
    try (intros _; right; split; congruence).
Qed.

Lemma validate_webhook_url_passes_iff url hosts schemes :
  validate_webhook_url urlparse url hosts schemes = inr tt
  <-> ~ code_fails urlparse url hosts schemes.
Proof.
  rewrite <- validate_webhook_url_fails_iff. unfold fails.
  destruct (validate_webhook_url urlparse url hosts schemes) as [e|[]].
  - split; [discriminate | intros H; exfalso; apply H; eauto].
  - split; [intros _ [e He]; discriminate | reflexivity].
Qed.
End ValidateFacts.

Section ValidateRaisingFacts.
Import Webhook.
Variable urlparse : string -> exn + ParseResult.

(** Once the parser has returned, the function is its two checks. *)
Lemma validate_webhook_url_raising_parsed url hosts schemes parsed :
  urlparse url = inr parsed ->
  validate_webhook_url_raising urlparse url hosts schemes
  = validate_webhook_url (fun _ => parsed) url hosts schemes.
Proof.
  intros Hp. unfold validate_webhook_url_raising, validate_webhook_url.
  rewrite Hp. reflexivity.
Qed.

Lemma validate_webhook_url_raising_error url hosts schemes e :
  urlparse url = inl e ->
  validate_webhook_url_raising urlparse url hosts schemes = inl e.
Proof.
  intros Hp. unfold validate_webhook_url_raising. rewrite Hp. reflexivity.
Qed.

Lemma validate_webhook_url_raising_fails_iff url hosts schemes :
  fails (validate_webhook_url_raising urlparse url hosts schemes)
  <-> raising_condition urlparse url hosts schemes.
Proof.
  unfold raising_condition.
  destruct (urlparse url) as [e|parsed] eqn:Hp.
  - rewrite (validate_webhook_url_raising_error url hosts schemes e Hp).
    split; [intros _; left; eauto | intros _; exists e; reflexivity].
  - rewrite (validate_webhook_url_raising_parsed url hosts schemes parsed Hp).
    rewrite validate_webhook_url_fails_iff.
    unfold code_fails, code_condition; cbv zeta. split.
    + intros H. right. exists parsed. split; [reflexivity | exact H].
    + intros [[e He]|(parsed' & Hp' & H)]; [discriminate He|].
      injection Hp' as <-. exact H.
Qed.

Lemma validate_webhook_url_raising_passes_iff url hosts schemes :
  validate_webhook_url_raising urlparse url hosts schemes = inr tt
  <-> ~ raising_condition urlparse url hosts schemes.
Proof.
  rewrite <- validate_webhook_url_raising_fails_iff. unfold fails.
  destruct (validate_webhook_url_raising urlparse url hosts schemes) as [e|[]].
  - split; [discriminate | intros H; exfalso; apply H; eauto].
  - split; [intros _ [e He]; discriminate | reflexivity].
Qed.

End ValidateRaisingFacts.

(** C5 (as the code has it).  For every URL parser, raising or not,
    [validate_webhook_url] raises a [ValueError] exactly when the parser
    raises on the URL, or [allowed_schemes] is non-empty and the URL's
    scheme is not in it, or [allowed_hosts] is non-empty and the URL's
    host is absent from it, and returns otherwise; the parser's error is
    raised unchanged, whatever the allow-lists; an empty allow-list
    imposes no restriction of its kind on a URL that parses, and with both
    lists empty the function returns exactly for the URLs that parse; an
    [ftp] URL against [allowed_schemes = ["https"]] fails, the same URL
    with scheme [https] and its host in [allowed_hosts] passes, and a URL
    with an unclosed square bracket fails with both lists empty. *)
Theorem validate_webhook_url_characterisation :
  (forall urlparse url hosts schemes,
      (Webhook.fails
         (Webhook.validate_webhook_url_raising urlparse url hosts schemes)
       <-> Webhook.raising_condition urlparse url hosts schemes)
      /\ (Webhook.validate_webhook_url_raising urlparse url hosts schemes = inr tt
          <-> ~ Webhook.raising_condition urlparse url hosts schemes))
  /\ (forall urlparse url hosts schemes e,
        urlparse url = inl e ->
        Webhook.validate_webhook_url_raising urlparse url hosts schemes = inl e)
  /\ (forall urlparse url hosts parsed,
        urlparse url = inr parsed ->
        (Webhook.fails (Webhook.validate_webhook_url_raising urlparse url hosts [])
         <-> hosts <> []
             /\ Webhook.opt_in (Webhook.hostname parsed) hosts = false))
  /\ (forall urlparse url schemes parsed,
        urlparse url = inr parsed ->
        (Webhook.fails (Webhook.validate_webhook_url_raising urlparse url [] schemes)
         <-> schemes <> []
             /\ Webhook.str_in (Webhook.scheme parsed) schemes = false))
  /\ (forall urlparse url,
        Webhook.validate_webhook_url_raising urlparse url [] [] = inr tt
        <-> exists parsed, urlparse url = inr parsed)
  /\ Webhook.fails (Webhook.validate_webhook_url_raising Webhook.urlparse_checked
                      "ftp://example.com/hook" ["example.com"] ["https"])
  /\ Webhook.validate_webhook_url_raising Webhook.urlparse_checked
       "https://example.com/hook" ["example.com"] ["https"] = inr tt
  /\ Webhook.validate_webhook_url_raising Webhook.urlparse_checked
       "http://[::1" [] []
     = inl (Webhook.ValueError "Invalid IPv6 URL").
Proof.
  split; [| split; [| split; [| split; [| split; [| split; [| split]]]]]].
  - intros. split.
    + apply validate_webhook_url_raising_fails_iff.
    + apply validate_webhook_url_raising_passes_iff.
  - intros. apply validate_webhook_url_raising_error. assumption.
  - intros urlparse url hosts parsed Hp.
    rewrite (validate_webhook_url_raising_parsed urlparse url hosts [] parsed Hp).
    rewrite validate_webhook_url_fails_iff. unfold Webhook.code_fails.
    cbv zeta. split; [intros [[H _]|H]; [congruence | exact H] | intros H; right; exact H].
  - intros urlparse url schemes parsed Hp.
    rewrite (validate_webhook_url_raising_parsed urlparse url [] schemes parsed Hp).
    rewrite validate_webhook_url_fails_iff. unfold Webhook.code_fails.
    cbv zeta. split; [intros [H|[H _]]; [exact H | congruence] | intros H; left; exact H].
  - intros urlparse url. split.
    + intros H. destruct (urlparse url) as [e|parsed] eqn:Hp; [| eauto].
      rewrite (validate_webhook_url_raising_error urlparse url [] [] e Hp) in H.
      discriminate H.
    + intros [parsed Hp].
      rewrite (validate_webhook_url_raising_parsed urlparse url [] [] parsed Hp).
      reflexivity.
  - eexists. vm_compute. reflexivity.
  - vm_compute. reflexivity.
  - vm_compute. reflexivity.
Qed.

(** C5, the claim as worded, fails in both directions.  With both
    allow-lists empty an [ftp] URL meets the worded condition (its scheme
    is non-empty and not in the empty list) and yet passes; a URL without
    a scheme does not meet it and yet is rejected by a non-empty scheme
    list. *)
Lemma validate_webhook_url_not_as_worded :
  (exists parsed,
      Webhook.urlparse_checked "ftp://example.com/hook" = inr parsed
      /\ Webhook.spec_condition parsed [] []
      /\ Webhook.validate_webhook_url_raising Webhook.urlparse_checked
           "ftp://example.com/hook" [] [] = inr tt)
  /\ (exists parsed,
        Webhook.urlparse_checked "example.com/hook" = inr parsed
        /\ ~ Webhook.spec_condition parsed [] ["https"]
        /\ Webhook.validate_webhook_url_raising Webhook.urlparse_checked
             "example.com/hook" [] ["https"]
           = inl (Webhook.ValueError
                    "Webhook URL scheme '' is not allowed. Allowed schemes: https.")).
Proof.
  split.
  - eexists. split; [vm_compute; reflexivity|]. split; [| reflexivity].
    left. split; [vm_compute; discriminate | reflexivity].
  - eexists. split; [vm_compute; reflexivity|]. split; [| vm_compute; reflexivity].
    intros [[H _]|[H _]]; [apply H; reflexivity | apply H; reflexivity].
Qed.

(* ===================================================================== *)
(** * Properties of the dispatch bookkeeping                              *)
(* ===================================================================== *)

Section NotifierFacts.
Import Webhook Http_notifier.
Implicit Types (self : HttpNotifier) (tid : string) (orch : Orchestrator).

Ltac run_hook :=
  unfold notify_task_subscribers, notify_begin, notify_resume, add_task,
         remove_task,
         register_webhook, notify_queue_positions,
         bind, get_self, modify, emit, ret; simpl.

(** The four ways through [notify_task_subscribers]. *)
Lemma notify_guard self orch tid :
  _webhook_configs self !! tid = None \/ tid ∈ _dispatched self ->
  notify_task_subscribers orch tid self = (tt, self, []).
Proof.
  intros H. run_hook.
  destruct (_webhook_configs self !! tid) as [config|]; [|reflexivity].
  destruct H as [H|H]; [discriminate|].
  rewrite bool_decide_eq_true_2 by exact H. reflexivity.
Qed.

Lemma notify_lookup_error self orch tid config exc :
  _webhook_configs self !! tid = Some config ->
  tid ∉ _dispatched self ->
  orch_task_status orch tid = inl exc ->
  notify_task_subscribers orch tid self
  = (tt, self,
     [(self, TaskStatusCall tid);
      (self, LogRecord ERROR
               ("Failed to load task " ++ tid ++ " for webhook: " ++ exc))]).
Proof.
  intros Hc Hd Ho. run_hook. rewrite Hc.
  rewrite bool_decide_eq_false_2 by exact Hd. simpl. rewrite Ho. reflexivity.
Qed.

Lemma notify_not_terminal self orch tid config task :
  _webhook_configs self !! tid = Some config ->
  tid ∉ _dispatched self ->
  orch_task_status orch tid = inr task ->
  is_completed task = false ->
  notify_task_subscribers orch tid self = (tt, self, [(self, TaskStatusCall tid)]).
Proof.
  intros Hc Hd Ho Ht. run_hook. rewrite Hc.
  rewrite bool_decide_eq_false_2 by exact Hd. simpl. rewrite Ho, Ht. reflexivity.
Qed.

Lemma notify_terminal self orch tid config task :
  _webhook_configs self !! tid = Some config ->
  tid ∉ _dispatched self ->
  orch_task_status orch tid = inr task ->
  is_completed task = true ->
  notify_task_subscribers orch tid self
  = (tt, dispatched_add tid self,
     [(self, TaskStatusCall tid);
      (dispatched_add tid self,
       CreateTask tid config (_build_payload orch tid task))]).
Proof.
  intros Hc Hd Ho Ht. run_hook. rewrite Hc.
  rewrite bool_decide_eq_false_2 by exact Hd. simpl. rewrite Ho, Ht. reflexivity.
Qed.

Lemma dispatched_add_marked self tid : tid ∈ _dispatched (dispatched_add tid self).
Proof. unfold dispatched_add; simpl. set_solver. Qed.

(** Every way through the hook is one of the four. *)
Lemma notify_cases self orch tid :
  notify_task_subscribers orch tid self = (tt, self, [])
  \/ (exists msg,
        notify_task_subscribers orch tid self
        = (tt, self, [(self, TaskStatusCall tid); (self, LogRecord ERROR msg)]))
  \/ (notify_task_subscribers orch tid self = (tt, self, [(self, TaskStatusCall tid)]))
  \/ (exists config payload,
        (tid ∉ _dispatched self)
        /\ notify_task_subscribers orch tid self
           = (tt, dispatched_add tid self,
              [(self, TaskStatusCall tid);
               (dispatched_add tid self, CreateTask tid config payload)])).
Proof.
  destruct (_webhook_configs self !! tid) as [config|] eqn:Hc;
    [| left; apply notify_guard; left; exact Hc].
  destruct (decide (tid ∈ _dispatched self)) as [Hd|Hd];
    [left; apply notify_guard; right; exact Hd |].
  destruct (orch_task_status orch tid) as [exc|task] eqn:Ho.
  - right; left. eexists. eapply notify_lookup_error; eauto.
  - destruct (is_completed task) eqn:Ht.
    + right; right; right. exists config, (_build_payload orch tid task).
      split; [exact Hd | eapply notify_terminal; eauto].
    + right; right; left. eapply notify_not_terminal; eauto.
Qed.

(** One call that does not reset [tid] starts at most one delivery for
    it, none when [tid] is marked, and leaves [tid] marked when it was
    marked or a delivery started. *)
Lemma run_call_deliveries tid c self :
  resets tid c = false ->
  let '(_, self', t) := run_call c self in
  (deliveries_started tid t <= 1)%nat
  /\ (tid ∈ _dispatched self -> deliveries_started tid t = 0%nat)
  /\ (tid ∈ _dispatched self \/ deliveries_started tid t = 1%nat ->
      tid ∈ _dispatched self').
Proof.
  intros Hr. destruct c as [t'|t'|orch t'| |t' [config|]]; simpl in *.
  - apply String.eqb_neq in Hr. run_hook. unfold deliveries_started; simpl.
    split; [lia|]. split; [reflexivity|]. intros [H|H]; [set_solver | discriminate].
  - apply String.eqb_neq in Hr. run_hook. unfold deliveries_started; simpl.
    split; [lia|]. split; [reflexivity|]. intros [H|H]; [set_solver | discriminate].
  - destruct (notify_cases self orch t') as [E|[[msg E]|[E|(config & payload & Hd & E)]]];
      rewrite E; unfold deliveries_started; simpl;
      try (split; [lia|]; split; [reflexivity|]; intros [H|H]; [exact H | discriminate]).
    destruct (String.eqb_spec tid t') as [->|Hne]; simpl.
    + split; [lia|]. split; [intros H; contradiction|].
      intros _. set_solver.
    + split; [lia|]. split; [reflexivity|].
      intros [H|H]; [set_solver | discriminate].
  - run_hook. unfold deliveries_started; simpl.
    split; [lia|]. split; [reflexivity|]. intros [H|H]; [exact H | discriminate].
  - run_hook. unfold deliveries_started; simpl.
    split; [lia|]. split; [reflexivity|]. intros [H|H]; [exact H | discriminate].
  - run_hook. unfold deliveries_started; simpl.
    split; [lia|]. split; [reflexivity|]. intros [H|H]; [exact H | discriminate].
Qed.

Lemma deliveries_started_app tid (t1 t2 : trace) :
  deliveries_started tid (t1 ++ t2)
  = (deliveries_started tid t1 + deliveries_started tid t2)%nat.
Proof. unfold deliveries_started. rewrite List.filter_app, length_app. reflexivity. Qed.

Lemma run_calls_cons c cs self :
  run_calls (c :: cs) self
  = (let '(_, self1, t1) := run_call c self in
     let '(_, self2, t2) := run_calls cs self1 in
     (tt, self2, t1 ++ t2)).
Proof.
  simpl. unfold bind. destruct (run_call c self) as [[[] self1] t1].
  destruct (run_calls cs self1) as [[[] self2] t2]. reflexivity.
Qed.

Lemma state_after_run_calls_cons c cs self :
  state_after (run_calls (c :: cs)) self
  = state_after (run_calls cs) (state_after (run_call c) self).
Proof.
  unfold state_after. rewrite run_calls_cons.
  destruct (run_call c self) as [[[] self1] t1]. simpl.
  destruct (run_calls cs self1) as [[[] self2] t2]. reflexivity.
Qed.

(** Once [tid] is marked, no sequence of calls that does not reset it
    starts a delivery for it. *)
Lemma run_calls_marked tid cs : forall self,
  forallb (fun c => negb (resets tid c)) cs = true ->
  tid ∈ _dispatched self ->
  deliveries_started tid (snd (run_calls cs self)) = 0%nat.
Proof.
  induction cs as [|c cs IH]; intros self Hcs Hd; [reflexivity|].
  simpl in Hcs. apply andb_true_iff in Hcs as [Hc Hcs].
  apply negb_true_iff in Hc.
  rewrite run_calls_cons.
  pose proof (run_call_deliveries tid c self Hc) as H1.
  destruct (run_call c self) as [[[] self1] t1].
  destruct H1 as (_ & H0 & Hkeep).
  specialize (IH self1 Hcs (Hkeep (or_introl Hd))).
  destruct (run_calls cs self1) as [[[] self2] t2]. simpl in *.
  rewrite deliveries_started_app, (H0 Hd), IH. reflexivity.
Qed.

(** At most one delivery per task over any sequence of calls that does
    not reset the task. *)
Lemma run_calls_at_most_once tid cs : forall self,
  forallb (fun c => negb (resets tid c)) cs = true ->
  (deliveries_started tid (snd (run_calls cs self)) <= 1)%nat.
Proof.
  induction cs as [|c cs IH]; intros self Hcs; [cbn; lia|].
  simpl in Hcs. apply andb_true_iff in Hcs as [Hc Hcs].
  apply negb_true_iff in Hc.
  rewrite run_calls_cons.
  pose proof (run_call_deliveries tid c self Hc) as H1.
  destruct (run_call c self) as [[[] self1] t1].
  destruct H1 as (Hle & _ & Hkeep).
  pose proof (IH self1 Hcs) as IH1.
  pose proof (run_calls_marked tid cs self1 Hcs) as Hm.
  destruct (run_calls cs self1) as [[[] self2] t2]. simpl in *.
  rewrite deliveries_started_app.
  destruct (deliveries_started tid t1) as [|[|n]] eqn:E; [lia | | lia].
  rewrite Hm; [lia|]. apply Hkeep. right. reflexivity.
Qed.

(** Every [CreateTask] of every sequence of calls happens with its task
    already marked. *)
Lemma run_call_marked_when_created c self :
  Forall marked_when_created (snd (run_call c self)).
Proof.
  destruct c as [t'|t'|orch t'| |t' [config|]]; simpl;
    try (run_hook; constructor).
  destruct (notify_cases self orch t') as [E|[[msg E]|[E|(config & payload & Hd & E)]]];
    rewrite E; simpl; repeat constructor.
  unfold marked_when_created; simpl. set_solver.
Qed.

Lemma run_calls_marked_when_created cs : forall self,
  Forall marked_when_created (snd (run_calls cs self)).
Proof.
  induction cs as [|c cs IH]; intros self; [constructor|].
  rewrite run_calls_cons.
  pose proof (run_call_marked_when_created c self) as H1.
  destruct (run_call c self) as [[[] self1] t1].
  specialize (IH self1).
  destruct (run_calls cs self1) as [[[] self2] t2]. simpl in *.
  apply Forall_app; split; assumption.
Qed.

End NotifierFacts.

Section NotifierClaims.
Import Webhook Http_notifier.
Implicit Types (self : HttpNotifier) (tid : string) (orch : Orchestrator).

Lemma notifications_no_reset tid (orchs : list Orchestrator) :
  no_reset tid (map (fun o => NotifyTaskSubscribers o tid) orchs) = true.
Proof. induction orchs as [|o orchs IH]; [reflexivity | exact IH]. Qed.

(** A notification for a registered, unmarked, completed task starts
    exactly one delivery, whatever calls follow without resetting it. *)
Lemma completion_dispatches_once self orch tid config task cs :
  _webhook_configs self !! tid = Some config ->
  tid ∉ _dispatched self ->
  orch_task_status orch tid = inr task ->
  is_completed task = true ->
  no_reset tid cs = true ->
  deliveries_started tid
    (snd (run_calls (NotifyTaskSubscribers orch tid :: cs) self)) = 1%nat.
Proof.
  intros Hc Hd Ho Ht Hcs. rewrite run_calls_cons. simpl run_call.
  rewrite (notify_terminal self orch tid config task Hc Hd Ho Ht).
  pose proof (run_calls_marked tid cs (dispatched_add tid self) Hcs
                (dispatched_add_marked self tid)) as Hm.
  destruct (run_calls cs (dispatched_add tid self)) as [[[] self2] t2].
  unfold deliveries_started in *. simpl in *.
  rewrite String.eqb_refl. simpl. rewrite Hm. reflexivity.
Qed.

(** A call that leaves the notifier as it is and starts no delivery can
    be put in front of a sequence without changing its deliveries. *)
Lemma skip_silent_call c cs self t tid :
  run_call c self = (tt, self, t) ->
  deliveries_started tid t = 0%nat ->
  deliveries_started tid (snd (run_calls (c :: cs) self))
  = deliveries_started tid (snd (run_calls cs self)).
Proof.
  intros E H0. rewrite run_calls_cons, E.
  destruct (run_calls cs self) as [[[] self2] t2]. simpl.
  rewrite deliveries_started_app, H0. reflexivity.
Qed.
End NotifierClaims.

(** While no two calls overlap, a task gets at most one delivery sequence:
    when no configuration is registered for the task id, or the id is
    already in the dispatched set, [notify_task_subscribers] returns at
    once with no effect (no orchestrator call, no delivery) and the
    notifier unchanged; on a completed task it adds the id to the
    dispatched set and then hands the delivery to [asyncio.create_task],
    so that every [CreateTask] happens with its id already marked; hence
    any number of [notify_task_subscribers] calls run one after the
    other, and more generally any such sequence of calls without an
    [add_task] or [remove_task] of that id, starts the delivery for the
    id at most once. *)
Lemma one_by_one_at_most_one_dispatch :
  (forall self orch tid,
      Http_notifier._webhook_configs self !! tid = None
      \/ tid ∈ Http_notifier._dispatched self ->
      Http_notifier.notify_task_subscribers orch tid self = (tt, self, []))
  /\ (forall self orch tid config task,
        Http_notifier._webhook_configs self !! tid = Some config ->
        tid ∉ Http_notifier._dispatched self ->
        Http_notifier.orch_task_status orch tid = inr task ->
        Http_notifier.is_completed task = true ->
        Http_notifier.notify_task_subscribers orch tid self
        = (tt, Http_notifier.dispatched_add tid self,
           [(self, Http_notifier.TaskStatusCall tid);
            (Http_notifier.dispatched_add tid self,
             Http_notifier.CreateTask tid config
               (Http_notifier._build_payload orch tid task))])
        /\ tid ∈ Http_notifier._dispatched (Http_notifier.dispatched_add tid self))
  /\ (forall self cs,
        Forall Http_notifier.marked_when_created
               (snd (Http_notifier.run_calls cs self)))
  /\ (forall self tid cs,
        Http_notifier.no_reset tid cs = true ->
        (Http_notifier.deliveries_started tid
           (snd (Http_notifier.run_calls cs self)) <= 1)%nat)
  /\ (forall self tid (orchs : list Http_notifier.Orchestrator),
        (Http_notifier.deliveries_started tid
           (snd (Http_notifier.run_calls
                   (map (fun o => Http_notifier.NotifyTaskSubscribers o tid) orchs)
                   self)) <= 1)%nat).
Proof.
  split; [| split; [| split; [| split]]].
  - intros. apply notify_guard. assumption.
  - intros. split; [eapply notify_terminal; eassumption | apply dispatched_add_marked].
  - intros. apply run_calls_marked_when_created.
  - intros. apply run_calls_at_most_once. assumption.
  - intros. apply run_calls_at_most_once. apply notifications_no_reset.
Qed.

Lemma one_by_one_at_most_one_dispatch_example :
  Http_notifier.notify_task_subscribers Examples.orch_done "t2"
    Examples.notifier_registered
  = (tt, Examples.notifier_registered, [])
  /\ Http_notifier.effects_of
       (Http_notifier.notify_task_subscribers Examples.orch_done "t1")
       Examples.notifier_registered
     = [Http_notifier.TaskStatusCall "t1";
        Http_notifier.CreateTask "t1" Examples.config_signed
          (Http_notifier._build_payload Examples.orch_done "t1" Examples.task_done)]
  /\ (Http_notifier.deliveries_started "t1"
        (snd (Http_notifier.run_calls
                [Http_notifier.NotifyTaskSubscribers Examples.orch_done "t1";
                 Http_notifier.NotifyTaskSubscribers Examples.orch_done "t1";
                 Http_notifier.NotifyTaskSubscribers Examples.orch_done "t1"]
                Examples.notifier_registered)) <= 1)%nat.
Proof.
  destruct one_by_one_at_most_one_dispatch as (Hguard & Hterm & _ & Hseq & _).
  split; [| split].
  - apply Hguard. left. reflexivity.
  - unfold Http_notifier.effects_of.
    destruct (Hterm Examples.notifier_registered Examples.orch_done "t1"
                Examples.config_signed Examples.task_done) as [E _];
      [reflexivity | apply not_elem_of_empty | reflexivity | reflexivity |].
    rewrite E. reflexivity.
  - apply Hseq. reflexivity.
Defined.

(** * Notifications that overlap at the await                             *)

Section Overlap.
Import Webhook Http_notifier.
Implicit Types (self : HttpNotifier) (tid : string) (orch : Orchestrator).
Implicit Types (w : World) (co : suspended).

Lemma notify_begin_guard self orch tid :
  _webhook_configs self !! tid = None \/ tid ∈ _dispatched self ->
  notify_begin orch tid self = (None, self, []).
Proof.
  intros H. unfold notify_begin, bind, get_self, ret; simpl.
  destruct (_webhook_configs self !! tid) as [config|]; [|reflexivity].
  destruct H as [H|H]; [discriminate|].
  rewrite bool_decide_eq_true_2 by exact H. reflexivity.
Qed.

Lemma notify_begin_passes self orch tid config :
  _webhook_configs self !! tid = Some config ->
  tid ∉ _dispatched self ->
  notify_begin orch tid self
  = (Some (mkSuspended orch tid config), self, [(self, TaskStatusCall tid)]).
Proof.
  intros Hc Hd. unfold notify_begin, bind, get_self, emit, ret; simpl.
  rewrite Hc. rewrite bool_decide_eq_false_2 by exact Hd. reflexivity.
Qed.

Lemma notify_begin_cases self orch tid :
  notify_begin orch tid self = (None, self, [])
  \/ exists config,
       _webhook_configs self !! tid = Some config
       /\ (tid ∉ _dispatched self)
       /\ notify_begin orch tid self
          = (Some (mkSuspended orch tid config), self,
             [(self, TaskStatusCall tid)]).
Proof.
  destruct (_webhook_configs self !! tid) as [config|] eqn:Hc;
    [| left; apply notify_begin_guard; left; exact Hc].
  destruct (decide (tid ∈ _dispatched self)) as [Hd|Hd];
    [left; apply notify_begin_guard; right; exact Hd |].
  right. exists config. split; [reflexivity|]. split; [exact Hd|].
  apply notify_begin_passes; assumption.
Qed.

Lemma notify_resume_terminal self co task :
  orch_task_status (s_orch co) (s_tid co) = inr task ->
  is_completed task = true ->
  notify_resume co self
  = (tt, dispatched_add (s_tid co) self,
     [(dispatched_add (s_tid co) self,
       CreateTask (s_tid co) (s_config co)
         (_build_payload (s_orch co) (s_tid co) task))]).
Proof.
  intros Ho Ht. unfold notify_resume, bind, modify, emit, ret; simpl.
  rewrite Ho, Ht. reflexivity.
Qed.

Lemma notify_resume_cases self co :
  (exists msg, notify_resume co self = (tt, self, [(self, LogRecord ERROR msg)]))
  \/ notify_resume co self = (tt, self, [])
  \/ (exists payload,
        notify_resume co self
        = (tt, dispatched_add (s_tid co) self,
           [(dispatched_add (s_tid co) self,
             CreateTask (s_tid co) (s_config co) payload)])).
Proof.
  unfold notify_resume, bind, modify, emit, ret; simpl.
  destruct (orch_task_status (s_orch co) (s_tid co)) as [exc|task].
  - left. eexists. reflexivity.
  - destruct (is_completed task); simpl.
    + right; right. eexists. reflexivity.
    + right; left. reflexivity.
Qed.

Lemma run_call_no_await c self :
  no_await c = true -> snd (run_call c self) = [].
Proof.
  destruct c as [t'|t'|orch t'| |t' [config|]]; simpl;
    [reflexivity | reflexivity | discriminate | reflexivity ..].
Qed.

Lemma do_step_call_no_await c w :
  no_await c = true ->
  do_step w (Call c)
  = mkWorld (state_after (run_call c) (w_self w)) (w_suspended w) (w_trace w).
Proof.
  intros Hc.
  destruct c as [t'|t'|orch t'| |t' [config|]]; try discriminate Hc;
    unfold do_step, state_after, run_call, add_task, remove_task,
           notify_queue_positions, register_webhook, bind, modify, ret;
    simpl; rewrite app_nil_r; reflexivity.
Qed.

Lemma run_schedule_app ss1 ss2 w :
  run_schedule (ss1 ++ ss2) w = run_schedule ss2 (run_schedule ss1 w).
Proof. unfold run_schedule. apply fold_left_app. Qed.

(** Calls without an await leave the waiting notifications and the trace
    as they are. *)
Lemma run_schedule_calls cs : forall w,
  forallb no_await cs = true ->
  run_schedule (map Call cs) w
  = mkWorld (state_after (run_calls cs) (w_self w)) (w_suspended w) (w_trace w).
Proof.
  induction cs as [|c cs IH]; intros w Hcs.
  - destruct w; reflexivity.
  - simpl in Hcs. apply andb_true_iff in Hcs as [Hc Hcs].
    change (run_schedule (map Call (c :: cs)) w)
      with (run_schedule (map Call cs) (do_step w (Call c))).
    rewrite IH by exact Hcs. rewrite do_step_call_no_await by exact Hc.
    rewrite state_after_run_calls_cons. reflexivity.
Qed.

(** The schedule that never overlaps two calls is [run_calls]. *)
Lemma run_schedule_one_by_one cs : forall self t,
  run_schedule (one_by_one cs) (mkWorld self [] t)
  = mkWorld (state_after (run_calls cs) self) [] (t ++ snd (run_calls cs self)).
Proof.
  induction cs as [|c cs IH]; intros self t.
  - simpl. rewrite app_nil_r. reflexivity.
  - assert (Hstep : run_schedule
                      (match c with
                       | NotifyTaskSubscribers _ _ => [Call c; Resume 0]
                       | _ => [Call c]
                       end) (mkWorld self [] t)
                    = mkWorld (state_after (run_call c) self) []
                              (t ++ snd (run_call c self))).
    { destruct c as [t'|t'|orch t'| |t' [config|]];
        try (unfold run_schedule, state_after; simpl; reflexivity).
      unfold run_schedule, state_after; simpl.
      unfold notify_task_subscribers, bind.
      destruct (notify_begin_cases self orch t') as [E|(config & _ & _ & E)];
        rewrite E; simpl.
      - reflexivity.
      - destruct (notify_resume _ self) as [[[] self1] t1]. simpl.
        rewrite <- app_assoc. reflexivity. }
    change (one_by_one (c :: cs))
      with ((match c with
             | NotifyTaskSubscribers _ _ => [Call c; Resume 0]
             | _ => [Call c]
             end) ++ one_by_one cs).
    rewrite run_schedule_app, Hstep, IH.
    rewrite state_after_run_calls_cons. f_equal.
    rewrite run_calls_cons. unfold state_after.
    destruct (run_call c self) as [[[] self1] t1]. simpl.
    destruct (run_calls cs self1) as [[[] self2] t2]. simpl.
    rewrite app_assoc. reflexivity.
Qed.

(** Notifications of a registered, unmarked task that are called before
    any of them is resumed all pass the guard. *)
Lemma begin_all self tid config (orchs : list Orchestrator) :
  _webhook_configs self !! tid = Some config ->
  tid ∉ _dispatched self ->
  forall sus t,
    run_schedule (map (fun o => Call (NotifyTaskSubscribers o tid)) orchs)
                 (mkWorld self sus t)
    = mkWorld self (sus ++ map (fun o => mkSuspended o tid config) orchs)
              (t ++ map (fun _ => (self, TaskStatusCall tid)) orchs).
Proof.
  intros Hc Hd. induction orchs as [|o orchs IH]; intros sus t.
  - simpl. rewrite !app_nil_r. reflexivity.
  - change (run_schedule
              (map (fun o => Call (NotifyTaskSubscribers o tid)) (o :: orchs))
              (mkWorld self sus t))
      with (run_schedule
              (map (fun o => Call (NotifyTaskSubscribers o tid)) orchs)
              (do_step (mkWorld self sus t) (Call (NotifyTaskSubscribers o tid)))).
    simpl do_step. rewrite (notify_begin_passes self o tid config Hc Hd).
    rewrite IH. simpl. rewrite <- !app_assoc. reflexivity.
Qed.

(** Resumed one after the other, each of them creates a delivery. *)
Lemma resume_all tid config (orchs : list Orchestrator) :
  Forall (fun o => exists task, orch_task_status o tid = inr task
                                /\ is_completed task = true) orchs ->
  forall self t,
    let w := run_schedule (repeat (Resume 0) (length orchs))
               (mkWorld self (map (fun o => mkSuspended o tid config) orchs) t) in
    w_suspended w = []
    /\ deliveries_started tid (w_trace w)
       = (deliveries_started tid t + length orchs)%nat.
Proof.
  induction 1 as [|o orchs (task & Ho & Ht) _ IH]; intros self t.
  - simpl. split; [reflexivity | lia].
  - cbn zeta in *.
    change (run_schedule (repeat (Resume 0) (length (o :: orchs)))
              (mkWorld self
                 (map (fun o => mkSuspended o tid config) (o :: orchs)) t))
      with (run_schedule (repeat (Resume 0) (length orchs))
              (do_step
                 (mkWorld self
                    (mkSuspended o tid config
                     :: map (fun o => mkSuspended o tid config) orchs) t)
                 (Resume 0))).
    simpl do_step.
    rewrite (notify_resume_terminal self (mkSuspended o tid config) task Ho Ht).
    simpl. destruct (IH (dispatched_add tid self)
                        (t ++ [(dispatched_add tid self,
                                CreateTask tid config (_build_payload o tid task))]))
      as [Hs Hn].
    split; [exact Hs|]. rewrite Hn, deliveries_started_app.
    unfold deliveries_started at 2. simpl. rewrite String.eqb_refl. simpl. lia.
Qed.

(** However many notifications of a completed task overlap at the await,
    each of them starts a delivery. *)
Lemma overlapping_notifications_all_dispatch self tid config
    (orchs : list Orchestrator) :
  _webhook_configs self !! tid = Some config ->
  tid ∉ _dispatched self ->
  Forall (fun o => exists task, orch_task_status o tid = inr task
                                /\ is_completed task = true) orchs ->
  deliveries_started tid
    (w_trace (run_schedule
                (map (fun o => Call (NotifyTaskSubscribers o tid)) orchs
                 ++ repeat (Resume 0) (length orchs))
                (at_rest self)))
  = length orchs.
Proof.
  intros Hc Hd Hall. rewrite run_schedule_app. unfold at_rest.
  rewrite (begin_all self tid config orchs Hc Hd). simpl.
  destruct (resume_all tid config orchs Hall self
              (map (fun _ => (self, TaskStatusCall tid)) orchs)) as [_ Hn].
  cbn zeta in Hn. rewrite Hn.
  assert (H0 : deliveries_started tid
                 (map (fun _ : Orchestrator => (self, TaskStatusCall tid)) orchs)
               = 0%nat).
  { clear. unfold deliveries_started.
    induction orchs as [|o os IH']; [reflexivity | exact IH']. }
  rewrite H0. reflexivity.
Qed.

(** ** What every schedule keeps *)

Lemma guard_entry_app (t t' : trace) b b' tid config :
  guard_entry t b tid config -> (b <= b')%nat ->
  guard_entry (t ++ t') b' tid config.
Proof.
  intros (j & se & Hj & Hl & Hp) Hb. exists j, se.
  split; [lia|]. split; [apply lookup_app_l_Some; exact Hl | exact Hp].
Qed.

Lemma guard_entry_length (t : trace) b tid config :
  guard_entry t b tid config -> guard_entry t (length t) tid config.
Proof.
  intros (j & se & Hj & Hl & Hp). exists j, se.
  split; [eapply lookup_lt_Some; exact Hl|]. split; assumption.
Qed.

Lemma world_ok_extend w self sus (t : trace) :
  world_ok w ->
  (forall co, co ∈ sus ->
     co ∈ w_suspended w
     \/ guard_entry (w_trace w ++ t) (length (w_trace w ++ t))
          (s_tid co) (s_config co)) ->
  (forall i s tid config payload,
     t !! i = Some (s, CreateTask tid config payload) ->
     guard_entry (w_trace w) (length (w_trace w)) tid config
     /\ tid ∈ _dispatched s) ->
  world_ok (mkWorld self sus (w_trace w ++ t)).
Proof.
  intros [Hsus Htr] Hnew Hcre. split; simpl.
  - intros co Hco. destruct (Hnew co Hco) as [Hold|Hg]; [|exact Hg].
    eapply guard_entry_app; [apply Hsus; exact Hold |].
    rewrite length_app. lia.
  - intros i s tid config payload Hi.
    apply lookup_app_Some in Hi as [Hi|[Hlen Hi]].
    + destruct (Htr i s tid config payload Hi) as [Hg Hm].
      split; [|exact Hm]. eapply guard_entry_app; [exact Hg | lia].
    + destruct (Hcre _ s tid config payload Hi) as [Hg Hm].
      split; [|exact Hm]. eapply guard_entry_app; [exact Hg | exact Hlen].
Qed.

Lemma world_ok_step w (s : step) : world_ok w -> world_ok (do_step w s).
Proof.
  intros Hw. destruct s as [c|i].
  - destruct (no_await c) eqn:Hc.
    + rewrite do_step_call_no_await by exact Hc.
      destruct Hw as [Hsus Htr]. split; assumption.
    + destruct c as [t'|t'|orch t'| |t' config]; try discriminate Hc.
      simpl do_step.
      destruct (notify_begin_cases (w_self w) orch t')
        as [E|(config & Hcfg & Hd & E)]; rewrite E.
      * apply world_ok_extend; [exact Hw | |].
        -- intros co Hco. left. simpl in Hco. rewrite app_nil_r in Hco. exact Hco.
        -- intros i s tid config payload Hi. simpl in Hi. discriminate Hi.
      * apply world_ok_extend; [exact Hw | |].
        -- intros co Hco. simpl in Hco.
           apply elem_of_app in Hco as [Hco|Hco]; [left; exact Hco|].
           apply list_elem_of_singleton in Hco. subst co. right. simpl.
           exists (length (w_trace w)), (w_self w, TaskStatusCall t').
           split; [rewrite length_app; simpl; lia|].
           split; [apply list_lookup_middle; reflexivity|].
           split; [reflexivity|]. split; assumption.
        -- intros [|i] s tid cfg payload Hi; simpl in Hi; [discriminate|].
           simpl in Hi. discriminate Hi.
  - simpl. destruct (w_suspended w !! i) as [co|] eqn:Hi; [|exact Hw].
    pose proof (list_elem_of_lookup_2 _ _ _ Hi) as Hco.
    destruct (notify_resume_cases (w_self w) co) as [[msg E]|[E|[payload E]]];
      rewrite E; (apply world_ok_extend; [exact Hw | |]);
      try (intros co' Hco'; left;
           eapply list_elem_of_delete_inv; exact Hco').
    + intros [|k] s tid cfg p Hk; simpl in Hk; [discriminate|].
      simpl in Hk. discriminate Hk.
    + intros k s tid cfg p Hk. simpl in Hk. discriminate Hk.
    + intros [|k] s tid cfg p Hk; simpl in Hk;
        [| simpl in Hk; discriminate Hk].
      injection Hk as <- <- <- <-.
      split; [apply (proj1 Hw); exact Hco | apply dispatched_add_marked].
Qed.

Lemma world_ok_schedule ss : forall w,
  world_ok w -> world_ok (run_schedule ss w).
Proof.
  induction ss as [|s ss IH]; intros w Hw; [exact Hw|].
  apply (IH (do_step w s)). apply world_ok_step. exact Hw.
Qed.

Lemma world_ok_at_rest self : world_ok (at_rest self).
Proof.
  split; simpl.
  - intros co Hco. apply elem_of_nil in Hco. contradiction.
  - intros i s tid config payload Hi. simpl in Hi. discriminate Hi.
Qed.

(** ** Calls that land during the await *)

Lemma state_after_run_calls_snoc cs c : forall self,
  state_after (run_calls (cs ++ [c])) self
  = state_after (run_call c) (state_after (run_calls cs) self).
Proof.
  induction cs as [|c' cs IH]; intros self.
  - simpl app. rewrite state_after_run_calls_cons. reflexivity.
  - simpl app. rewrite !state_after_run_calls_cons. apply IH.
Qed.

Lemma await_then_calls_then_resume self orch tid config task cs :
  _webhook_configs self !! tid = Some config ->
  tid ∉ _dispatched self ->
  orch_task_status orch tid = inr task ->
  is_completed task = true ->
  forallb no_await cs = true ->
  run_schedule (Call (NotifyTaskSubscribers orch tid) :: map Call cs ++ [Resume 0])
               (at_rest self)
  = mkWorld (dispatched_add tid (state_after (run_calls cs) self)) []
      [(self, TaskStatusCall tid);
       (dispatched_add tid (state_after (run_calls cs) self),
        CreateTask tid config (_build_payload orch tid task))].
Proof.
  intros Hc Hd Ho Ht Hcs.
  change (run_schedule
            (Call (NotifyTaskSubscribers orch tid) :: map Call cs ++ [Resume 0])
            (at_rest self))
    with (run_schedule (map Call cs ++ [Resume 0])
            (do_step (at_rest self) (Call (NotifyTaskSubscribers orch tid)))).
  simpl do_step. rewrite (notify_begin_passes self orch tid config Hc Hd).
  rewrite run_schedule_app, run_schedule_calls by exact Hcs. simpl.
  rewrite (notify_resume_terminal _ (mkSuspended orch tid config) task Ho Ht).
  reflexivity.
Qed.

End Overlap.

(** C1.  The delivery sequence can start twice for one task.  Two
    [notify_task_subscribers] calls for a registered, completed task that
    overlap at the await of line 41 both pass the guard of line 37 before
    either reaches the marking of line 50: each of them hands a delivery
    to [asyncio.create_task], with no [add_task] or [remove_task] in
    between. *)
Theorem notify_overlapping_dispatches_twice :
  let notify :=
    Http_notifier.Call
      (Http_notifier.NotifyTaskSubscribers Examples.orch_done "t1") in
  let w :=
    Http_notifier.run_schedule
      [notify; notify; Http_notifier.Resume 0; Http_notifier.Resume 0]
      (Http_notifier.at_rest Examples.notifier_registered) in
  map snd (Http_notifier.w_trace w)
  = [Http_notifier.TaskStatusCall "t1";
     Http_notifier.TaskStatusCall "t1";
     Http_notifier.CreateTask "t1" Examples.config_signed Examples.payload_done;
     Http_notifier.CreateTask "t1" Examples.config_signed Examples.payload_done]
  /\ Http_notifier.deliveries_started "t1" (Http_notifier.w_trace w) = 2%nat
  /\ Http_notifier.w_suspended w = []
  /\ Http_notifier.no_reset "t1"
       [Http_notifier.NotifyTaskSubscribers Examples.orch_done "t1";
        Http_notifier.NotifyTaskSubscribers Examples.orch_done "t1"] = true.
Proof.
  cbv zeta.
  pose proof (begin_all Examples.notifier_registered "t1" Examples.config_signed
                [Examples.orch_done; Examples.orch_done]
                eq_refl (not_elem_of_empty _) [] []) as Hbegin.
  change (Http_notifier.run_schedule
            [Http_notifier.Call
               (Http_notifier.NotifyTaskSubscribers Examples.orch_done "t1");
             Http_notifier.Call
               (Http_notifier.NotifyTaskSubscribers Examples.orch_done "t1");
             Http_notifier.Resume 0; Http_notifier.Resume 0]
            (Http_notifier.at_rest Examples.notifier_registered))
    with (Http_notifier.run_schedule
            [Http_notifier.Resume 0; Http_notifier.Resume 0]
            (Http_notifier.run_schedule
               (map (fun o => Http_notifier.Call
                                (Http_notifier.NotifyTaskSubscribers o "t1"))
                    [Examples.orch_done; Examples.orch_done])
               (Http_notifier.mkWorld Examples.notifier_registered [] []))).
  rewrite Hbegin. repeat split.
Qed.

(** C7.  For a registered task whose fetched status is not terminal,
    [notify_task_subscribers] only asks the orchestrator: it starts no
    delivery and leaves the notifier (dispatched set and configuration
    map) as it was; a later call once the task is completed then starts
    the delivery, exactly once whatever calls follow without resetting the
    id. *)
Theorem notify_not_terminal_frame self orch tid config task :
  Http_notifier._webhook_configs self !! tid = Some config ->
  tid ∉ Http_notifier._dispatched self ->
  Http_notifier.orch_task_status orch tid = inr task ->
  Http_notifier.is_completed task = false ->
  Http_notifier.notify_task_subscribers orch tid self
  = (tt, self, [(self, Http_notifier.TaskStatusCall tid)])
  /\ Http_notifier.state_after
       (Http_notifier.notify_task_subscribers orch tid) self = self
  /\ Http_notifier.deliveries_started tid
       (snd (Http_notifier.notify_task_subscribers orch tid self)) = 0%nat
  /\ (forall orch' task' cs,
        Http_notifier.orch_task_status orch' tid = inr task' ->
        Http_notifier.is_completed task' = true ->
        Http_notifier.no_reset tid cs = true ->
        Http_notifier.effects_of
          (Http_notifier.run_calls
             [Http_notifier.NotifyTaskSubscribers orch tid;
              Http_notifier.NotifyTaskSubscribers orch' tid]) self
        = [Http_notifier.TaskStatusCall tid;
           Http_notifier.TaskStatusCall tid;
           Http_notifier.CreateTask tid config
             (Http_notifier._build_payload orch' tid task')]
        /\ Http_notifier.deliveries_started tid
             (snd (Http_notifier.run_calls
                     (Http_notifier.NotifyTaskSubscribers orch tid
                      :: Http_notifier.NotifyTaskSubscribers orch' tid :: cs)
                     self)) = 1%nat).
Proof.
  intros Hc Hd Ho Ht.
  pose proof (notify_not_terminal self orch tid config task Hc Hd Ho Ht) as E.
  split; [exact E |]. split; [unfold Http_notifier.state_after; rewrite E; reflexivity |].
  split; [rewrite E; reflexivity |].
  intros orch' task' cs Ho' Ht' Hcs. split.
  - unfold Http_notifier.effects_of.
    rewrite run_calls_cons. simpl Http_notifier.run_call. rewrite E.
    rewrite run_calls_cons. simpl Http_notifier.run_call.
    rewrite (notify_terminal self orch' tid config task' Hc Hd Ho' Ht').
    reflexivity.
  - rewrite (skip_silent_call _ _ self [(self, Http_notifier.TaskStatusCall tid)] tid);
      [| exact E | reflexivity].
    eapply completion_dispatches_once; eassumption.
Qed.

Lemma notify_not_terminal_frame_witness :
  Http_notifier.notify_task_subscribers Examples.orch_running "t1"
    Examples.notifier_registered
  = (tt, Examples.notifier_registered,
     [(Examples.notifier_registered, Http_notifier.TaskStatusCall "t1")])
  /\ Http_notifier.deliveries_started "t1"
       (snd (Http_notifier.run_calls
               [Http_notifier.NotifyTaskSubscribers Examples.orch_running "t1";
                Http_notifier.NotifyTaskSubscribers Examples.orch_done "t1";
                Http_notifier.NotifyTaskSubscribers Examples.orch_done "t1"]
               Examples.notifier_registered)) = 1%nat.
Proof.
  destruct (notify_not_terminal_frame Examples.notifier_registered
              Examples.orch_running "t1" Examples.config_signed
              Examples.task_running)
    as (E & _ & _ & Hlater);
    [reflexivity | apply not_elem_of_empty | reflexivity | reflexivity |].
  split; [exact E |].
  apply (Hlater Examples.orch_done Examples.task_done
           [Http_notifier.NotifyTaskSubscribers Examples.orch_done "t1"]);
    reflexivity.
Defined.

(** C8.  [remove_task] deletes the stored configuration and the
    dispatched marker of its task id, touches no other id and has no
    other effect; [notify_task_subscribers] on the same id right after it
    is a no-op (no orchestrator call, no delivery, notifier unchanged),
    also when a configuration had been registered before. *)
Theorem remove_task_then_notify_noop :
  forall self orch tid,
    let self' := Http_notifier.state_after (Http_notifier.remove_task tid) self in
    Http_notifier.remove_task tid self = (tt, self', [])
    /\ Http_notifier._webhook_configs self'
       = delete tid (Http_notifier._webhook_configs self)
    /\ Http_notifier._dispatched self' = Http_notifier._dispatched self ∖ {[tid]}
    /\ Http_notifier._webhook_configs self' !! tid = None
    /\ (tid ∉ Http_notifier._dispatched self')
    /\ (forall other, other <> tid ->
          Http_notifier._webhook_configs self' !! other
          = Http_notifier._webhook_configs self !! other
          /\ (other ∈ Http_notifier._dispatched self'
              <-> other ∈ Http_notifier._dispatched self))
    /\ Http_notifier.notify_task_subscribers orch tid self' = (tt, self', [])
    /\ (forall config,
          Http_notifier.run_calls
            [Http_notifier.RegisterWebhook tid (Some config);
             Http_notifier.RemoveTask tid;
             Http_notifier.NotifyTaskSubscribers orch tid] self
          = (tt, self', [])).
Proof.
  intros self orch tid self'.
  assert (Hself : self' = Http_notifier.mkHttpNotifier
                            (delete tid (Http_notifier._webhook_configs self))
                            (Http_notifier._dispatched self ∖ {[tid]}))
    by reflexivity.
  clearbody self'. subst self'.
  set (self' := Http_notifier.mkHttpNotifier _ _).
  assert (Hlook : Http_notifier._webhook_configs self' !! tid = None)
    by apply lookup_delete_eq.
  assert (Hnotify : Http_notifier.notify_task_subscribers orch tid self' = (tt, self', []))
    by (apply notify_guard; left; exact Hlook).
  split; [reflexivity |]. split; [reflexivity |]. split; [reflexivity |].
  split; [exact Hlook |].
  split.
  { subst self'; cbn. rewrite elem_of_difference, elem_of_singleton. tauto. }
  split.
  { intros other Hne. split.
    - subst self'; cbn. apply lookup_delete_ne. congruence.
    - subst self'; cbn. rewrite elem_of_difference, elem_of_singleton. tauto. }
  split; [exact Hnotify |].
  intros config.
  assert (Hsame : Http_notifier.dispatched_discard tid
                    (Http_notifier.configs_pop tid
                       (Http_notifier.configs_set tid config self)) = self').
  { subst self'. unfold Http_notifier.dispatched_discard, Http_notifier.configs_pop,
      Http_notifier.configs_set; cbn.
    f_equal. apply delete_insert_eq. }
  rewrite run_calls_cons. cbn [Http_notifier.run_call Http_notifier.register_webhook].
  unfold Http_notifier.modify at 1.
  rewrite run_calls_cons. cbn [Http_notifier.run_call].
  unfold Http_notifier.remove_task, Http_notifier.bind, Http_notifier.modify.
  rewrite Hsame.
  rewrite run_calls_cons. cbn [Http_notifier.run_call]. rewrite Hnotify.
  reflexivity.
Qed.

(** C9.  When fetching the task status from the orchestrator raises,
    [notify_task_subscribers] logs one error record and returns: no
    delivery is started and the notifier (dispatched set and
    configuration map) is unchanged, so that a later notification for the
    same task, once completed, still starts its delivery, exactly once. *)
Theorem notify_lookup_error_frame self orch tid config exc :
  Http_notifier._webhook_configs self !! tid = Some config ->
  tid ∉ Http_notifier._dispatched self ->
  Http_notifier.orch_task_status orch tid = inl exc ->
  Http_notifier.notify_task_subscribers orch tid self
  = (tt, self,
     [(self, Http_notifier.TaskStatusCall tid);
      (self, Http_notifier.LogRecord Http_notifier.ERROR
               ("Failed to load task " ++ tid ++ " for webhook: " ++ exc))])
  /\ Http_notifier.state_after
       (Http_notifier.notify_task_subscribers orch tid) self = self
  /\ Http_notifier.deliveries_started tid
       (snd (Http_notifier.notify_task_subscribers orch tid self)) = 0%nat
  /\ (forall orch' task' cs,
        Http_notifier.orch_task_status orch' tid = inr task' ->
        Http_notifier.is_completed task' = true ->
        Http_notifier.no_reset tid cs = true ->
        Http_notifier.deliveries_started tid
          (snd (Http_notifier.run_calls
                  (Http_notifier.NotifyTaskSubscribers orch tid
                   :: Http_notifier.NotifyTaskSubscribers orch' tid :: cs)
                  self)) = 1%nat).
Proof.
  intros Hc Hd Ho.
  pose proof (notify_lookup_error self orch tid config exc Hc Hd Ho) as E.
  split; [exact E |]. split; [unfold Http_notifier.state_after; rewrite E; reflexivity |].
  split; [rewrite E; reflexivity |].
  intros orch' task' cs Ho' Ht' Hcs.
  erewrite skip_silent_call; [| exact E | reflexivity].
  eapply completion_dispatches_once; eassumption.
Qed.

Lemma notify_lookup_error_frame_witness :
  Http_notifier.notify_task_subscribers Examples.orch_failing "t1"
    Examples.notifier_registered
  = (tt, Examples.notifier_registered,
     [(Examples.notifier_registered, Http_notifier.TaskStatusCall "t1");
      (Examples.notifier_registered,
       Http_notifier.LogRecord Http_notifier.ERROR
         "Failed to load task t1 for webhook: connection lost")])
  /\ Http_notifier.deliveries_started "t1"
       (snd (Http_notifier.run_calls
               [Http_notifier.NotifyTaskSubscribers Examples.orch_failing "t1";
                Http_notifier.NotifyTaskSubscribers Examples.orch_done "t1"]
               Examples.notifier_registered)) = 1%nat.
Proof.
  destruct (notify_lookup_error_frame Examples.notifier_registered
              Examples.orch_failing "t1" Examples.config_signed "connection lost")
    as (E & _ & _ & Hlater);
    [reflexivity | apply not_elem_of_empty | reflexivity |].
  split; [exact E |].
  apply (Hlater Examples.orch_done Examples.task_done []); reflexivity.
Defined.

(* ===================================================================== *)
(** * Properties of the delivery sequence                                 *)
(* ===================================================================== *)

Section LoopFacts.
Import Webhook Http_notifier.

Variable server : nat -> outcome.
Variable tid : string.
Variable request : Request.
Variable signature_header : option string.
Variable attempts : Z.
Variable backoff : Q.

Local Abbreviation loop := (attempt_loop server tid request signature_header attempts backoff).
Local Abbreviation pause := (backoff_sleep attempts backoff).

Lemma network_events_app (t1 t2 : list io_event) :
  network_events (t1 ++ t2) = network_events t1 ++ network_events t2.
Proof. apply omap_app. Qed.

Lemma requests_of_app (t1 t2 : list io_event) :
  requests_of (t1 ++ t2) = requests_of t1 ++ requests_of t2.
Proof. apply omap_app. Qed.

Lemma backoff_sleep_last attempt rest :
  Z.of_nat attempt + 1 = attempts -> pause attempt rest = rest.
Proof.
  intros H. unfold backoff_sleep.
  destruct (Z.ltb_spec (Z.of_nat attempt) (attempts - 1)); [lia | reflexivity].
Qed.

Lemma backoff_sleep_between attempt remaining rest :
  Z.of_nat attempt + Z.of_nat (S (S remaining)) = attempts ->
  (attempt < 1024)%nat ->
  pause attempt rest = Sleep (backoff * inject_Z (2 ^ Z.of_nat attempt)) :: rest.
Proof.
  intros H Hsmall. unfold backoff_sleep, float_of_pow2.
  destruct (Z.ltb_spec (Z.of_nat attempt) (attempts - 1)); [| lia].
  destruct (Z.ltb_spec (Z.of_nat attempt) 1024); [reflexivity | lia].
Qed.

Lemma backoff_sleep_overflow attempt rest :
  Z.of_nat attempt < attempts - 1 ->
  (1024 <= attempt)%nat ->
  pause attempt rest = [Uncaught overflow_error].
Proof.
  intros H Hbig. unfold backoff_sleep, float_of_pow2.
  destruct (Z.ltb_spec (Z.of_nat attempt) (attempts - 1)); [| lia].
  destruct (Z.ltb_spec (Z.of_nat attempt) 1024); [lia | reflexivity].
Qed.

(** A failed attempt: the request, one log record, then the backoff and
    the rest of the loop. *)
Lemma loop_failed_attempt remaining attempt :
  attempt_fails (server attempt) = true ->
  network_events (loop (S remaining) attempt)
  = HttpRequest request
    :: network_events (pause attempt (loop remaining (S attempt))).
Proof.
  intros Hf. simpl attempt_loop.
  destruct (server attempt) as [code text|exc]; simpl in Hf.
  - apply negb_true_iff in Hf. rewrite Hf. reflexivity.
  - reflexivity.
Qed.

(** A successful attempt ends the sequence with its request. *)
Lemma loop_successful_attempt remaining attempt :
  attempt_fails (server attempt) = false ->
  network_events (loop (S remaining) attempt) = [HttpRequest request].
Proof.
  intros Hf. simpl attempt_loop.
  destruct (server attempt) as [code text|exc]; simpl in Hf; [|discriminate].
  apply negb_false_iff in Hf. rewrite Hf. reflexivity.
Qed.

(** Against an endpoint that keeps failing, the loop follows the retry
    schedule to its end, as long as every sleep can be computed. *)
Lemma loop_all_fail remaining : forall attempt,
  Z.of_nat attempt + Z.of_nat (S remaining) = attempts ->
  (attempt + remaining <= 1024)%nat ->
  (forall i, (attempt <= i)%nat -> attempt_fails (server i) = true) ->
  network_events (loop (S remaining) attempt)
  = retry_schedule request backoff remaining attempt.
Proof.
  induction remaining as [|remaining IH]; intros attempt Hn Hsmall Hfail.
  - rewrite loop_failed_attempt by (apply Hfail; lia).
    rewrite backoff_sleep_last by lia. reflexivity.
  - rewrite loop_failed_attempt by (apply Hfail; lia).
    rewrite (backoff_sleep_between attempt remaining) by lia.
    change (network_events (Sleep ?q :: ?l)) with (Sleep q :: network_events l).
    rewrite IH; [reflexivity | lia | lia | intros i Hi; apply Hfail; lia].
Qed.

(** When the first 2xx answer comes to request [attempt + k], the loop
    follows the schedule for [k] retries and stops there. *)
Lemma loop_until_success k : forall remaining attempt,
  (k <= remaining)%nat ->
  Z.of_nat attempt + Z.of_nat (S remaining) = attempts ->
  (attempt + k <= 1024)%nat ->
  attempt_fails (server (attempt + k)) = false ->
  (forall i, (attempt <= i < attempt + k)%nat -> attempt_fails (server i) = true) ->
  network_events (loop (S remaining) attempt)
  = retry_schedule request backoff k attempt.
Proof.
  induction k as [|k IH]; intros remaining attempt Hk Hn Hsmall Hok Hfail.
  - rewrite Nat.add_0_r in Hok. rewrite loop_successful_attempt by exact Hok.
    reflexivity.
  - destruct remaining as [|remaining]; [lia|].
    rewrite loop_failed_attempt by (apply Hfail; lia).
    rewrite (backoff_sleep_between attempt remaining) by lia.
    change (network_events (Sleep ?q :: ?l)) with (Sleep q :: network_events l).
    rewrite (IH remaining (S attempt)); [reflexivity | lia | lia | lia | |].
    + replace (S attempt + k)%nat with (attempt + S k)%nat by lia. exact Hok.
    + intros i Hi. apply Hfail. lia.
Qed.

(** With more than 1025 retries allowed and an endpoint that keeps
    failing, the loop follows the schedule up to request number 1024
    (zero-based) and dies computing the sleep after it. *)
Lemma loop_overflow d : forall remaining attempt,
  (attempt + d = 1024)%nat ->
  Z.of_nat attempt + Z.of_nat (S remaining) = attempts ->
  1025 < attempts ->
  (forall i, (attempt <= i)%nat -> attempt_fails (server i) = true) ->
  network_events (loop (S remaining) attempt)
  = retry_schedule request backoff d attempt ++ [Uncaught overflow_error].
Proof.
  induction d as [|d IH]; intros remaining attempt Hd Hn Hbig Hfail.
  - rewrite loop_failed_attempt by (apply Hfail; lia).
    rewrite backoff_sleep_overflow by lia. reflexivity.
  - destruct remaining as [|[|remaining]]; [lia | lia |].
    rewrite loop_failed_attempt by (apply Hfail; lia).
    rewrite (backoff_sleep_between attempt (S remaining)) by lia.
    change (network_events (Sleep ?q :: ?l)) with (Sleep q :: network_events l).
    rewrite (IH (S remaining) (S attempt));
      [reflexivity | lia | lia | lia | intros i Hi; apply Hfail; lia].
Qed.

(** Every request of the loop is the one request object, and the loop
    makes at least one request when it has an iteration to run. *)
Lemma backoff_sleep_requests (P : Request -> Prop) attempt rest :
  Forall P (requests_of rest) -> Forall P (requests_of (pause attempt rest)).
Proof.
  intros H. unfold backoff_sleep.
  destruct (_ <? _)%Z; [| exact H].
  destruct (float_of_pow2 attempt); [exact H | constructor].
Qed.

Lemma loop_requests remaining : forall attempt,
  Forall (fun r => r = request) (requests_of (loop remaining attempt)).
Proof.
  induction remaining as [|remaining IH]; intros attempt; [constructor|].
  simpl attempt_loop.
  change (requests_of (HttpRequest request :: ?l)) with (request :: requests_of l).
  constructor; [reflexivity|].
  destruct (server attempt) as [code text|exc].
  - destruct (is_2xx code); [constructor|].
    change (requests_of (Log ?a ?b :: ?l)) with (requests_of l).
    apply backoff_sleep_requests, IH.
  - change (requests_of (Log ?a ?b :: ?l)) with (requests_of l).
    apply backoff_sleep_requests, IH.
Qed.

Lemma loop_first_request remaining attempt :
  exists rest, requests_of (loop (S remaining) attempt) = request :: rest.
Proof. simpl attempt_loop. eexists. reflexivity. Qed.

End LoopFacts.

Section ScheduleFacts.
Import Webhook Http_notifier.

Lemma requests_of_network_events (t : list io_event) :
  requests_of (network_events t) = requests_of t.
Proof.
  induction t as [|[r|q|l m|e] t IH]; simpl; [reflexivity | | | exact IH | exact IH].
  - change (requests_of (HttpRequest r :: ?l)) with (r :: requests_of l).
    unfold requests_of at 2; simpl. f_equal. exact IH.
  - exact IH.
Qed.

Lemma sleeps_of_network_events (t : list io_event) :
  sleeps_of (network_events t) = sleeps_of t.
Proof.
  induction t as [|[r|q|l m|e] t IH]; simpl;
    [reflexivity | exact IH | | exact IH | exact IH].
  change (sleeps_of (Sleep q :: ?l)) with (q :: sleeps_of l).
  unfold sleeps_of at 2; simpl. f_equal. exact IH.
Qed.

Lemma retry_schedule_requests request b retries : forall attempt,
  requests_of (retry_schedule request b retries attempt)
  = repeat request (S retries).
Proof.
  induction retries as [|k IH]; intros attempt; [reflexivity|].
  simpl retry_schedule.
  change (requests_of (HttpRequest request :: Sleep ?q :: ?l))
    with (request :: requests_of l).
  rewrite IH. reflexivity.
Qed.

Lemma retry_schedule_sleeps request b retries : forall attempt,
  sleeps_of (retry_schedule request b retries attempt)
  = map (fun i => (b * inject_Z (2 ^ Z.of_nat i))%Q) (seq attempt retries).
Proof.
  induction retries as [|k IH]; intros attempt; [reflexivity|].
  simpl retry_schedule.
  change (sleeps_of (HttpRequest request :: Sleep ?q :: ?l))
    with (q :: sleeps_of l).
  rewrite IH. reflexivity.
Qed.

Lemma py_max_float_nonneg (b : Q) : (0 <= b)%Q -> py_max_float b 0 = b.
Proof.
  intros H. unfold py_max_float. destruct (Qlt_le_dec b 0) as [Hlt|_]; [|reflexivity].
  exfalso. apply (Qlt_not_le _ _ Hlt). exact H.
Qed.

End ScheduleFacts.

Section DispatchFacts.
Import Webhook Http_notifier.

Variable json_dumps : Payload -> string.
Variable hmac_sha256_hexdigest : string -> string -> string.

Local Abbreviation dispatch := (_dispatch json_dumps hmac_sha256_hexdigest).
Local Abbreviation the_request := (request_of json_dumps hmac_sha256_hexdigest).

Lemma attempts_of_valid (n : Z) :
  0 <= n -> Z.to_nat (Z.max n 0 + 1) = S (Z.to_nat n).
Proof. intros H. rewrite Z.max_l by lia. rewrite Z2Nat.inj_add by lia. simpl. lia. Qed.

Lemma attempts_positive (n : Z) : exists r, Z.to_nat (Z.max n 0 + 1) = S r.
Proof. exists (Z.to_nat (Z.max n 0)). rewrite Z2Nat.inj_add by lia. simpl. lia. Qed.

(** Against an endpoint that never answers 2xx, with at most 1024
    retries. *)
Lemma dispatch_all_fail time_time server tid config payload :
  0 <= max_retries config <= 1024 ->
  (0 <= backoff_factor config)%Q ->
  never_2xx server ->
  network_events (dispatch time_time server tid config payload)
  = retry_schedule (the_request time_time config payload)
      (backoff_factor config) (Z.to_nat (max_retries config)) 0.
Proof.
  intros Hn Hb Hs. unfold _dispatch; cbv zeta.
  rewrite attempts_of_valid by lia. rewrite py_max_float_nonneg by assumption.
  apply loop_all_fail.
  - rewrite Z.max_l by lia. lia.
  - lia.
  - intros i _. apply Hs.
Qed.

(** Against an endpoint that never answers 2xx, with 1025 retries or
    more: the sequence dies after request number 1024 (zero-based). *)
Lemma dispatch_overflow time_time server tid config payload :
  1025 <= max_retries config ->
  (0 <= backoff_factor config)%Q ->
  never_2xx server ->
  network_events (dispatch time_time server tid config payload)
  = retry_schedule (the_request time_time config payload)
      (backoff_factor config) 1024 0 ++ [Uncaught overflow_error].
Proof.
  intros Hn Hb Hs. unfold _dispatch; cbv zeta.
  rewrite attempts_of_valid by lia. rewrite py_max_float_nonneg by assumption.
  apply loop_overflow.
  - reflexivity.
  - rewrite Z.max_l by lia. lia.
  - rewrite Z.max_l by lia. lia.
  - intros i _. apply Hs.
Qed.

(** When the first 2xx answer comes within the allowed attempts. *)
Lemma dispatch_until_success time_time server tid config payload k :
  0 <= max_retries config ->
  (0 <= backoff_factor config)%Q ->
  (k <= Z.to_nat (max_retries config))%nat ->
  (k <= 1024)%nat ->
  first_2xx_at server k ->
  network_events (dispatch time_time server tid config payload)
  = retry_schedule (the_request time_time config payload)
      (backoff_factor config) k 0.
Proof.
  intros Hn Hb Hk Hsmall [Hok Hbefore]. unfold _dispatch; cbv zeta.
  rewrite attempts_of_valid, py_max_float_nonneg by assumption.
  apply loop_until_success.
  - exact Hk.
  - rewrite Z.max_l by lia. lia.
  - exact Hsmall.
  - exact Hok.
  - intros i Hi. apply Hbefore. lia.
Qed.

(** Whatever the endpoint does, every request of a delivery sequence is
    the one request built before the loop, and there is a first one. *)
Lemma dispatch_requests time_time server tid config payload :
  Forall (fun r => r = the_request time_time config payload)
         (requests_of (dispatch time_time server tid config payload)).
Proof. unfold _dispatch; cbv zeta. apply loop_requests. Qed.

Lemma dispatch_first_request time_time server tid config payload :
  exists rest,
    requests_of (dispatch time_time server tid config payload)
    = the_request time_time config payload :: rest.
Proof.
  unfold _dispatch; cbv zeta.
  destruct (attempts_positive (max_retries config)) as [r ->].
  apply loop_first_request.
Qed.

(** The header dictionary, key by key. *)
Lemma build_headers_timestamp config timestamp body :
  build_headers hmac_sha256_hexdigest config timestamp body !! "X-Docling-Timestamp"
  = Some timestamp.
Proof. unfold build_headers; cbv zeta. apply lookup_insert_eq. Qed.

Lemma build_headers_signature config timestamp body :
  build_headers hmac_sha256_hexdigest config timestamp body !! "X-Docling-Signature"
  = match truthy_secret (secret config) with
    | Some key => Some (hmac_sha256_hexdigest key (signed_message timestamp body))
    | None => headers config !! "X-Docling-Signature"
    end.
Proof.
  unfold build_headers, signature_of; cbv zeta.
  rewrite lookup_insert_ne by discriminate.
  destruct (truthy_secret (secret config)) as [key|].
  - apply lookup_insert_eq.
  - rewrite lookup_union_l; [reflexivity |].
    rewrite lookup_singleton_ne by discriminate. reflexivity.
Qed.

Lemma build_headers_content_type config timestamp body :
  build_headers hmac_sha256_hexdigest config timestamp body !! "Content-Type"
  = Some (default "application/json" (headers config !! "Content-Type")).
Proof.
  unfold build_headers, signature_of; cbv zeta.
  rewrite lookup_insert_ne by discriminate.
  assert (H : (headers config ∪ {[ "Content-Type" := "application/json" ]})
              !! "Content-Type"
              = Some (default "application/json" (headers config !! "Content-Type"))).
  { destruct (headers config !! "Content-Type") as [v|] eqn:E; simpl.
    - apply lookup_union_Some_l. exact E.
    - rewrite lookup_union_r by exact E. apply lookup_singleton_eq. }
  destruct (truthy_secret (secret config)) as [key|]; [|exact H].
  rewrite lookup_insert_ne by discriminate. exact H.
Qed.

Lemma build_headers_other config timestamp body k :
  k <> "Content-Type" -> k <> "X-Docling-Timestamp" -> k <> "X-Docling-Signature" ->
  build_headers hmac_sha256_hexdigest config timestamp body !! k = headers config !! k.
Proof.
  intros Hc Ht Hs. unfold build_headers, signature_of; cbv zeta.
  rewrite lookup_insert_ne by congruence.
  assert (H : (headers config ∪ {[ "Content-Type" := "application/json" ]}) !! k
              = headers config !! k).
  { rewrite lookup_union_l; [reflexivity |].
    rewrite lookup_singleton_ne by congruence. reflexivity. }
  destruct (truthy_secret (secret config)) as [key|]; [|exact H].
  rewrite lookup_insert_ne by congruence. exact H.
Qed.

Lemma truthy_secret_nonempty (s : string) : s <> "" -> truthy_secret (Some s) = Some s.
Proof. destruct s; [congruence | reflexivity]. Qed.

(** A delivery reads the secret only through its truthiness. *)
Lemma dispatch_empty_secret time_time server tid config payload :
  dispatch time_time server tid (with_secret config (Some "")) payload
  = dispatch time_time server tid (with_secret config None) payload.
Proof. reflexivity. Qed.

End DispatchFacts.

(** The retry schedule, for at most 1024 retries.  For a configuration
    with [max_retries = n <= 1024] and [backoff_factor = b] (both
    non-negative, as the model's field constraints require) and an
    endpoint that never answers with a 2xx status, the delivery sequence
    makes exactly [n + 1] requests and sleeps [b * 2^i] seconds after
    the failed attempt [i] whenever an attempt remains: its requests and
    sleeps are request, sleep [b], request, sleep [2b], ..., request.
    When the first 2xx answer comes to attempt [k <= n], the sequence is
    the schedule up to that request and stops there. *)
Lemma dispatch_retry_schedule
    (json_dumps : Http_notifier.Payload -> string)
    (hmac_sha256_hexdigest : string -> string -> string)
    (time_time : Q) (server : nat -> Http_notifier.outcome) (tid : string)
    (config : Webhook.WebhookConfig) (payload : Http_notifier.Payload) :
  0 <= Webhook.max_retries config <= 1024 ->
  (0 <= Webhook.backoff_factor config)%Q ->
  let n := Z.to_nat (Webhook.max_retries config) in
  let b := Webhook.backoff_factor config in
  let request :=
    Http_notifier.request_of json_dumps hmac_sha256_hexdigest time_time config payload in
  let t :=
    Http_notifier._dispatch json_dumps hmac_sha256_hexdigest time_time server tid
      config payload in
  (Http_notifier.never_2xx server ->
     Http_notifier.network_events t = Http_notifier.retry_schedule request b n 0
     /\ Http_notifier.requests_of t = repeat request (S n)
     /\ length (Http_notifier.requests_of t) = S n
     /\ Http_notifier.sleeps_of t
        = map (fun i => (b * inject_Z (2 ^ Z.of_nat i))%Q) (seq 0 n))
  /\ (forall k, (k <= n)%nat -> Http_notifier.first_2xx_at server k ->
        Http_notifier.network_events t = Http_notifier.retry_schedule request b k 0
        /\ length (Http_notifier.requests_of t) = S k
        /\ Http_notifier.sleeps_of t
           = map (fun i => (b * inject_Z (2 ^ Z.of_nat i))%Q) (seq 0 k)).
Proof.
  intros Hn Hb n b request t. split.
  - intros Hs.
    assert (E : Http_notifier.network_events t
                = Http_notifier.retry_schedule request b n 0)
      by (apply dispatch_all_fail; assumption).
    split; [exact E |].
    rewrite <- (requests_of_network_events t), <- (sleeps_of_network_events t), E.
    rewrite retry_schedule_requests, retry_schedule_sleeps.
    split; [reflexivity |]. split; [apply repeat_length | reflexivity].
  - intros k Hk Hfirst.
    assert (E : Http_notifier.network_events t
                = Http_notifier.retry_schedule request b k 0)
      by (apply dispatch_until_success; [lia | assumption | assumption | lia | assumption]).
    split; [exact E |].
    rewrite <- (requests_of_network_events t), <- (sleeps_of_network_events t), E.
    rewrite retry_schedule_requests, retry_schedule_sleeps.
    split; [apply repeat_length | reflexivity].
Qed.

(** With [max_retries = 2] and [backoff_factor = 1.0] against an endpoint
    that always answers 500: three requests, a sleep of 1s and one of 2s
    between them, nothing after the third request. *)
Lemma dispatch_three_attempts :
  let request :=
    Http_notifier.request_of Examples.json_dumps_stub Examples.hmac_stub
      Examples.clock Examples.config_signed Examples.payload_done in
  let t :=
    Http_notifier._dispatch Examples.json_dumps_stub Examples.hmac_stub
      Examples.clock Examples.always_500 "t1" Examples.config_signed
      Examples.payload_done in
  Http_notifier.network_events t
  = [Http_notifier.HttpRequest request; Http_notifier.Sleep 1;
     Http_notifier.HttpRequest request; Http_notifier.Sleep 2;
     Http_notifier.HttpRequest request]
  /\ length (Http_notifier.requests_of t) = 3%nat
  /\ Http_notifier.sleeps_of t = [1%Q; 2%Q].
Proof.
  intros request t.
  destruct (dispatch_retry_schedule Examples.json_dumps_stub Examples.hmac_stub
              Examples.clock Examples.always_500 "t1" Examples.config_signed
              Examples.payload_done) as [Hfail _].
  - simpl. lia.
  - simpl. discriminate.
  - destruct Hfail as (Hnet & _ & Hlen & Hsleeps); [intros i; reflexivity |].
    split; [exact Hnet |]. split; [exact Hlen | exact Hsleeps].
Qed.

(** The retry schedule breaks off beyond 1024 retries.  For a
    configuration with [max_retries >= 1025] and an endpoint that never
    answers with a 2xx status, the delivery sequence makes 1025 requests
    and then dies of the [OverflowError] raised by
    [backoff * (2**attempt)] at [attempt = 1024]: the integer [2**1024]
    has no float. *)
Lemma dispatch_retry_overflow
    (json_dumps : Http_notifier.Payload -> string)
    (hmac_sha256_hexdigest : string -> string -> string)
    (time_time : Q) (server : nat -> Http_notifier.outcome) (tid : string)
    (config : Webhook.WebhookConfig) (payload : Http_notifier.Payload) :
  1025 <= Webhook.max_retries config ->
  (0 <= Webhook.backoff_factor config)%Q ->
  Http_notifier.never_2xx server ->
  let t :=
    Http_notifier._dispatch json_dumps hmac_sha256_hexdigest time_time server tid
      config payload in
  length (Http_notifier.requests_of t) = 1025%nat
  /\ last (Http_notifier.network_events t)
     = Some (Http_notifier.Uncaught Http_notifier.overflow_error).
Proof.
  intros Hn Hb Hs t.
  assert (E := dispatch_overflow json_dumps hmac_sha256_hexdigest
                 time_time server tid config payload Hn Hb Hs).
  fold t in E. split.
  - rewrite <- (requests_of_network_events t), E, requests_of_app.
    rewrite retry_schedule_requests, length_app, repeat_length. reflexivity.
  - rewrite E. apply last_snoc.
Qed.

(** C2, at [max_retries = 1025], [backoff_factor = 0.0] and an endpoint
    that always answers 500.  The claim has 1026 requests; the code makes
    1025, sleeping 0 seconds between them, and the coroutine then ends
    with an uncaught [OverflowError] instead of the last attempt. *)
Theorem dispatch_1025_retries_overflow :
  let t :=
    Http_notifier._dispatch Examples.json_dumps_stub Examples.hmac_stub
      Examples.clock Examples.always_500 "t1" Examples.config_many_retries
      Examples.payload_done in
  Webhook.max_retries Examples.config_many_retries = 1025
  /\ length (Http_notifier.requests_of t) = 1025%nat
  /\ length (Http_notifier.requests_of t)
     <> S (Z.to_nat (Webhook.max_retries Examples.config_many_retries))
  /\ last (Http_notifier.network_events t)
     = Some (Http_notifier.Uncaught Http_notifier.overflow_error).
Proof.
  intros t.
  destruct (dispatch_retry_overflow Examples.json_dumps_stub Examples.hmac_stub
              Examples.clock Examples.always_500 "t1" Examples.config_many_retries
              Examples.payload_done) as [Hlen Hlast].
  - simpl. lia.
  - simpl. discriminate.
  - intros i. reflexivity.
  - split; [reflexivity |]. split; [exact Hlen |]. split; [| exact Hlast].
    fold t in Hlen. rewrite Hlen. simpl. lia.
Qed.

(** C3 (as the code has it).  A delivery sequence makes at least one
    request, and every request of it is the same: the body [B]
    serialized once and the timestamp [T] taken once are reused on every
    attempt.  With a non-empty secret [s] the requests carry
    [X-Docling-Signature], the hex HMAC-SHA256 with key [s] over the
    string [T.B].  With no secret, or the empty string as secret, the
    dispatch adds no signature: the header is then what the configured
    custom headers have under that name, absent when they have none. *)
Theorem dispatch_signature_header
    (json_dumps : Http_notifier.Payload -> string)
    (hmac_sha256_hexdigest : string -> string -> string)
    (time_time : Q) (server : nat -> Http_notifier.outcome) (tid : string)
    (config : Webhook.WebhookConfig) (payload : Http_notifier.Payload) :
  let T := Http_notifier.timestamp_of time_time in
  let B := Http_notifier.body_of json_dumps payload in
  let request :=
    Http_notifier.request_of json_dumps hmac_sha256_hexdigest time_time config payload in
  let t :=
    Http_notifier._dispatch json_dumps hmac_sha256_hexdigest time_time server tid
      config payload in
  (exists rest, Http_notifier.requests_of t = request :: rest)
  /\ Forall (fun r => r = request) (Http_notifier.requests_of t)
  /\ Http_notifier.req_content request = B
  /\ Http_notifier.req_headers request !! "X-Docling-Timestamp" = Some T
  /\ (forall s, Webhook.secret config = Some s -> s <> "" ->
        Http_notifier.req_headers request !! "X-Docling-Signature"
        = Some (hmac_sha256_hexdigest s (T ++ "." ++ B)%string))
  /\ (Webhook.secret config = None \/ Webhook.secret config = Some "" ->
        Http_notifier.req_headers request !! "X-Docling-Signature"
        = Webhook.headers config !! "X-Docling-Signature")
  /\ (Webhook.secret config = None \/ Webhook.secret config = Some "" ->
        Webhook.headers config !! "X-Docling-Signature" = None ->
        Http_notifier.req_headers request !! "X-Docling-Signature" = None).
Proof.
  intros T B request t.
  assert (Hsig := build_headers_signature hmac_sha256_hexdigest config T B).
  split; [apply dispatch_first_request |].
  split; [apply dispatch_requests |].
  split; [reflexivity |].
  split; [apply build_headers_timestamp |].
  split; [| split].
  - intros s Hs Hne. subst request; cbn [Http_notifier.request_of Http_notifier.req_headers].
    fold T B. rewrite Hsig, Hs, truthy_secret_nonempty by exact Hne. reflexivity.
  - intros Hs. subst request; cbn [Http_notifier.request_of Http_notifier.req_headers].
    fold T B. rewrite Hsig. destruct Hs as [-> | ->]; reflexivity.
  - intros Hs Hnone. subst request; cbn [Http_notifier.request_of Http_notifier.req_headers].
    fold T B. rewrite Hsig. destruct Hs as [-> | ->]; exact Hnone.
Qed.

(** Secret [abc]: the signature header is the digest of the timestamp, a
    dot and the body under that key. *)
Lemma dispatch_signature_header_witness :
  Http_notifier.req_headers
    (Http_notifier.request_of Examples.json_dumps_stub Examples.hmac_stub
       Examples.clock Examples.config_signed Examples.payload_done)
    !! "X-Docling-Signature"
  = Some (Examples.hmac_stub "abc"
            ("1700000000" ++ "."
             ++ Examples.json_dumps_stub Examples.payload_done)%string).
Proof.
  destruct (dispatch_signature_header Examples.json_dumps_stub Examples.hmac_stub
              Examples.clock Examples.always_500 "t1" Examples.config_signed
              Examples.payload_done) as (_ & _ & _ & _ & Hsigned & _).
  apply (Hsigned "abc"); [reflexivity | discriminate].
Defined.

(** C3, the claim as worded, fails on both of its header statements.
    Without a secret the first request still carries
    [X-Docling-Signature] when the configured custom headers have that
    key; and a secret that is configured as the empty string yields no
    signature header. *)
Lemma dispatch_signature_not_as_worded :
  (Webhook.secret Examples.config_unsigned_custom_signature = None
   /\ exists r rest,
        Http_notifier.requests_of
          (Http_notifier._dispatch Examples.json_dumps_stub Examples.hmac_stub
             Examples.clock Examples.always_500 "t1"
             Examples.config_unsigned_custom_signature Examples.payload_done)
        = r :: rest
        /\ Http_notifier.req_headers r !! "X-Docling-Signature" = Some "custom")
  /\ (Webhook.secret Examples.config_empty_secret = Some ""
      /\ exists r rest,
           Http_notifier.requests_of
             (Http_notifier._dispatch Examples.json_dumps_stub Examples.hmac_stub
                Examples.clock Examples.always_500 "t1"
                Examples.config_empty_secret Examples.payload_done)
           = r :: rest
           /\ Http_notifier.req_headers r !! "X-Docling-Signature" = None).
Proof.
  split; (split; [reflexivity |]); eexists; eexists;
    (split; [reflexivity | vm_compute; reflexivity]).
Qed.

(** C6 (as the code has it).  Every request of a delivery sequence
    carries [X-Docling-Timestamp] with the generated timestamp, and
    [X-Docling-Signature] with the generated digest when the secret is
    non-empty: custom headers of these names are overwritten, the
    generated values being written last.  [Content-Type] is
    [application/json] unless the custom headers have a [Content-Type]
    of their own, which then replaces it.  Without a non-empty secret a
    custom [X-Docling-Signature] is sent as configured, and every other
    custom header is sent as configured. *)
Theorem dispatch_headers
    (json_dumps : Http_notifier.Payload -> string)
    (hmac_sha256_hexdigest : string -> string -> string)
    (time_time : Q) (server : nat -> Http_notifier.outcome) (tid : string)
    (config : Webhook.WebhookConfig) (payload : Http_notifier.Payload) :
  let T := Http_notifier.timestamp_of time_time in
  let B := Http_notifier.body_of json_dumps payload in
  let t :=
    Http_notifier._dispatch json_dumps hmac_sha256_hexdigest time_time server tid
      config payload in
  Http_notifier.requests_of t <> []
  /\ Forall
       (fun r =>
          Http_notifier.req_headers r !! "X-Docling-Timestamp" = Some T
          /\ Http_notifier.req_headers r !! "X-Docling-Signature"
             = match Http_notifier.truthy_secret (Webhook.secret config) with
               | Some s => Some (hmac_sha256_hexdigest s (T ++ "." ++ B)%string)
               | None => Webhook.headers config !! "X-Docling-Signature"
               end
          /\ Http_notifier.req_headers r !! "Content-Type"
             = Some (default "application/json"
                             (Webhook.headers config !! "Content-Type"))
          /\ (forall k, k <> "Content-Type" -> k <> "X-Docling-Timestamp" ->
                        k <> "X-Docling-Signature" ->
                        Http_notifier.req_headers r !! k = Webhook.headers config !! k))
       (Http_notifier.requests_of t).
Proof.
  intros T B t. split.
  - destruct (dispatch_first_request json_dumps hmac_sha256_hexdigest
                time_time server tid config payload) as [rest E].
    subst t. rewrite E. discriminate.
  - eapply Forall_impl; [apply dispatch_requests |].
    intros r ->. cbn [Http_notifier.request_of Http_notifier.req_headers].
    split; [apply build_headers_timestamp |].
    split; [apply build_headers_signature |].
    split; [apply build_headers_content_type |].
    intros k Hc Ht Hs. apply build_headers_other; assumption.
Qed.

(** Custom headers named like the generated ones are overwritten. *)
Lemma dispatch_headers_witness :
  Forall
    (fun r =>
       Http_notifier.req_headers r !! "X-Docling-Timestamp" = Some "1700000000"
       /\ Http_notifier.req_headers r !! "X-Docling-Signature"
          = Some (Examples.hmac_stub "abc"
                    ("1700000000" ++ "."
                     ++ Examples.json_dumps_stub Examples.payload_done)%string))
    (Http_notifier.requests_of
       (Http_notifier._dispatch Examples.json_dumps_stub Examples.hmac_stub
          Examples.clock Examples.always_500 "t1"
          Examples.config_custom_generated_names Examples.payload_done)).
Proof.
  destruct (dispatch_headers Examples.json_dumps_stub Examples.hmac_stub
              Examples.clock Examples.always_500 "t1"
              Examples.config_custom_generated_names Examples.payload_done)
    as [_ H].
  eapply Forall_impl; [exact H |].
  intros r (Ht & Hs & _). split; [exact Ht | exact Hs].
Defined.

(** C6, the claim as worded, fails for [Content-Type]: the custom headers
    are merged after it, so a custom [Content-Type] replaces
    [application/json] on the request. *)
Lemma dispatch_content_type_not_as_worded :
  exists r rest,
    Http_notifier.requests_of
      (Http_notifier._dispatch Examples.json_dumps_stub Examples.hmac_stub
         Examples.clock Examples.always_500 "t1"
         Examples.config_custom_content_type Examples.payload_done)
    = r :: rest
    /\ Http_notifier.req_headers r !! "Content-Type" = Some "text/plain"
    /\ Http_notifier.req_headers r !! "Content-Type" <> Some "application/json".
Proof.
  eexists; eexists. split; [reflexivity |].
  split; [vm_compute; reflexivity | vm_compute; discriminate].
Qed.

(** C10 (as the code has it).  A configuration whose secret is the empty
    string is treated exactly like one without a secret: the two
    delivery sequences are equal, the dispatch computes no signature and
    writes no signature header, so that the requests carry
    [X-Docling-Signature] only as a configured custom header and not at
    all when the custom headers have none; a non-empty secret, and only
    that, yields a generated signature. *)
Theorem dispatch_empty_secret_unsigned
    (json_dumps : Http_notifier.Payload -> string)
    (hmac_sha256_hexdigest : string -> string -> string)
    (time_time : Q) (server : nat -> Http_notifier.outcome) (tid : string)
    (config : Webhook.WebhookConfig) (payload : Http_notifier.Payload) :
  let T := Http_notifier.timestamp_of time_time in
  let B := Http_notifier.body_of json_dumps payload in
  let empty := Webhook.with_secret config (Some "") in
  let none := Webhook.with_secret config None in
  let t :=
    Http_notifier._dispatch json_dumps hmac_sha256_hexdigest time_time server tid
      empty payload in
  t = Http_notifier._dispatch json_dumps hmac_sha256_hexdigest time_time server tid
        none payload
  /\ Http_notifier.signature_of hmac_sha256_hexdigest empty T B = None
  /\ Http_notifier.requests_of t <> []
  /\ Forall (fun r => Http_notifier.req_headers r !! "X-Docling-Signature"
                      = Webhook.headers config !! "X-Docling-Signature")
            (Http_notifier.requests_of t)
  /\ (Webhook.headers config !! "X-Docling-Signature" = None ->
        Forall (fun r => Http_notifier.req_headers r !! "X-Docling-Signature" = None)
               (Http_notifier.requests_of t))
  /\ (forall s,
        Http_notifier.signature_of hmac_sha256_hexdigest
          (Webhook.with_secret config s) T B <> None
        <-> exists key, s = Some key /\ key <> "").
Proof.
  intros T B empty none t.
  assert (Hall : Forall (fun r => Http_notifier.req_headers r !! "X-Docling-Signature"
                                  = Webhook.headers config !! "X-Docling-Signature")
                        (Http_notifier.requests_of t)).
  { eapply Forall_impl; [apply dispatch_requests |].
    intros r ->. cbn [Http_notifier.request_of Http_notifier.req_headers].
    rewrite build_headers_signature. reflexivity. }
  split; [apply dispatch_empty_secret |].
  split; [reflexivity |]. split; [| split; [exact Hall | split]].
  - destruct (dispatch_first_request json_dumps hmac_sha256_hexdigest
                time_time server tid empty payload) as [rest E].
    subst t. rewrite E. discriminate.
  - intros Hnone. eapply Forall_impl; [exact Hall |].
    intros r Hr. cbn beta in Hr. rewrite Hr. exact Hnone.
  - intros s. unfold Http_notifier.signature_of. split.
    + destruct s as [[|c key]|]; cbn; intros H; try congruence.
      exists (String c key). split; [reflexivity | discriminate].
    + intros (key & -> & Hne). destruct key; [congruence | cbn; discriminate].
Qed.

(** The empty secret with no custom signature header: no request carries
    [X-Docling-Signature]. *)
Lemma dispatch_empty_secret_unsigned_witness :
  Forall (fun r => Http_notifier.req_headers r !! "X-Docling-Signature" = None)
         (Http_notifier.requests_of
            (Http_notifier._dispatch Examples.json_dumps_stub Examples.hmac_stub
               Examples.clock Examples.always_500 "t1"
               Examples.config_empty_secret Examples.payload_done)).
Proof.
  destruct (dispatch_empty_secret_unsigned Examples.json_dumps_stub
              Examples.hmac_stub Examples.clock Examples.always_500 "t1"
              Examples.config_empty_secret Examples.payload_done)
    as (_ & _ & _ & _ & Hnone & _).
  apply Hnone. reflexivity.
Defined.

(** C10, the claim as worded, fails when the custom headers have the
    signature header's name: with the empty string as secret the
    requests do carry [X-Docling-Signature], with the custom value. *)
Lemma dispatch_empty_secret_custom_signature_sent :
  Webhook.secret Examples.config_empty_secret_custom_signature = Some ""
  /\ exists r rest,
       Http_notifier.requests_of
         (Http_notifier._dispatch Examples.json_dumps_stub Examples.hmac_stub
            Examples.clock Examples.always_500 "t1"
            Examples.config_empty_secret_custom_signature Examples.payload_done)
       = r :: rest
       /\ Http_notifier.req_headers r !! "X-Docling-Signature" = Some "custom".
Proof.
  split; [reflexivity |]. eexists; eexists.
  split; [reflexivity | vm_compute; reflexivity].
Qed.

(* ===================================================================== *)
(** * Properties of the fan-out composer                                  *)
(* ===================================================================== *)

Section GatherFacts.
Import Notifier.
Implicit Types (c k : coro) (t : child) (ts : list child) (cs : list coro).
Implicit Types (it : iteration) (its sched : list iteration).

(** ** Coroutines and their tasks *)

Lemma advance_step n : forall c k,
  advance n c = Pending k -> advance (S n) c = resume k.
Proof.
  induction n as [|n IH]; intros c k H.
  - simpl in H. injection H as ->. destruct k; reflexivity.
  - destruct c as [|exc|k']; simpl in H; try discriminate H.
    apply (IH k' k H).
Qed.

Lemma advance_failed n : forall c exc,
  advance n c = Failed exc -> raises c = Some exc.
Proof.
  induction n as [|n IH]; intros c exc H; [discriminate H|].
  destruct c as [|exc'|k]; simpl in H.
  - discriminate H.
  - injection H as ->. reflexivity.
  - simpl. apply IH. exact H.
Qed.

Lemma advance_finished n : forall c,
  advance n c = Finished -> raises c = None.
Proof.
  induction n as [|n IH]; intros c H; [discriminate H|].
  destruct c as [|exc'|k]; simpl in H.
  - reflexivity.
  - discriminate H.
  - simpl. apply IH. exact H.
Qed.

Lemma advance_pending n : forall c,
  (n < coro_steps c)%nat -> exists k, advance n c = Pending k.
Proof.
  induction n as [|n IH]; intros c Hn; [eexists; reflexivity|].
  destruct c as [|exc|k]; simpl in Hn; try lia.
  simpl. apply IH. lia.
Qed.

Lemma step_child_tracks c t :
  state t = advance (steps t) c ->
  state (step_child t) = advance (steps (step_child t)) c.
Proof.
  intros H. unfold step_child. destruct (state t) as [k| |exc] eqn:Est.
  - simpl. symmetry. apply advance_step. symmetry. exact H.
  - rewrite Est. exact H.
  - rewrite Est. exact H.
Qed.

Lemma step_child_steps t :
  (steps t <= steps (step_child t) <= S (steps t))%nat.
Proof. unfold step_child. destruct (state t); simpl; lia. Qed.

Lemma step_child_remaining t : (remaining (step_child t) <= remaining t)%nat.
Proof.
  destruct t as [n [k| |exc]]; try (unfold remaining; simpl; lia).
  destruct k; unfold remaining; simpl; lia.
Qed.

Lemma step_child_pending_remaining t k :
  state t = Pending k -> (S (remaining (step_child t)) <= remaining t)%nat.
Proof.
  destruct t as [n st]; simpl; intros ->.
  destruct k; unfold remaining; simpl; lia.
Qed.

Lemma step_child_failed t exc :
  state t = Failed exc -> step_child t = t.
Proof. intros H. unfold step_child. rewrite H. reflexivity. Qed.

Lemma step_child_finished t :
  state t = Finished -> step_child t = t.
Proof. intros H. unfold step_child. rewrite H. reflexivity. Qed.

(** A child fails when it is resumed exactly when it is about to raise. *)
Lemma step_child_fails t exc :
  is_failed t = false ->
  (state (step_child t) = Failed exc <-> fails_next t = Some exc).
Proof.
  unfold is_failed, fails_next, step_child.
  destruct (state t) as [[|e|k]| |e] eqn:Est; simpl; intros Hf;
    try discriminate Hf; try rewrite Est; split; congruence.
Qed.

(** ** One iteration *)

Lemma run_iteration_lookup it ts i :
  run_iteration it ts !! i
  = (fun t => if bool_decide (i ∈ it) then step_child t else t) <$> ts !! i.
Proof. unfold run_iteration. apply list_lookup_imap. Qed.

Lemma run_iteration_length it ts : length (run_iteration it ts) = length ts.
Proof. unfold run_iteration. apply length_imap. Qed.

(** After an iteration each child is what it was or one step further. *)
Lemma run_iteration_child it ts i t' :
  run_iteration it ts !! i = Some t' ->
  exists t, ts !! i = Some t /\ (t' = t \/ (i ∈ it /\ t' = step_child t)).
Proof.
  rewrite run_iteration_lookup. destruct (ts !! i) as [t|]; [|discriminate].
  simpl. intros [= <-]. exists t. split; [reflexivity|].
  case_bool_decide; [right; split; [assumption | reflexivity] | left; reflexivity].
Qed.

Lemma run_iteration_everyone ts :
  run_iteration (everyone (length ts)) ts = map step_child ts.
Proof.
  apply list_eq. intros i. rewrite run_iteration_lookup.
  change (map step_child ts) with (step_child <$> ts).
  rewrite list_lookup_fmap.
  destruct (ts !! i) as [t|] eqn:Hi; [|reflexivity]. simpl.
  rewrite bool_decide_eq_true_2; [reflexivity|].
  unfold everyone. apply elem_of_seq. apply lookup_lt_Some in Hi. lia.
Qed.

Lemma run_iteration_tracks cs ts it :
  Forall2 (fun c t => state t = advance (steps t) c) cs ts ->
  Forall2 (fun c t => state t = advance (steps t) c) cs (run_iteration it ts).
Proof.
  intros H. apply Forall2_same_length_lookup in H as [Hlen H].
  apply Forall2_same_length_lookup. split; [rewrite run_iteration_length; exact Hlen|].
  intros i c t' Hc Ht'.
  apply run_iteration_child in Ht' as (t & Ht & [-> | [_ ->]]).
  - exact (H i c t Hc Ht).
  - apply step_child_tracks. exact (H i c t Hc Ht).
Qed.

Lemma run_iteration_steps it ts :
  Forall2 (fun t t' => steps t <= steps t' <= S (steps t))%nat
          ts (run_iteration it ts).
Proof.
  apply Forall2_same_length_lookup. split; [rewrite run_iteration_length; reflexivity|].
  intros i t t' Ht Ht'.
  apply run_iteration_child in Ht' as (t0 & Ht0 & [-> | [_ ->]]);
    rewrite Ht in Ht0; injection Ht0 as <-; [lia | apply step_child_steps].
Qed.

Lemma list_sum_remaining_le ts ts' :
  Forall2 (fun t t' => remaining t' <= remaining t)%nat ts ts' ->
  (list_sum (map remaining ts') <= list_sum (map remaining ts))%nat.
Proof. induction 1; simpl; lia. Qed.

Lemma run_iteration_remaining it ts :
  (list_sum (map remaining (run_iteration it ts)) <= list_sum (map remaining ts))%nat.
Proof.
  apply list_sum_remaining_le.
  apply Forall2_same_length_lookup. split; [rewrite run_iteration_length; reflexivity|].
  intros i t t' Ht Ht'.
  apply run_iteration_child in Ht' as (t0 & Ht0 & [-> | [_ ->]]);
    rewrite Ht in Ht0; injection Ht0 as <-; [lia | apply step_child_remaining].
Qed.

(** A child that has failed stays as it is. *)
Lemma run_iteration_failed it ts i t exc :
  ts !! i = Some t -> state t = Failed exc ->
  run_iteration it ts !! i = Some t.
Proof.
  intros Hi Hst. rewrite run_iteration_lookup, Hi. simpl.
  case_bool_decide; [rewrite (step_child_failed t exc Hst)|]; reflexivity.
Qed.

(** The first failure of an iteration is that of a child it resumes. *)
Lemma first_failure_Some it ts exc :
  first_failure it ts = Some exc ->
  exists i t, i ∈ it /\ ts !! i = Some t /\ fails_next t = Some exc.
Proof.
  induction it as [|j it IH]; simpl; [discriminate|].
  destruct (ts !! j) as [t|] eqn:Hj; simpl.
  - destruct (fails_next t) as [e|] eqn:Hf.
    + intros [= <-]. exists j, t. split; [left|]. split; assumption.
    + intros H. destruct (IH H) as (i & t' & Hin & Hi & Hf').
      exists i, t'. split; [right; exact Hin|]. split; assumption.
  - intros H. destruct (IH H) as (i & t' & Hin & Hi & Hf').
    exists i, t'. split; [right; exact Hin|]. split; assumption.
Qed.

Lemma first_failure_None it ts i t :
  first_failure it ts = None -> i ∈ it -> ts !! i = Some t ->
  fails_next t = None.
Proof.
  induction it as [|j it IH]; simpl; intros H Hin Hi.
  - apply elem_of_nil in Hin. contradiction.
  - destruct (ts !! j ≫= fails_next) as [e|] eqn:Hj; [discriminate H|].
    apply elem_of_cons in Hin as [-> | Hin]; [| exact (IH H Hin Hi)].
    rewrite Hi in Hj. exact Hj.
Qed.

(** While no child has failed, an iteration without a first failure
    leaves none failed, and one with a first failure leaves that child
    failed. *)
Lemma run_iteration_no_failure it ts :
  Forall (fun t => is_failed t = false) ts ->
  first_failure it ts = None ->
  Forall (fun t => is_failed t = false) (run_iteration it ts).
Proof.
  intros Hnf Hff. apply Forall_lookup. intros i t' Ht'.
  apply run_iteration_child in Ht' as (t & Ht & [-> | [Hin ->]]).
  - exact (proj1 (Forall_lookup _ _) Hnf i t Ht).
  - pose proof (proj1 (Forall_lookup _ _) Hnf i t Ht) as Hf.
    pose proof (first_failure_None it ts i t Hff Hin Ht) as Hn.
    unfold is_failed. destruct (state (step_child t)) as [k| |exc] eqn:Est;
      try reflexivity.
    apply (step_child_fails t exc Hf) in Est. congruence.
Qed.

Lemma run_iteration_failure it ts exc :
  Forall (fun t => is_failed t = false) ts ->
  first_failure it ts = Some exc ->
  exists i t, run_iteration it ts !! i = Some t /\ state t = Failed exc.
Proof.
  intros Hnf Hff.
  destruct (first_failure_Some it ts exc Hff) as (i & t & Hin & Hi & Hf).
  exists i, (step_child t). split.
  - rewrite run_iteration_lookup, Hi. simpl.
    rewrite bool_decide_eq_true_2 by exact Hin. reflexivity.
  - apply step_child_fails; [| exact Hf].
    exact (proj1 (Forall_lookup _ _) Hnf i t Hi).
Qed.

(** ** Several iterations *)

Lemma run_iterations_cons it its ts :
  run_iterations (it :: its) ts = run_iterations its (run_iteration it ts).
Proof. reflexivity. Qed.

Lemma run_iterations_length its : forall ts,
  length (run_iterations its ts) = length ts.
Proof.
  induction its as [|it its IH]; intros ts; [reflexivity|].
  rewrite run_iterations_cons, IH. apply run_iteration_length.
Qed.

Lemma run_iterations_tracks cs its : forall ts,
  Forall2 (fun c t => state t = advance (steps t) c) cs ts ->
  Forall2 (fun c t => state t = advance (steps t) c) cs (run_iterations its ts).
Proof.
  induction its as [|it its IH]; intros ts H; [exact H|].
  rewrite run_iterations_cons. apply IH. apply run_iteration_tracks. exact H.
Qed.

Lemma run_iterations_steps its : forall ts,
  Forall2 (fun t t' => steps t <= steps t' <= steps t + length its)%nat
          ts (run_iterations its ts).
Proof.
  induction its as [|it its IH]; intros ts.
  - simpl. apply Forall2_same_length_lookup. split; [reflexivity|].
    intros i t t' Ht Ht'. rewrite Ht in Ht'. injection Ht' as <-. lia.
  - rewrite run_iterations_cons.
    pose proof (run_iteration_steps it ts) as H1.
    specialize (IH (run_iteration it ts)).
    apply Forall2_same_length_lookup in H1 as [Hl1 H1].
    apply Forall2_same_length_lookup in IH as [Hl2 H2].
    apply Forall2_same_length_lookup. split; [congruence|].
    intros i t t' Ht Ht'.
    destruct (run_iteration it ts !! i) as [t1|] eqn:Ht1.
    + specialize (H1 i t t1 Ht Ht1). specialize (H2 i t1 t' Ht1 Ht').
      simpl. lia.
    + apply lookup_ge_None in Ht1. apply lookup_lt_Some in Ht. lia.
Qed.

Lemma run_iterations_failed its : forall ts i t exc,
  ts !! i = Some t -> state t = Failed exc ->
  run_iterations its ts !! i = Some t.
Proof.
  induction its as [|it its IH]; intros ts i t exc Hi Hst; [exact Hi|].
  rewrite run_iterations_cons. apply (IH _ i t exc); [| exact Hst].
  apply (run_iteration_failed it ts i t exc Hi Hst).
Qed.

(** ** The gathering loop *)

(** The children the caller finds are the children after some of the
    iterations, at least one. *)
Lemma gather_loop_prefix its : forall ts r ts',
  gather_loop its ts = Some (r, ts') ->
  exists n, ts' = run_iterations (take (S n) its) ts.
Proof.
  induction its as [|it its IH]; intros ts r ts' H; [discriminate H|].
  simpl in H. destruct (first_failure it ts) as [exc|].
  - injection H as _ <-. exists 2%nat. reflexivity.
  - destruct (forallb is_finished (run_iteration it ts)).
    + injection H as _ <-. exists 0%nat. reflexivity.
    + destruct (IH _ _ _ H) as [n ->]. exists (S n). reflexivity.
Qed.

Lemma gather_loop_returned its : forall ts ts',
  gather_loop its ts = Some (Returned, ts') ->
  forallb is_finished ts' = true /\ first_failing its ts = None.
Proof.
  induction its as [|it its IH]; intros ts ts' H; [discriminate H|].
  simpl in H. simpl first_failing.
  destruct (first_failure it ts) as [exc|]; [discriminate H|].
  destruct (forallb is_finished (run_iteration it ts)) eqn:Hfin.
  - injection H as <-. split; [exact Hfin|].
    (* nothing is left to fail *)
    assert (Hnone : forall its' ts0,
               forallb is_finished ts0 = true -> first_failing its' ts0 = None).
    { clear. induction its' as [|it' its' IH']; intros ts0 Hf; [reflexivity|].
      simpl.
      assert (Hall : forall i t, ts0 !! i = Some t -> state t = Finished).
      { intros i t Hi. rewrite forallb_forall in Hf.
        specialize (Hf t (proj1 (list_elem_of_In _ _) (list_elem_of_lookup_2 _ _ _ Hi))).
        unfold is_finished in Hf. destruct (state t); congruence. }
      assert (Hff : first_failure it' ts0 = None).
      { clear IH'. induction it' as [|j it' IHj]; [reflexivity|]. simpl.
        destruct (ts0 !! j) as [t|] eqn:Hj; simpl; [| exact IHj].
        unfold fails_next. rewrite (Hall j t Hj). exact IHj. }
      rewrite Hff.
      assert (Hsame : run_iteration it' ts0 = ts0).
      { apply list_eq. intros i. rewrite run_iteration_lookup.
        destruct (ts0 !! i) as [t|] eqn:Hi; [|reflexivity]. simpl.
        case_bool_decide; [|reflexivity].
        rewrite (step_child_finished t (Hall i t Hi)). reflexivity. }
      rewrite Hsame, (IH' ts0 Hf). reflexivity. }
    rewrite (Hnone its _ Hfin). reflexivity.
  - destruct (IH _ _ H) as [Hf Hn]. split; [exact Hf|]. rewrite Hn. reflexivity.
Qed.

(** An exception reaches the caller two iterations after the first
    failure, and it is the exception of that failure. *)
Lemma gather_loop_propagated its : forall ts exc ts',
  gather_loop its ts = Some (Propagated exc, ts') ->
  exists r0,
    first_failing its ts = Some (r0, exc)
    /\ ts' = run_iterations (take (r0 + 3) its) ts.
Proof.
  induction its as [|it its IH]; intros ts exc ts' H; [discriminate H|].
  simpl in H. simpl first_failing.
  destruct (first_failure it ts) as [e|].
  - injection H as <- <-. exists 0%nat. split; reflexivity.
  - destruct (forallb is_finished (run_iteration it ts)); [discriminate H|].
    destruct (IH _ _ _ H) as (r0 & Hff & ->).
    exists (S r0). rewrite Hff. split; reflexivity.
Qed.

(** The child of the first failure is failed from its iteration on. *)
Lemma first_failing_failed its : forall ts r0 exc,
  Forall (fun t => is_failed t = false) ts ->
  first_failing its ts = Some (r0, exc) ->
  forall m, exists i t,
    run_iterations (take (S r0 + m) its) ts !! i = Some t
    /\ state t = Failed exc.
Proof.
  induction its as [|it its IH]; intros ts r0 exc Hnf H m; [discriminate H|].
  simpl in H. destruct (first_failure it ts) as [e|] eqn:Hff.
  - injection H as <- <-.
    destruct (run_iteration_failure it ts e Hnf Hff) as (i & t & Hi & Hst).
    exists i, t. split; [| exact Hst].
    change (take (1 + m) (it :: its)) with (it :: take m its).
    rewrite run_iterations_cons. apply (run_iterations_failed _ _ i t e Hi Hst).
  - destruct (first_failing its (run_iteration it ts)) as [[r e]|] eqn:Hr;
      [| discriminate H].
    injection H as <- <-.
    destruct (IH _ r e (run_iteration_no_failure it ts Hnf Hff) Hr m)
      as (i & t & Hi & Hst).
    exists i, t. split; [exact Hi | exact Hst].
Qed.

(** While the loop goes on (no failure, not all finished) an iteration
    that resumes every child brings some child forward. *)
Lemma everyone_progress ts :
  Forall (fun t => is_failed t = false) ts ->
  forallb is_finished ts = false ->
  (S (list_sum (map remaining (map step_child ts)))
   <= list_sum (map remaining ts))%nat.
Proof.
  induction ts as [|t ts IH]; simpl; [discriminate|].
  intros Hnf Hfin. inversion Hnf as [|t0 ts0 Ht Hts]; subst.
  assert (Hle : (list_sum (map remaining (map step_child ts))
                 <= list_sum (map remaining ts))%nat).
  { clear. induction ts as [|u ts IH]; simpl; [lia|].
    pose proof (step_child_remaining u). lia. }
  destruct (state t) as [k| |exc] eqn:Est.
  - pose proof (step_child_pending_remaining t k Est). lia.
  - unfold is_finished in Hfin. rewrite Est in Hfin. simpl in Hfin.
    specialize (IH Hts Hfin). pose proof (step_child_remaining t). lia.
  - unfold is_failed in Ht. rewrite Est in Ht. discriminate Ht.
Qed.

Lemma step_child_all_finished ts :
  forallb is_finished ts = true -> map step_child ts = ts.
Proof.
  induction ts as [|t ts IH]; simpl; [reflexivity|].
  intros H. apply andb_true_iff in H as [Ht Hts].
  rewrite (IH Hts). f_equal. apply step_child_finished.
  unfold is_finished in Ht. destruct (state t); congruence.
Qed.

(** With enough iterations that resume every child, the caller gets a
    result. *)
Lemma gather_loop_everyone fuel : forall ts,
  Forall (fun t => is_failed t = false) ts ->
  (list_sum (map remaining ts) < fuel)%nat ->
  exists r ts',
    gather_loop (repeat (everyone (length ts)) fuel) ts = Some (r, ts').
Proof.
  induction fuel as [|fuel IH]; intros ts Hnf Hfuel; [lia|].
  simpl. destruct (first_failure (everyone (length ts)) ts) as [exc|] eqn:Hff;
    [eauto|].
  destruct (forallb is_finished (run_iteration (everyone (length ts)) ts))
    eqn:Hfin; [eauto|].
  pose proof (run_iteration_no_failure _ ts Hnf Hff) as Hnf1.
  rewrite run_iteration_everyone in *.
  assert (Hfin0 : forallb is_finished ts = false).
  { destruct (forallb is_finished ts) eqn:E; [|reflexivity].
    rewrite (step_child_all_finished ts E) in Hfin. congruence. }
  pose proof (everyone_progress ts Hnf Hfin0) as Hprog.
  destruct (IH (map step_child ts) Hnf1 ltac:(lia)) as (r & ts' & E).
  rewrite length_map in E. eauto.
Qed.

Lemma gather_loop_progress sched : forall ts fuel,
  Forall (fun t => is_failed t = false) ts ->
  (list_sum (map remaining ts) < fuel)%nat ->
  exists r ts',
    gather_loop (sched ++ repeat (everyone (length ts)) fuel) ts = Some (r, ts').
Proof.
  induction sched as [|it sched IH]; intros ts fuel Hnf Hfuel.
  - apply gather_loop_everyone; assumption.
  - simpl. destruct (first_failure it ts) as [exc|] eqn:Hff; [eauto|].
    destruct (forallb is_finished (run_iteration it ts)); [eauto|].
    pose proof (run_iteration_remaining it ts) as Hle.
    destruct (IH (run_iteration it ts) fuel
                 (run_iteration_no_failure it ts Hnf Hff) ltac:(lia))
      as (r & ts' & E).
    rewrite run_iteration_length in E. eauto.
Qed.

(** ** [gather] *)

Lemma spawn_tracks cs :
  Forall2 (fun c t => state t = advance (steps t) c) cs (map spawn cs).
Proof. induction cs as [|c cs IH]; constructor; [reflexivity | exact IH]. Qed.

Lemma spawn_no_failed cs : Forall (fun t => is_failed t = false) (map spawn cs).
Proof. induction cs as [|c cs IH]; constructor; [reflexivity | exact IH]. Qed.

Lemma spawn_remaining cs : map remaining (map spawn cs) = map coro_steps cs.
Proof. rewrite map_map. reflexivity. Qed.

Lemma first_iteration_steps cs :
  Forall (fun t => steps t = 1%nat)
         (run_iteration (everyone (length cs)) (map spawn cs)).
Proof.
  rewrite <- (length_map spawn cs) at 1. rewrite run_iteration_everyone.
  rewrite map_map. apply Forall_map. apply Forall_forall. intros c _. reflexivity.
Qed.

(** What the caller of [gather] finds, when it gets a result. *)
Lemma gather_outcome cs sched r ts :
  gather cs sched = Some (r, ts) ->
  Forall2 started_from cs ts
  /\ (r = Returned <-> Forall (fun c => raises c = None) cs)
  /\ (r = Returned -> Forall (fun t => state t = Finished) ts)
  /\ (forall exc, r = Propagated exc ->
      (exists c, In c cs /\ raises c = Some exc)
      /\ exists r0,
           first_failing (everyone (length cs) :: sched) (map spawn cs)
           = Some (r0, exc)
           /\ ts = run_iterations (take (r0 + 3) (everyone (length cs) :: sched))
                     (map spawn cs)
           /\ Forall (fun t => steps t <= r0 + 3)%nat ts
           /\ Forall2 (fun c t => (r0 + 3 < coro_steps c)%nat ->
                                  exists k, state t = Pending k) cs ts).
Proof.
  unfold gather. intros E.
  (* the children are those after some iterations, the first among them *)
  destruct (gather_loop_prefix _ _ _ _ E) as [n Hts].
  change (take (S n) (everyone (length cs) :: sched))
    with (everyone (length cs) :: take n sched) in Hts.
  rewrite run_iterations_cons in Hts.
  assert (Htr : Forall2 (fun c t => state t = advance (steps t) c) cs ts).
  { rewrite Hts. apply run_iterations_tracks, run_iteration_tracks, spawn_tracks. }
  assert (Hst : Forall (fun t => 1 <= steps t)%nat ts).
  { pose proof (first_iteration_steps cs) as H1.
    pose proof (run_iterations_steps (take n sched)
                  (run_iteration (everyone (length cs)) (map spawn cs))) as H2.
    rewrite <- Hts in H2. apply Forall2_same_length_lookup in H2 as [Hl H2].
    apply Forall_lookup. intros i t Hi.
    destruct (run_iteration (everyone (length cs)) (map spawn cs) !! i)
      as [t1|] eqn:Hi1.
    - specialize (H2 i t1 t Hi1 Hi).
      rewrite (proj1 (Forall_lookup _ _) H1 i t1 Hi1) in H2. lia.
    - apply lookup_ge_None in Hi1. apply lookup_lt_Some in Hi. lia. }
  assert (Hfrom : Forall2 started_from cs ts).
  { apply Forall2_same_length_lookup in Htr as [Hlen Htr].
    apply Forall2_same_length_lookup. split; [exact Hlen|].
    intros i c t Hc Ht. split.
    - exact (proj1 (Forall_lookup _ _) Hst i t Ht).
    - exact (Htr i c t Hc Ht). }
  assert (Hfin : r = Returned -> Forall (fun t => state t = Finished) ts).
  { intros ->. apply gather_loop_returned in E as [Hf _].
    apply Forall_forall. intros t Ht. rewrite forallb_forall in Hf.
    specialize (Hf t (proj1 (list_elem_of_In _ _) Ht)).
    unfold is_finished in Hf. destruct (state t); congruence. }
  assert (Hexc : forall exc, r = Propagated exc ->
                 exists c, In c cs /\ raises c = Some exc).
  { intros exc ->. apply gather_loop_propagated in E as (r0 & Hff & Hts').
    destruct (first_failing_failed _ _ r0 exc (spawn_no_failed cs) Hff 2)
      as (i & t & Hi & Hfail).
    replace (S r0 + 2)%nat with (r0 + 3)%nat in Hi by lia.
    rewrite <- Hts' in Hi.
    apply Forall2_same_length_lookup in Htr as [Hlen Htr].
    destruct (cs !! i) as [c|] eqn:Hc.
    - exists c. split; [apply list_elem_of_In; eapply list_elem_of_lookup_2; exact Hc|].
      specialize (Htr i c t Hc Hi). rewrite Hfail in Htr.
      eapply advance_failed. symmetry. exact Htr.
    - apply lookup_ge_None in Hc. apply lookup_lt_Some in Hi. lia. }
  split; [exact Hfrom|]. split; [| split; [exact Hfin|]].
  - split.
    + intros Hr. specialize (Hfin Hr).
      apply Forall2_same_length_lookup in Htr as [Hlen Htr].
      apply Forall_lookup. intros i c Hc.
      destruct (ts !! i) as [t|] eqn:Ht.
      * specialize (Htr i c t Hc Ht).
        rewrite (proj1 (Forall_lookup _ _) Hfin i t Ht) in Htr.
        eapply advance_finished. symmetry. exact Htr.
      * apply lookup_ge_None in Ht. apply lookup_lt_Some in Hc. lia.
    + intros Hnone. destruct r as [|exc]; [reflexivity|].
      destruct (Hexc exc eq_refl) as (c & Hc & Hraise).
      rewrite Forall_forall in Hnone. apply list_elem_of_In in Hc.
      rewrite (Hnone c Hc) in Hraise. discriminate.
  - intros exc Hr. split; [exact (Hexc exc Hr)|]. subst r.
    apply gather_loop_propagated in E as (r0 & Hff & Hts').
    exists r0. split; [exact Hff|]. split; [exact Hts'|].
    assert (Hsteps : Forall (fun t => steps t <= r0 + 3)%nat ts).
    { pose proof (run_iterations_steps
                    (take (r0 + 3) (everyone (length cs) :: sched))
                    (map spawn cs)) as H2.
      rewrite <- Hts' in H2. apply Forall2_same_length_lookup in H2 as [Hl H2].
      apply Forall_lookup. intros i t Hi.
      destruct (map spawn cs !! i) as [t0|] eqn:Hi0.
      - specialize (H2 i t0 t Hi0 Hi).
        assert (H0 : steps t0 = 0%nat).
        { change (map spawn cs) with (spawn <$> cs) in Hi0.
          rewrite list_lookup_fmap in Hi0.
          destruct (cs !! i); [|discriminate]. injection Hi0 as <-. reflexivity. }
        rewrite length_take in H2. lia.
      - apply lookup_ge_None in Hi0. apply lookup_lt_Some in Hi. lia. }
    split; [exact Hsteps|].
    apply Forall2_same_length_lookup in Htr as [Hlen Htr].
    apply Forall2_same_length_lookup. split; [exact Hlen|].
    intros i c t Hc Ht Hlong.
    rewrite (Htr i c t Hc Ht). apply advance_pending.
    pose proof (proj1 (Forall_lookup _ _) Hsteps i t Ht). simpl in *. lia.
Qed.

(** Every list of iterations can go on so that the caller gets a
    result. *)
Lemma gather_progress cs sched :
  exists more r ts, gather cs (sched ++ more) = Some (r, ts).
Proof.
  exists (repeat (everyone (length cs)) (S (list_sum (map coro_steps cs)))).
  unfold gather.
  destruct (gather_loop_progress (everyone (length cs) :: sched) (map spawn cs)
              (S (list_sum (map coro_steps cs))) (spawn_no_failed cs))
    as (r & ts & E); [rewrite spawn_remaining; lia|].
  rewrite length_map in E. exists r, ts. exact E.
Qed.

Lemma call_hook_gather self h sched :
  call_hook self h sched = gather (hook_coros self h) sched.
Proof. destruct h; reflexivity. Qed.

End GatherFacts.

(** C4 (as the code has it).  For every lifecycle hook, every list of
    held backends and every course of the event loop: the loop can go on
    so that the caller of the composer's hook gets a result.  When it
    gets one, the same-named hook of every backend has been invoked and
    is where its own steps have brought it, whether or not another
    backend's hook fails.  The caller gets a normal return exactly when
    no backend's hook raises, and then all of them have run to
    completion.  When a backend's hook raises, the exception of the hook
    that fails first propagates to the caller ([asyncio.gather] without
    [return_exceptions]), two loop iterations after that failure and
    without waiting for the hooks that are still running: the children
    are as the iterations up to then have left them, none has run more
    steps than there were iterations, and a hook that needs more is
    still pending. *)
Theorem composer_hook_outcome
    (self : Notifier.MultiNotifier) (h : Notifier.hook)
    (sched : list Notifier.iteration) :
  let cs := Notifier.hook_coros self h in
  let its := Notifier.hook_iterations self sched in
  (exists more r ts, Notifier.call_hook self h (sched ++ more) = Some (r, ts))
  /\ (forall r ts,
        Notifier.call_hook self h sched = Some (r, ts) ->
        Forall2 Notifier.started_from cs ts
        /\ (r = Notifier.Returned
            <-> Forall (fun n => Notifier.raises (Notifier.backend_hook n h) = None)
                       (Notifier.notifiers self))
        /\ (r = Notifier.Returned ->
            Forall (fun t => Notifier.state t = Notifier.Finished) ts)
        /\ (forall exc, r = Notifier.Propagated exc ->
            (exists n, In n (Notifier.notifiers self)
                       /\ Notifier.raises (Notifier.backend_hook n h) = Some exc)
            /\ exists r0,
                 Notifier.first_failing its (map Notifier.spawn cs) = Some (r0, exc)
                 /\ ts = Notifier.run_iterations (take (r0 + 3) its)
                           (map Notifier.spawn cs)
                 /\ Forall (fun t => Notifier.steps t <= r0 + 3)%nat ts
                 /\ Forall2 (fun c t =>
                               (r0 + 3 < Notifier.coro_steps c)%nat ->
                               exists k, Notifier.state t = Notifier.Pending k)
                            cs ts)).
Proof.
  cbv zeta. split.
  - destruct (gather_progress (Notifier.hook_coros self h) sched)
      as (more & r & ts & E).
    exists more, r, ts. rewrite call_hook_gather. exact E.
  - intros r ts E. rewrite call_hook_gather in E.
    destruct (gather_outcome _ _ _ _ E) as (Hfrom & Hret & Hfin & Hexc).
    split; [exact Hfrom|]. split; [| split; [exact Hfin|]].
    + rewrite Hret. unfold Notifier.hook_coros. rewrite Forall_map. reflexivity.
    + intros exc Hr. destruct (Hexc exc Hr) as [(c & Hc & Hraise) Hwait].
      split.
      * unfold Notifier.hook_coros in Hc.
        apply in_map_iff in Hc as (n & <- & Hn). eauto.
      * unfold Notifier.hook_iterations, Notifier.hook_coros in *.
        rewrite length_map in Hwait. exact Hwait.
Qed.

Lemma composer_hook_outcome_witness :
  Notifier.call_hook Examples.composer (Notifier.HAddTask "t1") [[1%nat]; []]
  = Some (Notifier.Propagated "boom",
          [Notifier.mkChild 1 (Notifier.Failed "boom");
           Notifier.mkChild 2 (Notifier.Pending (Notifier.Await Notifier.Return))])
  /\ exists n, In n (Notifier.notifiers Examples.composer)
               /\ Notifier.raises (Notifier.backend_hook n (Notifier.HAddTask "t1"))
                  = Some "boom".
Proof.
  split; [reflexivity|].
  destruct (composer_hook_outcome Examples.composer (Notifier.HAddTask "t1")
              [[1%nat]; []]) as [_ H].
  destruct (H _ _ eq_refl) as (_ & _ & _ & Hexc).
  exact (proj1 (Hexc "boom" eq_refl)).
Defined.

(** C4, the claim as worded, fails: in a composer holding a backend whose
    [add_task] raises and one whose [add_task] needs four steps and never
    fails, the exception reaches the caller of the composer's [add_task]
    whatever the event loop does next, and the second backend's hook,
    though started, has not run to completion at that point; when the
    second hook yields with [asyncio.sleep(0)] it has run two of its four
    steps. *)
Lemma composer_propagates_first_failure :
  Notifier.raises (Notifier.bn_add_task Examples.backend_slow "t1") = None
  /\ (forall sched,
        exists failed slow k,
          Notifier.add_task Examples.composer "t1" sched
          = Some (Notifier.Propagated "boom", [failed; slow])
          /\ Notifier.state slow = Notifier.Pending k)
  /\ Notifier.add_task Examples.composer "t1" [[1%nat]; []]
     = Some (Notifier.Propagated "boom",
             [Notifier.mkChild 1 (Notifier.Failed "boom");
              Notifier.mkChild 2 (Notifier.Pending (Notifier.Await Notifier.Return))]).
Proof.
  split; [reflexivity|]. split; [| reflexivity].
  intros sched.
  assert (E : exists ts,
             Notifier.add_task Examples.composer "t1" sched
             = Some (Notifier.Propagated "boom", ts)).
  { eexists. reflexivity. }
  destruct E as [ts E]. pose proof E as E'.
  unfold Notifier.add_task in E'.
  destruct (gather_outcome _ _ _ _ E') as (Hfrom & _ & _ & Hexc).
  destruct (Hexc "boom" eq_refl) as [_ (r0 & Hff & _ & _ & Hlong)].
  injection Hff as <-.
  apply Forall2_same_length_lookup in Hlong as [Hlen Hlong].
  destruct ts as [|failed [|slow [|extra ts]]]; try discriminate Hlen.
  destruct (Hlong 1%nat _ slow eq_refl eq_refl) as [k Hk]; [simpl; lia|].
  exists failed, slow, k. split; [exact E | exact Hk].
Qed.

(* ===================================================================== *)
(** * Further properties of the URL validation                            *)
(* ===================================================================== *)

Section ValidateMore.
Import Webhook.
Variable urlparse : string -> ParseResult.

Lemma str_in_In x l : str_in x l = true <-> In x l.
Proof.
  unfold str_in. rewrite existsb_exists. split.
  - intros (y & Hy & E). apply String.eqb_eq in E. subst. exact Hy.
  - intros H. exists x. split; [exact H | apply String.eqb_refl].
Qed.

Lemma opt_in_In x l : opt_in x l = true <-> exists h, x = Some h /\ In h l.
Proof.
  destruct x as [h|]; simpl.
  - rewrite str_in_In. split; [eauto | intros (h' & [= ->] & H); exact H].
  - split; [discriminate | intros (h & E & _); discriminate].
Qed.

Lemma str_in_mono x l l' :
  (forall y, In y l -> In y l') -> str_in x l = true -> str_in x l' = true.
Proof. rewrite !str_in_In. auto. Qed.

Lemma opt_in_mono x l l' :
  (forall y, In y l -> In y l') -> opt_in x l = true -> opt_in x l' = true.
Proof. rewrite !opt_in_In. intros H (h & E & Hh). eauto. Qed.

End ValidateMore.

(** X1.  The scheme is checked before the host: whenever
    [allowed_schemes] is non-empty and lacks the URL's scheme, the error
    is the scheme error, naming the scheme and listing the allowed ones,
    whatever the host list; the host error, naming the host, is raised
    only when the scheme check passes. *)
Theorem validate_webhook_url_scheme_first
    (urlparse : string -> Webhook.ParseResult) (url : string)
    (hosts schemes : list string) :
  (schemes <> [] ->
   Webhook.str_in (Webhook.scheme (urlparse url)) schemes = false ->
   Webhook.validate_webhook_url urlparse url hosts schemes
   = inl (Webhook.ValueError
            ("Webhook URL scheme '" ++ Webhook.scheme (urlparse url)
             ++ "' is not allowed." ++ " Allowed schemes: "
             ++ Webhook.join ", " schemes ++ ".")))
  /\ (forall msg,
        Webhook.validate_webhook_url urlparse url hosts schemes
        = inl (Webhook.ValueError
                 ("Webhook host '" ++ msg ++ "' is not in the allowed host list.")) ->
        schemes = []
        \/ Webhook.str_in (Webhook.scheme (urlparse url)) schemes = true).
Proof.
  unfold Webhook.validate_webhook_url; cbv zeta. split.
  - intros Hne Hin. destruct schemes as [|s0 rest]; [congruence|].
    cbn [Webhook.truthy_seq]. rewrite Hin. reflexivity.
  - intros msg. destruct schemes as [|s0 rest]; [left; reflexivity|].
    cbn [Webhook.truthy_seq].
    destruct (Webhook.str_in (Webhook.scheme (urlparse url)) (s0 :: rest));
      [right; reflexivity |].
    cbn. intros H. discriminate H.
Qed.

Lemma validate_webhook_url_scheme_first_witness :
  Webhook.validate_webhook_url Webhook.urlparse_basic
    "ftp://evil.example/hook" ["example.com"] ["https"; "http"]
  = inl (Webhook.ValueError
           "Webhook URL scheme 'ftp' is not allowed. Allowed schemes: https, http.").
Proof.
  apply (proj1 (validate_webhook_url_scheme_first Webhook.urlparse_basic
                  "ftp://evil.example/hook" ["example.com"] ["https"; "http"]));
    [discriminate | reflexivity].
Defined.

(** X2.  Widening the allow-lists never rejects a URL that passed: if a
    URL passes with [hosts] and [schemes], it passes with every pair of
    lists that contain them, provided a list that was empty (no
    restriction) stays empty. *)
Theorem validate_webhook_url_monotone
    (urlparse : string -> Webhook.ParseResult) (url : string)
    (hosts hosts' schemes schemes' : list string) :
  Webhook.validate_webhook_url urlparse url hosts schemes = inr tt ->
  (forall x, In x hosts -> In x hosts') ->
  (forall x, In x schemes -> In x schemes') ->
  (hosts = [] -> hosts' = []) ->
  (schemes = [] -> schemes' = []) ->
  Webhook.validate_webhook_url urlparse url hosts' schemes' = inr tt.
Proof.
  intros Hpass Hh Hs Heh Hes.
  apply validate_webhook_url_passes_iff.
  apply validate_webhook_url_passes_iff in Hpass.
  unfold Webhook.code_fails in *; cbv zeta in *.
  intros [[Hne Hin] | [Hne Hin]].
  - destruct schemes as [|s0 rest]; [apply Hne, Hes; reflexivity |].
    destruct (Webhook.str_in (Webhook.scheme (urlparse url)) (s0 :: rest)) eqn:E.
    + rewrite (str_in_mono _ _ _ Hs E) in Hin. discriminate.
    + apply Hpass. left. split; [discriminate | reflexivity].
  - destruct hosts as [|h0 rest]; [apply Hne, Heh; reflexivity |].
    destruct (Webhook.opt_in (Webhook.hostname (urlparse url)) (h0 :: rest)) eqn:E.
    + rewrite (opt_in_mono _ _ _ Hh E) in Hin. discriminate.
    + apply Hpass. right. split; [discriminate | reflexivity].
Qed.

Lemma validate_webhook_url_monotone_witness :
  Webhook.validate_webhook_url Webhook.urlparse_basic
    "https://example.com/hook" ["example.com"; "hooks.example.org"] ["http"; "https"]
  = inr tt.
Proof.
  apply (validate_webhook_url_monotone Webhook.urlparse_basic
           "https://example.com/hook" ["example.com"]
           ["example.com"; "hooks.example.org"] ["https"] ["http"; "https"]).
  - reflexivity.
  - intros x [<- | []]. left. reflexivity.
  - intros x [<- | []]. right. left. reflexivity.
  - discriminate.
  - discriminate.
Defined.

(** X3.  A URL in which the parser finds no host is rejected by every
    non-empty [allowed_hosts]; when the scheme check passes, the error
    names the host as [None]. *)
Theorem validate_webhook_url_no_host
    (urlparse : string -> Webhook.ParseResult) (url : string)
    (hosts schemes : list string) :
  Webhook.hostname (urlparse url) = None ->
  hosts <> [] ->
  Webhook.fails (Webhook.validate_webhook_url urlparse url hosts schemes)
  /\ (schemes = []
      \/ Webhook.str_in (Webhook.scheme (urlparse url)) schemes = true ->
      Webhook.validate_webhook_url urlparse url hosts schemes
      = inl (Webhook.ValueError
               "Webhook host 'None' is not in the allowed host list.")).
Proof.
  intros Hnone Hne. split.
  - apply validate_webhook_url_fails_iff. right. cbv zeta.
    rewrite Hnone. split; [exact Hne | reflexivity].
  - intros Hs. unfold Webhook.validate_webhook_url; cbv zeta.
    rewrite Hnone. destruct hosts as [|h0 rest]; [congruence|].
    destruct Hs as [-> | ->]; [reflexivity |].
    rewrite andb_false_r. reflexivity.
Qed.

Lemma validate_webhook_url_no_host_witness :
  Webhook.validate_webhook_url Webhook.urlparse_basic
    "https:/hook" ["example.com"] ["https"]
  = inl (Webhook.ValueError
           "Webhook host 'None' is not in the allowed host list.").
Proof.
  apply (proj2 (validate_webhook_url_no_host Webhook.urlparse_basic
                  "https:/hook" ["example.com"] ["https"]
                  eq_refl ltac:(discriminate))).
  right. reflexivity.
Defined.

(** X4.  [WebhookOverride.validate_against] returns the override itself,
    unchanged, exactly when its URL passes [validate_webhook_url] against
    the given lists, and raises the validator's own error otherwise; the
    override's secret plays no part. *)
Theorem validate_against_outcome
    (urlparse : string -> Webhook.ParseResult)
    (self : Webhook.WebhookOverride) (hosts schemes : list string) :
  (forall o, Webhook.validate_against urlparse self hosts schemes = inr o
             <-> o = self
                 /\ Webhook.validate_webhook_url urlparse
                      (Webhook.override_url self) hosts schemes = inr tt)
  /\ (forall e, Webhook.validate_against urlparse self hosts schemes = inl e
                <-> Webhook.validate_webhook_url urlparse
                      (Webhook.override_url self) hosts schemes = inl e)
  /\ (forall s,
        Webhook.fails (Webhook.validate_against urlparse self hosts schemes)
        <-> Webhook.fails
              (Webhook.validate_against urlparse
                 (Webhook.mkWebhookOverride (Webhook.override_url self) s)
                 hosts schemes)).
Proof.
  unfold Webhook.validate_against. cbn [Webhook.override_url].
  destruct (Webhook.validate_webhook_url urlparse (Webhook.override_url self)
              hosts schemes) as [e0 | []].
  - split; [| split].
    + intros o. split; [discriminate | intros [_ H]; discriminate].
    + intros e. split; intros [= ->]; reflexivity.
    + intros s. reflexivity.
  - split; [| split].
    + intros o. split; [intros [= <-]; auto | intros [-> _]; reflexivity].
    + intros e. split; discriminate.
    + intros s. unfold Webhook.fails. split; intros [e He]; discriminate.
Qed.

(* ===================================================================== *)
(** * Further properties of the dispatch bookkeeping                      *)
(* ===================================================================== *)

Section BookkeepingMore.
Import Webhook Http_notifier.
Implicit Types (self : HttpNotifier) (tid : string) (orch : Orchestrator).

Lemma trace_run_calls_cons c cs self :
  snd (run_calls (c :: cs) self)
  = snd (run_call c self)
    ++ snd (run_calls cs (state_after (run_call c) self)).
Proof.
  unfold state_after. rewrite run_calls_cons.
  destruct (run_call c self) as [[[] self1] t1]. simpl.
  destruct (run_calls cs self1) as [[[] self2] t2]. reflexivity.
Qed.

Lemma deliveries_of_app tid (t1 t2 : trace) :
  deliveries_of tid (t1 ++ t2) = deliveries_of tid t1 ++ deliveries_of tid t2.
Proof. apply omap_app. Qed.

(** What a notification does, in full: nothing to the notifier and no
    delivery, or the one delivery of a registered, unmarked, completed
    task. *)
Lemma notify_inv self orch tid :
  (state_after (notify_task_subscribers orch tid) self = self
   /\ forall x, deliveries_of x (snd (notify_task_subscribers orch tid self)) = [])
  \/ (exists config task,
        _webhook_configs self !! tid = Some config
        /\ (tid ∉ _dispatched self)
        /\ orch_task_status orch tid = inr task
        /\ is_completed task = true
        /\ notify_task_subscribers orch tid self
           = (tt, dispatched_add tid self,
              [(self, TaskStatusCall tid);
               (dispatched_add tid self,
                CreateTask tid config (_build_payload orch tid task))])).
Proof.
  destruct (_webhook_configs self !! tid) as [config|] eqn:Hc.
  2:{ left. rewrite (notify_guard self orch tid (or_introl Hc)).
      unfold state_after. rewrite (notify_guard self orch tid (or_introl Hc)).
      split; reflexivity. }
  destruct (decide (tid ∈ _dispatched self)) as [Hd|Hd].
  { left. unfold state_after. rewrite (notify_guard self orch tid (or_intror Hd)).
    split; reflexivity. }
  destruct (orch_task_status orch tid) as [exc|task] eqn:Ho.
  { left. unfold state_after.
    rewrite (notify_lookup_error self orch tid config exc Hc Hd Ho).
    split; reflexivity. }
  destruct (is_completed task) eqn:Ht.
  - right. exists config, task. repeat split; try assumption.
    apply notify_terminal; assumption.
  - left. unfold state_after.
    rewrite (notify_not_terminal self orch tid config task Hc Hd Ho Ht).
    split; reflexivity.
Qed.



End BookkeepingMore.



(** X6.  A notification that has passed its guard is neither cancelled
    nor altered by the calls that land during its await.  Whatever
    [add_task], [remove_task], [register_webhook] and
    [notify_queue_positions] calls run before it is resumed, the
    notification of a completed task creates its one delivery with the
    configuration read before the await and marks the task on top of the
    notifier those calls left.  So when the last of them is a
    [remove_task] of the id, the id ends up marked with no configuration
    stored for it. *)
Theorem notify_survives_calls_during_await
    (self : Http_notifier.HttpNotifier) (orch : Http_notifier.Orchestrator)
    (tid : string) (config : Webhook.WebhookConfig) (task : Http_notifier.Task)
    (cs : list Http_notifier.call) :
  Http_notifier._webhook_configs self !! tid = Some config ->
  tid ∉ Http_notifier._dispatched self ->
  Http_notifier.orch_task_status orch tid = inr task ->
  Http_notifier.is_completed task = true ->
  forallb Http_notifier.no_await cs = true ->
  let w :=
    Http_notifier.run_schedule
      (Http_notifier.Call (Http_notifier.NotifyTaskSubscribers orch tid)
       :: map Http_notifier.Call cs ++ [Http_notifier.Resume 0])
      (Http_notifier.at_rest self) in
  let left_by_calls :=
    Http_notifier.state_after (Http_notifier.run_calls cs) self in
  map snd (Http_notifier.w_trace w)
  = [Http_notifier.TaskStatusCall tid;
     Http_notifier.CreateTask tid config
       (Http_notifier._build_payload orch tid task)]
  /\ Http_notifier.w_self w = Http_notifier.dispatched_add tid left_by_calls
  /\ Http_notifier.w_suspended w = []
  /\ tid ∈ Http_notifier._dispatched (Http_notifier.w_self w)
  /\ (last cs = Some (Http_notifier.RemoveTask tid) ->
      Http_notifier._webhook_configs (Http_notifier.w_self w) !! tid = None).
Proof.
  intros Hc Hd Ho Ht Hcs. cbv zeta.
  rewrite (await_then_calls_then_resume self orch tid config task cs
             Hc Hd Ho Ht Hcs).
  cbn [Http_notifier.w_trace Http_notifier.w_self Http_notifier.w_suspended map snd].
  split; [reflexivity|]. split; [reflexivity|]. split; [reflexivity|].
  split; [apply dispatched_add_marked|].
  intros Hlast. apply last_Some in Hlast as [cs' ->].
  rewrite state_after_run_calls_snoc.
  unfold Http_notifier.state_after at 1. cbn.
  apply lookup_delete_eq.
Qed.

Lemma notify_survives_calls_during_await_witness :
  let w :=
    Http_notifier.run_schedule
      [Http_notifier.Call
         (Http_notifier.NotifyTaskSubscribers Examples.orch_done "t1");
       Http_notifier.Call (Http_notifier.RemoveTask "t1");
       Http_notifier.Resume 0]
      (Http_notifier.at_rest Examples.notifier_registered) in
  map snd (Http_notifier.w_trace w)
  = [Http_notifier.TaskStatusCall "t1";
     Http_notifier.CreateTask "t1" Examples.config_signed Examples.payload_done]
  /\ "t1" ∈ Http_notifier._dispatched (Http_notifier.w_self w)
  /\ Http_notifier._webhook_configs (Http_notifier.w_self w) !! "t1" = None.
Proof.
  destruct (notify_survives_calls_during_await
              Examples.notifier_registered Examples.orch_done "t1"
              Examples.config_signed Examples.task_done
              [Http_notifier.RemoveTask "t1"])
    as (Htrace & _ & _ & Hmarked & Hnone);
    [reflexivity | apply not_elem_of_empty | reflexivity | reflexivity
    | reflexivity |].
  split; [exact Htrace|]. split; [exact Hmarked | apply Hnone; reflexivity].
Defined.

(** X7.  In every schedule of calls and resumptions, from every notifier,
    a delivery is created with the configuration that was stored for its
    task id when its notification passed the guard, before the await:
    each [CreateTask] comes after the await of a notification of the same
    id, recorded with that configuration stored and the id unmarked.  It
    is created with the id marked. *)
Theorem deliveries_use_guard_config
    (ss : list Http_notifier.step) (self s : Http_notifier.HttpNotifier)
    (i : nat) (tid : string) (config : Webhook.WebhookConfig)
    (payload : Http_notifier.Payload) :
  let t := Http_notifier.w_trace
             (Http_notifier.run_schedule ss (Http_notifier.at_rest self)) in
  t !! i = Some (s, Http_notifier.CreateTask tid config payload) ->
  (exists j s0,
      (j < i)%nat
      /\ t !! j = Some (s0, Http_notifier.TaskStatusCall tid)
      /\ Http_notifier._webhook_configs s0 !! tid = Some config
      /\ (tid ∉ Http_notifier._dispatched s0))
  /\ tid ∈ Http_notifier._dispatched s.
Proof.
  intros t Hi.
  destruct (world_ok_schedule ss _ (world_ok_at_rest self)) as [_ Hcre].
  destruct (Hcre i s tid config payload Hi)
    as [(j & [s0 e] & Hj & Hl & He & Hcfg & Hd) Hm].
  simpl in He, Hcfg, Hd. subst e.
  split; [| exact Hm]. exists j, s0. repeat split; assumption.
Qed.

Lemma deliveries_use_guard_config_witness :
  let t :=
    Http_notifier.w_trace
      (Http_notifier.run_schedule
         [Http_notifier.Call
            (Http_notifier.NotifyTaskSubscribers Examples.orch_done "t1");
          Http_notifier.Call
            (Http_notifier.RegisterWebhook "t1"
               (Some Examples.config_many_retries));
          Http_notifier.Resume 0]
         (Http_notifier.at_rest Examples.notifier_registered)) in
  (exists s,
      t !! 1%nat
      = Some (s, Http_notifier.CreateTask "t1" Examples.config_signed
                   Examples.payload_done)
      /\ Http_notifier._webhook_configs s !! "t1"
         = Some Examples.config_many_retries)
  /\ exists j s0,
       (j < 1)%nat
       /\ t !! j = Some (s0, Http_notifier.TaskStatusCall "t1")
       /\ Http_notifier._webhook_configs s0 !! "t1" = Some Examples.config_signed.
Proof.
  cbv zeta. split; [eexists; split; reflexivity|].
  destruct (deliveries_use_guard_config
              [Http_notifier.Call
                 (Http_notifier.NotifyTaskSubscribers Examples.orch_done "t1");
               Http_notifier.Call
                 (Http_notifier.RegisterWebhook "t1"
                    (Some Examples.config_many_retries));
               Http_notifier.Resume 0]
              Examples.notifier_registered
              (Http_notifier.dispatched_add "t1"
                 (Http_notifier.configs_set "t1" Examples.config_many_retries
                    Examples.notifier_registered))
              1 "t1" Examples.config_signed Examples.payload_done)
    as [(j & s0 & Hj & Hl & Hcfg & _) _]; [reflexivity|].
  exists j, s0. split; [exact Hj|]. split; [exact Hl | exact Hcfg].
Defined.

Section LifecycleMore.
Import Webhook Http_notifier.
Implicit Types (self : HttpNotifier) (tid : string) (orch : Orchestrator).

Lemma effects_of_run_calls_cons c cs self :
  effects_of (run_calls (c :: cs)) self
  = effects_of (run_call c) self
    ++ effects_of (run_calls cs) (state_after (run_call c) self).
Proof. unfold effects_of. rewrite trace_run_calls_cons. apply map_app. Qed.

Lemma effects_of_run_calls_nil self : effects_of (run_calls []) self = [].
Proof. reflexivity. Qed.

Lemma not_in_discard tid self : tid ∉ _dispatched (dispatched_discard tid self).
Proof. cbn. rewrite elem_of_difference, elem_of_singleton. tauto. Qed.

(** The effects of a notification for a registered, unmarked, completed
    task. *)
Lemma effects_of_notify_terminal self orch tid config task :
  _webhook_configs self !! tid = Some config ->
  tid ∉ _dispatched self ->
  orch_task_status orch tid = inr task ->
  is_completed task = true ->
  effects_of (notify_task_subscribers orch tid) self
  = [TaskStatusCall tid; CreateTask tid config (_build_payload orch tid task)]
  /\ state_after (notify_task_subscribers orch tid) self = dispatched_add tid self.
Proof.
  intros Hc Hd Ho Ht. unfold effects_of, state_after.
  rewrite (notify_terminal self orch tid config task Hc Hd Ho Ht). split; reflexivity.
Qed.

End LifecycleMore.

(** X8.  [add_task] re-arms a task id: with a configuration stored for
    the id, [add_task] followed by a notification of a completed task
    creates a delivery whether or not the id was marked before, and
    leaves the configuration as it was; so a completion, an [add_task]
    and another completion start two deliveries. *)
Theorem add_task_rearms_dispatch
    (self : Http_notifier.HttpNotifier) (orch : Http_notifier.Orchestrator)
    (tid : string) (config : Webhook.WebhookConfig) (task : Http_notifier.Task) :
  Http_notifier._webhook_configs self !! tid = Some config ->
  Http_notifier.orch_task_status orch tid = inr task ->
  Http_notifier.is_completed task = true ->
  Http_notifier._webhook_configs
    (Http_notifier.state_after (Http_notifier.add_task tid) self)
  = Http_notifier._webhook_configs self
  /\ Http_notifier.effects_of
       (Http_notifier.run_calls
          [Http_notifier.AddTask tid; Http_notifier.NotifyTaskSubscribers orch tid])
       self
     = [Http_notifier.TaskStatusCall tid;
        Http_notifier.CreateTask tid config
          (Http_notifier._build_payload orch tid task)]
  /\ (tid ∉ Http_notifier._dispatched self ->
      Http_notifier.deliveries_of tid
        (snd (Http_notifier.run_calls
                [Http_notifier.NotifyTaskSubscribers orch tid;
                 Http_notifier.AddTask tid;
                 Http_notifier.NotifyTaskSubscribers orch tid] self))
      = [(config, Http_notifier._build_payload orch tid task);
         (config, Http_notifier._build_payload orch tid task)]).
Proof.
  intros Hc Ho Ht.
  assert (Hrearm : forall s,
             Http_notifier._webhook_configs s !! tid = Some config ->
             Http_notifier.effects_of
               (Http_notifier.run_calls
                  [Http_notifier.AddTask tid;
                   Http_notifier.NotifyTaskSubscribers orch tid]) s
             = [Http_notifier.TaskStatusCall tid;
                Http_notifier.CreateTask tid config
                  (Http_notifier._build_payload orch tid task)]).
  { intros s Hs. rewrite !effects_of_run_calls_cons, effects_of_run_calls_nil.
    cbn [Http_notifier.run_call].
    destruct (effects_of_notify_terminal
                (Http_notifier.state_after (Http_notifier.add_task tid) s)
                orch tid config task Hs (not_in_discard tid s) Ho Ht) as [E _].
    rewrite E. reflexivity. }
  split; [reflexivity |]. split; [apply Hrearm; exact Hc |].
  intros Hd.
  rewrite trace_run_calls_cons, deliveries_of_app. cbn [Http_notifier.run_call].
  destruct (effects_of_notify_terminal self orch tid config task Hc Hd Ho Ht)
    as [_ Es].
  rewrite Es, (notify_terminal self orch tid config task Hc Hd Ho Ht).
  specialize (Hrearm (Http_notifier.dispatched_add tid self) Hc).
  unfold Http_notifier.effects_of in Hrearm.
  unfold Http_notifier.deliveries_of at 1. cbn [omap list_omap snd].
  rewrite String.eqb_refl. cbn.
  f_equal.
  set (t := snd _) in *.
  clearbody t.
  assert (Hgen : forall (t : Http_notifier.trace),
             map snd t
             = [Http_notifier.TaskStatusCall tid;
                Http_notifier.CreateTask tid config
                  (Http_notifier._build_payload orch tid task)] ->
             Http_notifier.deliveries_of tid t
             = [(config, Http_notifier._build_payload orch tid task)]).
  { clear. intros t Ht.
    destruct t as [|[s1 e1] [|[s2 e2] [|? ?]]]; try discriminate.
    cbn in Ht. injection Ht as -> ->.
    unfold Http_notifier.deliveries_of. cbn. rewrite String.eqb_refl. reflexivity. }
  apply Hgen. exact Hrearm.
Qed.

Lemma add_task_rearms_dispatch_witness :
  Http_notifier.deliveries_of "t1"
    (snd (Http_notifier.run_calls
            [Http_notifier.NotifyTaskSubscribers Examples.orch_done "t1";
             Http_notifier.AddTask "t1";
             Http_notifier.NotifyTaskSubscribers Examples.orch_done "t1"]
            Examples.notifier_registered))
  = [(Examples.config_signed, Examples.payload_done);
     (Examples.config_signed, Examples.payload_done)].
Proof.
  refine (proj2 (proj2 (add_task_rearms_dispatch Examples.notifier_registered
                          Examples.orch_done "t1" Examples.config_signed
                          Examples.task_done _ _ _)) _);
    [reflexivity | reflexivity | reflexivity | apply not_elem_of_empty].
Defined.

(** X9.  The last registration before completion is the one delivered:
    [register_webhook] with a configuration replaces the stored one,
    with [None] it changes nothing (it does not unregister), and it
    never touches the dispatched set; so after registering [c1], then
    [c2], then [None], the completion of the task creates its delivery
    with [c2]. *)
Theorem register_webhook_last_wins
    (self : Http_notifier.HttpNotifier) (orch : Http_notifier.Orchestrator)
    (tid : string) (c1 c2 : Webhook.WebhookConfig) (task : Http_notifier.Task) :
  tid ∉ Http_notifier._dispatched self ->
  Http_notifier.orch_task_status orch tid = inr task ->
  Http_notifier.is_completed task = true ->
  Http_notifier.state_after (Http_notifier.register_webhook tid None) self = self
  /\ (forall c,
       Http_notifier._dispatched
         (Http_notifier.state_after (Http_notifier.register_webhook tid c) self)
       = Http_notifier._dispatched self)
  /\ Http_notifier.effects_of
       (Http_notifier.run_calls
          [Http_notifier.RegisterWebhook tid (Some c1);
           Http_notifier.RegisterWebhook tid (Some c2);
           Http_notifier.RegisterWebhook tid None;
           Http_notifier.NotifyTaskSubscribers orch tid]) self
     = [Http_notifier.TaskStatusCall tid;
        Http_notifier.CreateTask tid c2
          (Http_notifier._build_payload orch tid task)].
Proof.
  intros Hd Ho Ht. split; [reflexivity |]. split; [intros [c|]; reflexivity |].
  rewrite !effects_of_run_calls_cons, effects_of_run_calls_nil.
  cbn [Http_notifier.run_call].
  set (s := Http_notifier.state_after (Http_notifier.register_webhook tid None) _).
  destruct (effects_of_notify_terminal s orch tid c2 task) as [E _];
    [apply lookup_insert_eq | exact Hd | exact Ho | exact Ht |].
  rewrite E. reflexivity.
Qed.

Lemma register_webhook_last_wins_witness :
  Http_notifier.effects_of
    (Http_notifier.run_calls
       [Http_notifier.RegisterWebhook "t1" (Some Examples.config_empty_secret);
        Http_notifier.RegisterWebhook "t1" (Some Examples.config_signed);
        Http_notifier.RegisterWebhook "t1" None;
        Http_notifier.NotifyTaskSubscribers Examples.orch_done "t1"])
    Http_notifier.init
  = [Http_notifier.TaskStatusCall "t1";
     Http_notifier.CreateTask "t1" Examples.config_signed Examples.payload_done].
Proof.
  refine (proj2 (proj2 (register_webhook_last_wins Http_notifier.init
                          Examples.orch_done "t1" Examples.config_empty_secret
                          Examples.config_signed Examples.task_done _ _ _)));
    [apply not_elem_of_empty | reflexivity | reflexivity].
Defined.

Section IsolationMore.
Import Webhook Http_notifier.
Implicit Types (self : HttpNotifier) (tid : string) (orch : Orchestrator).

Lemma view_eq tid self self' :
  view tid self = view tid self'
  <-> _webhook_configs self !! tid = _webhook_configs self' !! tid
      /\ (tid ∈ _dispatched self <-> tid ∈ _dispatched self').
Proof.
  unfold view. split.
  - intros [= Hc Hb]. split; [exact Hc |]. split; intros H.
    + eapply bool_decide_eq_true_1. rewrite <- Hb. apply bool_decide_eq_true_2, H.
    + eapply bool_decide_eq_true_1. rewrite Hb. apply bool_decide_eq_true_2, H.
  - intros [Hc Hb]. f_equal; [exact Hc | apply bool_decide_ext; exact Hb].
Qed.

(** A call about another task id, or about none, leaves [tid] as it is
    and creates no delivery for it. *)
Lemma run_call_frame tid c self :
  about tid c = false ->
  view tid (state_after (run_call c) self) = view tid self
  /\ deliveries_of tid (snd (run_call c self)) = [].
Proof.
  unfold about. intros Ha.
  destruct c as [t'|t'|orch t'| |t' [config|]]; simpl in *;
    try apply String.eqb_neq in Ha;
    try (split; reflexivity).
  - split; [| reflexivity]. apply view_eq. unfold state_after; cbn.
    rewrite elem_of_difference, elem_of_singleton. split; [reflexivity | tauto].
  - split; [| reflexivity]. apply view_eq. unfold state_after; cbn.
    rewrite lookup_delete_ne by congruence.
    rewrite elem_of_difference, elem_of_singleton. split; [reflexivity | tauto].
  - destruct (notify_inv self orch t') as [[Hs Hd] | (config & task & _ & _ & _ & _ & E)].
    + rewrite Hs. split; [reflexivity | apply Hd].
    + unfold state_after. rewrite E. cbn. split.
      * apply view_eq. cbn. rewrite elem_of_union, elem_of_singleton.
        split; [reflexivity | tauto].
      * unfold deliveries_of; cbn.
        destruct (String.eqb_spec tid t'); [congruence | reflexivity].
  - split; [| reflexivity]. apply view_eq. unfold state_after; cbn.
    rewrite lookup_insert_ne by congruence. split; reflexivity.
Qed.

(** What a call about [tid] does to [tid], and the deliveries it creates
    for it, depend on the notifier only through what [tid] is to it. *)
Lemma run_call_own tid c self self' :
  about tid c = true ->
  view tid self = view tid self' ->
  view tid (state_after (run_call c) self) = view tid (state_after (run_call c) self')
  /\ deliveries_of tid (snd (run_call c self))
     = deliveries_of tid (snd (run_call c self')).
Proof.
  unfold about. intros Ha Hv.
  destruct c as [t'|t'|orch t'| |t' [config|]]; simpl in *;
    try discriminate; apply String.eqb_eq in Ha; subst t';
    apply view_eq in Hv as [Hc Hb].
  - split; [| reflexivity]. apply view_eq. unfold state_after; cbn.
    rewrite !elem_of_difference, !elem_of_singleton. split; [exact Hc | tauto].
  - split; [| reflexivity]. apply view_eq. unfold state_after; cbn.
    rewrite !lookup_delete_eq, !elem_of_difference, !elem_of_singleton.
    split; [reflexivity | tauto].
  - destruct (notify_inv self orch tid) as [[Hs Hd] | (config & task & Hcfg & Hnd & Ho & Ht & E)].
    + destruct (notify_inv self' orch tid)
        as [[Hs' Hd'] | (config' & task' & Hcfg' & Hnd' & Ho' & Ht' & E')].
      * rewrite Hs, Hs', Hd, Hd'. split; [apply view_eq; split; assumption | reflexivity].
      * exfalso. rewrite <- Hc in Hcfg'. rewrite <- Hb in Hnd'.
        pose proof (notify_terminal self orch tid config' task' Hcfg' Hnd' Ho' Ht') as E.
        specialize (Hd tid). rewrite E in Hd. unfold deliveries_of in Hd; cbn in Hd.
        rewrite String.eqb_refl in Hd. discriminate.
    + rewrite Hc in Hcfg. rewrite Hb in Hnd.
      pose proof (notify_terminal self' orch tid config task Hcfg Hnd Ho Ht) as E'.
      unfold state_after. rewrite E, E'. cbn. split; [| reflexivity].
      apply view_eq. cbn. rewrite !elem_of_union, !elem_of_singleton.
      split; [exact Hc | tauto].
  - split; [| reflexivity]. apply view_eq. unfold state_after; cbn.
    rewrite !lookup_insert_eq. split; [reflexivity | exact Hb].
  - split; [| reflexivity]. apply view_eq. split; assumption.
Qed.

Lemma run_calls_own tid cs : forall self self',
  view tid self = view tid self' ->
  view tid (state_after (run_calls cs) self)
  = view tid (state_after (run_calls (List.filter (about tid) cs)) self')
  /\ deliveries_of tid (snd (run_calls cs self))
     = deliveries_of tid (snd (run_calls (List.filter (about tid) cs) self')).
Proof.
  induction cs as [|c cs IH]; intros self self' Hv; [split; [exact Hv | reflexivity]|].
  cbn [List.filter]. destruct (about tid c) eqn:Ha.
  - destruct (run_call_own tid c self self' Ha Hv) as [Hv1 Hd1].
    destruct (IH _ _ Hv1) as [Hv2 Hd2].
    rewrite !state_after_run_calls_cons, !trace_run_calls_cons, !deliveries_of_app.
    rewrite Hd1, Hd2. split; [exact Hv2 | reflexivity].
  - destruct (run_call_frame tid c self Ha) as [Hv1 Hd1].
    destruct (IH (state_after (run_call c) self) self') as [Hv2 Hd2];
      [rewrite Hv1; exact Hv |].
    rewrite state_after_run_calls_cons, trace_run_calls_cons, deliveries_of_app.
    rewrite Hd1, Hd2. split; [exact Hv2 | reflexivity].
Qed.

End IsolationMore.

(** X10.  Task ids do not interfere: the deliveries created for a task
    id over a sequence of calls, with their configurations and payloads,
    and what the id is to the notifier afterwards (stored configuration,
    marker), are those of the same sequence with every call about
    another id, and every [notify_queue_positions], left out. *)
Theorem deliveries_depend_on_own_calls
    (self : Http_notifier.HttpNotifier) (tid : string)
    (cs : list Http_notifier.call) :
  Http_notifier.deliveries_of tid (snd (Http_notifier.run_calls cs self))
  = Http_notifier.deliveries_of tid
      (snd (Http_notifier.run_calls
              (List.filter (Http_notifier.about tid) cs) self))
  /\ Http_notifier.view tid
       (Http_notifier.state_after (Http_notifier.run_calls cs) self)
     = Http_notifier.view tid
         (Http_notifier.state_after
            (Http_notifier.run_calls (List.filter (Http_notifier.about tid) cs))
            self).
Proof.
  destruct (run_calls_own tid cs self self eq_refl) as [Hv Hd].
  split; [exact Hd | exact Hv].
Qed.

(** X11.  The notifier does not look at [config.url]: a stored
    configuration whose [url] is unset is dispatched like any other on
    completion, and every request of its delivery sequence (there is at
    least one) goes to the string [None], the [str()] of the unset
    URL. *)
Theorem unset_url_still_dispatched
    (json_dumps : Http_notifier.Payload -> string)
    (hmac_sha256_hexdigest : string -> string -> string)
    (self : Http_notifier.HttpNotifier) (orch : Http_notifier.Orchestrator)
    (tid : string) (config : Webhook.WebhookConfig) (task : Http_notifier.Task)
    (time_time : Q) (server : nat -> Http_notifier.outcome) :
  Webhook.url config = None ->
  Http_notifier._webhook_configs self !! tid = Some config ->
  tid ∉ Http_notifier._dispatched self ->
  Http_notifier.orch_task_status orch tid = inr task ->
  Http_notifier.is_completed task = true ->
  let payload := Http_notifier._build_payload orch tid task in
  let t :=
    Http_notifier._dispatch json_dumps hmac_sha256_hexdigest time_time server tid
      config payload in
  Http_notifier.effects_of (Http_notifier.notify_task_subscribers orch tid) self
  = [Http_notifier.TaskStatusCall tid; Http_notifier.CreateTask tid config payload]
  /\ Http_notifier.requests_of t <> []
  /\ Forall (fun r => Http_notifier.req_url r = "None") (Http_notifier.requests_of t).
Proof.
  intros Hurl Hc Hd Ho Ht payload t.
  split; [apply (effects_of_notify_terminal self orch tid config task); assumption |].
  split.
  - destruct (dispatch_first_request json_dumps hmac_sha256_hexdigest
                time_time server tid config payload) as [rest E].
    subst t. rewrite E. discriminate.
  - eapply Forall_impl; [apply dispatch_requests |].
    intros r ->. cbn. rewrite Hurl. reflexivity.
Qed.

Lemma unset_url_still_dispatched_witness :
  Forall (fun r => Http_notifier.req_url r = "None")
    (Http_notifier.requests_of
       (Http_notifier._dispatch Examples.json_dumps_stub Examples.hmac_stub
          Examples.clock Examples.always_500 "t1" Webhook.default_config
          Examples.payload_done)).
Proof.
  refine (proj2 (proj2 (unset_url_still_dispatched Examples.json_dumps_stub
                          Examples.hmac_stub
                          (Http_notifier.mkHttpNotifier
                             {[ "t1" := Webhook.default_config ]} ∅)
                          Examples.orch_done "t1" Webhook.default_config
                          Examples.task_done Examples.clock Examples.always_500
                          _ _ _ _ _)));
    [reflexivity | reflexivity | apply not_elem_of_empty | reflexivity | reflexivity].
Defined.

(** X12.  In the payload, [task_id], [status], [type] and
    [processing_meta] come from the task object alone (the hook's task id
    argument plays no part in them), while [result_locator] is looked up
    under the hook's task id: it is a locator exactly when the
    orchestrator has a [_task_result_keys] dictionary with an entry for
    that id, and [None] when the attribute is missing, is not a
    dictionary, or has no such key. *)
Theorem build_payload_fields
    (orch : Http_notifier.Orchestrator) (tid : string) (task : Http_notifier.Task) :
  (forall orch' tid',
      let p := Http_notifier._build_payload orch tid task in
      let p' := Http_notifier._build_payload orch' tid' task in
      Http_notifier.p_task_id p = Http_notifier.task_id task
      /\ Http_notifier.p_task_id p' = Http_notifier.p_task_id p
      /\ Http_notifier.p_status p' = Http_notifier.p_status p
      /\ Http_notifier.p_type p' = Http_notifier.p_type p
      /\ Http_notifier.p_processing_meta p' = Http_notifier.p_processing_meta p)
  /\ (forall loc,
        Http_notifier.p_result_locator (Http_notifier._build_payload orch tid task)
        = Some loc
        <-> exists d, Http_notifier._task_result_keys orch = Http_notifier.AttrDict d
                      /\ d !! tid = Some loc).
Proof.
  split.
  - intros orch' tid'. cbn. repeat split; reflexivity.
  - intros loc. cbn. destruct (Http_notifier._task_result_keys orch) as [|d|].
    + rewrite lookup_empty. split; [discriminate | intros (d & H & _); discriminate].
    + split; [eauto | intros (d' & [= <-] & H); exact H].
    + split; [discriminate | intros (d & H & _); discriminate].
Qed.

(* ===================================================================== *)
(** * Further properties of the delivery sequence                         *)
(* ===================================================================== *)

Section LoopMore.
Import Webhook Http_notifier.

Variable tid : string.
Variable request : Request.
Variable signature_header : option string.
Variable attempts : Z.
Variable backoff : Q.

Local Abbreviation loop_of server :=
  (attempt_loop server tid request signature_header attempts backoff).
Local Abbreviation pause := (backoff_sleep attempts backoff).

Lemma sleeps_of_app (t1 t2 : list io_event) :
  sleeps_of (t1 ++ t2) = sleeps_of t1 ++ sleeps_of t2.
Proof. apply omap_app. Qed.

(** The three shapes of a backoff. *)
Lemma backoff_sleep_cases attempt rest :
  (pause attempt rest = rest /\ Z.of_nat attempt >= attempts - 1)
  \/ (pause attempt rest = Sleep (backoff * inject_Z (2 ^ Z.of_nat attempt)) :: rest
      /\ Z.of_nat attempt < attempts - 1 /\ (attempt < 1024)%nat)
  \/ (pause attempt rest = [Uncaught overflow_error]
      /\ Z.of_nat attempt < attempts - 1 /\ (1024 <= attempt)%nat).
Proof.
  unfold backoff_sleep, float_of_pow2.
  destruct (Z.ltb_spec (Z.of_nat attempt) (attempts - 1)); [| left; split; [reflexivity | lia]].
  destruct (Z.ltb_spec (Z.of_nat attempt) 1024).
  - right; left. repeat split; [assumption | lia].
  - right; right. repeat split; [assumption | lia].
Qed.

(** The shape of one iteration. *)
Lemma loop_step server remaining attempt :
  (attempt_fails (server attempt) = false
   /\ exists msg, loop_of server (S remaining) attempt
                  = [HttpRequest request; Log INFO msg])
  \/ (attempt_fails (server attempt) = true
      /\ exists lvl msg,
           loop_of server (S remaining) attempt
           = HttpRequest request :: Log lvl msg
             :: pause attempt (loop_of server remaining (S attempt))).
Proof.
  simpl attempt_loop. destruct (server attempt) as [code text|exc]; simpl.
  - destruct (is_2xx code); [left | right]; split; eauto.
  - right. split; eauto.
Qed.

(** Never more requests than iterations. *)
Lemma loop_requests_bound server remaining : forall attempt,
  (length (requests_of (loop_of server remaining attempt)) <= remaining)%nat.
Proof.
  induction remaining as [|remaining IH]; intros attempt; [simpl; lia|].
  destruct (loop_step server remaining attempt)
    as [[_ [msg ->]] | [_ (lvl & msg & ->)]]; [simpl; lia|].
  specialize (IH (S attempt)).
  destruct (backoff_sleep_cases attempt (loop_of server remaining (S attempt)))
    as [[-> _] | [[-> _] | [-> _]]]; cbn [requests_of omap list_omap length] in *;
    fold (requests_of (loop_of server remaining (S attempt))); lia.
Qed.

(** Every sleep is followed by another request: fewer sleeps than
    requests, when the loop counts its iterations right. *)
Lemma loop_sleeps_lt_requests server remaining : forall attempt,
  Z.of_nat attempt + Z.of_nat (S remaining) = attempts ->
  (S (length (sleeps_of (loop_of server (S remaining) attempt)))
   <= length (requests_of (loop_of server (S remaining) attempt)))%nat.
Proof.
  induction remaining as [|remaining IH]; intros attempt Hn.
  - destruct (loop_step server 0 attempt)
      as [[_ [msg ->]] | [_ (lvl & msg & ->)]]; [simpl; lia|].
    destruct (backoff_sleep_cases attempt (loop_of server 0 (S attempt)))
      as [[-> _] | [[_ [H _]] | [_ [H _]]]]; [simpl; lia | lia | lia].
  - destruct (loop_step server (S remaining) attempt)
      as [[_ [msg ->]] | [_ (lvl & msg & ->)]]; [simpl; lia|].
    specialize (IH (S attempt) ltac:(lia)).
    destruct (backoff_sleep_cases attempt (loop_of server (S remaining) (S attempt)))
      as [[_ H] | [[-> _] | [-> _]]]; [lia | | simpl; lia].
    cbn [requests_of sleeps_of omap list_omap length] in *.
    fold (requests_of (loop_of server (S remaining) (S attempt))).
    fold (sleeps_of (loop_of server (S remaining) (S attempt))).
    lia.
Qed.

(** The loop runs iteration by iteration as [paced] says, when it counts
    its iterations right. *)
Lemma loop_paced server remaining : forall attempt,
  Z.of_nat attempt + Z.of_nat (S remaining) = attempts ->
  paced (loop_of server (S remaining) attempt).
Proof.
  induction remaining as [|remaining IH]; intros attempt Hn.
  - simpl attempt_loop.
    destruct (backoff_sleep_cases attempt [exhausted_record tid signature_header])
      as [[-> _] | [[_ [H _]] | [_ [H _]]]]; [| lia | lia].
    destruct (server attempt) as [code text|exc]; [destruct (is_2xx code)|];
      constructor; discriminate.
  - specialize (IH (S attempt) ltac:(lia)).
    change (loop_of server (S (S remaining)) attempt)
      with (HttpRequest request ::
            match server attempt with
            | Response status_code text =>
                if is_2xx status_code
                then [Log INFO ("Webhook for task " ++ tid
                                ++ " delivered with status "
                                ++ py_str_int status_code)]
                else
                  Log WARNING ("Webhook for task " ++ tid
                               ++ " failed with status "
                               ++ py_str_int status_code ++ ": " ++ text)
                  :: pause attempt (loop_of server (S remaining) (S attempt))
            | Raised exc =>
                Log ERROR ("Webhook attempt for task " ++ tid ++ " failed: " ++ exc)
                :: pause attempt (loop_of server (S remaining) (S attempt))
            end).
    destruct (backoff_sleep_cases attempt (loop_of server (S remaining) (S attempt)))
      as [[_ H] | [[-> _] | [-> _]]]; [lia | |];
      (destruct (server attempt) as [code text|exc]; [destruct (is_2xx code)|]);
      constructor; (discriminate || exact IH).
Qed.

Lemma paced_starts_with_request (t : list io_event) :
  paced t -> exists r, t !! 0%nat = Some (HttpRequest r).
Proof. intros H. destruct H; eexists; reflexivity. Qed.

(** In such a sequence a sleep comes directly after a failure record and
    directly before a request. *)
Lemma paced_sleep_position (t : list io_event) :
  paced t ->
  forall i q, t !! i = Some (Sleep q) ->
    (exists r, t !! S i = Some (HttpRequest r))
    /\ (exists j lvl msg,
          i = S j /\ t !! j = Some (Log lvl msg) /\ lvl <> INFO).
Proof.
  induction 1 as [r msg | r lvl msg msg' Hl | r lvl msg exc Hl
                 | r lvl msg q' t Hl Ht IH];
    intros [|[|[|i]]] q Hi; simpl in Hi; try discriminate Hi.
  - split; [exact (paced_starts_with_request t Ht)|].
    exists 1%nat, lvl, msg. repeat split. exact Hl.
  - destruct (IH i q Hi) as [Hnext (j & lvl' & msg' & -> & Hj & Hl')].
    split; [exact Hnext|].
    exists (S (S (S j))), lvl', msg'. repeat split; assumption.
Qed.

(** The record of a delivery is the last event. *)
Lemma paced_delivered_last (t : list io_event) :
  paced t ->
  forall i msg, t !! i = Some (Log INFO msg) -> S i = length t.
Proof.
  induction 1 as [r msg | r lvl msg msg' Hl | r lvl msg exc Hl
                 | r lvl msg q' t Hl Ht IH];
    intros [|[|[|i]]] m Hi; simpl in Hi; try discriminate Hi;
    try reflexivity;
    try (injection Hi as -> _; contradiction).
  simpl. rewrite <- (IH i m Hi). reflexivity.
Qed.

(** Every sleep lasts [backoff] times a power of two. *)
Lemma loop_sleeps_shape server remaining : forall attempt,
  Forall (fun q => exists a, q = (backoff * inject_Z (2 ^ Z.of_nat a))%Q)
         (sleeps_of (loop_of server remaining attempt)).
Proof.
  induction remaining as [|remaining IH]; intros attempt; [constructor|].
  destruct (loop_step server remaining attempt)
    as [[_ [msg ->]] | [_ (lvl & msg & ->)]]; [constructor|].
  specialize (IH (S attempt)).
  destruct (backoff_sleep_cases attempt (loop_of server remaining (S attempt)))
    as [[-> _] | [[-> _] | [-> _]]]; [exact IH | | constructor].
  constructor; [eauto | exact IH].
Qed.

Lemma network_backoff_sleep attempt rest rest' :
  network_events rest = network_events rest' ->
  network_events (pause attempt rest) = network_events (pause attempt rest').
Proof.
  intros H. unfold backoff_sleep.
  destruct (_ <? _)%Z; [| exact H].
  destruct (float_of_pow2 attempt); [| reflexivity].
  cbn [network_events omap list_omap]. f_equal. exact H.
Qed.

(** The requests and sleeps depend on the endpoint only through which
    attempts fail. *)
Lemma loop_outcome_insensitive server1 server2 remaining : forall attempt,
  (forall i, attempt_fails (server1 i) = attempt_fails (server2 i)) ->
  network_events (loop_of server1 remaining attempt)
  = network_events (loop_of server2 remaining attempt).
Proof.
  induction remaining as [|remaining IH]; intros attempt Hsame; [reflexivity|].
  specialize (IH (S attempt) Hsame).
  destruct (attempt_fails (server1 attempt)) eqn:E1.
  - rewrite (loop_failed_attempt server1) by exact E1.
    rewrite (loop_failed_attempt server2) by (rewrite <- Hsame; exact E1).
    f_equal. apply network_backoff_sleep. exact IH.
  - rewrite (loop_successful_attempt server1) by exact E1.
    rewrite (loop_successful_attempt server2) by (rewrite <- Hsame; exact E1).
    reflexivity.
Qed.

End LoopMore.

Section LastRecord.
Import Webhook Http_notifier.

Variable server : nat -> outcome.
Variable tid : string.
Variable request : Request.
Variable signature_header : option string.
Variable attempts : Z.
Variable backoff : Q.

Local Abbreviation loop :=
  (attempt_loop server tid request signature_header attempts backoff).

(** When every attempt fails and every sleep can be computed, the
    sequence ends with the record of exhaustion. *)
Lemma loop_all_fail_last remaining : forall attempt,
  Z.of_nat attempt + Z.of_nat (S remaining) = attempts ->
  (attempt + remaining <= 1024)%nat ->
  (forall i, (attempt <= i)%nat -> attempt_fails (server i) = true) ->
  last (loop (S remaining) attempt)
  = Some (exhausted_record tid signature_header).
Proof.
  induction remaining as [|remaining IH]; intros attempt Hn Hsmall Hfail.
  - destruct (loop_step tid request signature_header attempts backoff server 0 attempt)
      as [[E _] | [_ (lvl & msg & ->)]]; [rewrite Hfail in E by lia; discriminate|].
    rewrite backoff_sleep_last by lia. reflexivity.
  - destruct (loop_step tid request signature_header attempts backoff server
                (S remaining) attempt)
      as [[E _] | [_ (lvl & msg & ->)]]; [rewrite Hfail in E by lia; discriminate|].
    rewrite (backoff_sleep_between _ _ attempt remaining) by lia.
    rewrite !last_cons, IH; [reflexivity | lia | lia | intros i Hi; apply Hfail; lia].
Qed.

(** When the first 2xx answer comes to request [attempt + k], the
    sequence ends with the record of that delivery. *)
Lemma loop_success_last k : forall remaining attempt code text,
  (k <= remaining)%nat ->
  Z.of_nat attempt + Z.of_nat (S remaining) = attempts ->
  (attempt + k <= 1024)%nat ->
  server (attempt + k) = Response code text ->
  is_2xx code = true ->
  (forall i, (attempt <= i < attempt + k)%nat -> attempt_fails (server i) = true) ->
  last (loop (S remaining) attempt)
  = Some (Log INFO ("Webhook for task " ++ tid ++ " delivered with status "
                    ++ py_str_int code)).
Proof.
  induction k as [|k IH]; intros remaining attempt code text Hk Hn Hsmall Hok H2xx Hfail.
  - rewrite Nat.add_0_r in Hok. simpl attempt_loop. rewrite Hok, H2xx. reflexivity.
  - destruct remaining as [|remaining]; [lia|].
    destruct (loop_step tid request signature_header attempts backoff server
                (S remaining) attempt)
      as [[E _] | [_ (lvl & msg & ->)]]; [rewrite Hfail in E by lia; discriminate|].
    rewrite (backoff_sleep_between _ _ attempt remaining) by lia.
    rewrite !last_cons, (IH remaining (S attempt) code text);
      [reflexivity | lia | lia | lia | | exact H2xx | intros i Hi; apply Hfail; lia].
    replace (S attempt + k)%nat with (attempt + S k)%nat by lia. exact Hok.
Qed.

End LastRecord.

(** X13.  For every configuration (whatever its [max_retries], negative
    values included) and every endpoint, a delivery sequence makes at
    least one request and never more than [max(max_retries, 0) + 1]. *)
Theorem dispatch_attempts_bounded
    (json_dumps : Http_notifier.Payload -> string)
    (hmac_sha256_hexdigest : string -> string -> string)
    (time_time : Q) (server : nat -> Http_notifier.outcome) (tid : string)
    (config : Webhook.WebhookConfig) (payload : Http_notifier.Payload) :
  let t :=
    Http_notifier._dispatch json_dumps hmac_sha256_hexdigest time_time server tid
      config payload in
  (1 <= length (Http_notifier.requests_of t))%nat
  /\ Z.of_nat (length (Http_notifier.requests_of t))
     <= Z.max (Webhook.max_retries config) 0 + 1.
Proof.
  intros t. split.
  - destruct (dispatch_first_request json_dumps hmac_sha256_hexdigest
                time_time server tid config payload) as [rest E].
    subst t. rewrite E. simpl. lia.
  - subst t. unfold Http_notifier._dispatch; cbv zeta.
    match goal with
    | |- Z.of_nat (length (Http_notifier.requests_of
                             (Http_notifier.attempt_loop ?s ?i ?r ?g ?a ?b ?n ?k))) <= _ =>
        pose proof (loop_requests_bound i r g a b s n k) as H
    end.
    lia.
Qed.

(** X14.  With [max_retries] zero or negative the delivery sequence is a
    single request, whatever the endpoint answers: no sleep and no
    second attempt. *)
Theorem dispatch_without_retries
    (json_dumps : Http_notifier.Payload -> string)
    (hmac_sha256_hexdigest : string -> string -> string)
    (time_time : Q) (server : nat -> Http_notifier.outcome) (tid : string)
    (config : Webhook.WebhookConfig) (payload : Http_notifier.Payload) :
  Webhook.max_retries config <= 0 ->
  Http_notifier.network_events
    (Http_notifier._dispatch json_dumps hmac_sha256_hexdigest time_time server tid
       config payload)
  = [Http_notifier.HttpRequest
       (Http_notifier.request_of json_dumps hmac_sha256_hexdigest time_time
          config payload)].
Proof.
  intros Hn. unfold Http_notifier._dispatch; cbv zeta.
  rewrite Z.max_r by lia. change (Z.to_nat (0 + 1)) with 1%nat.
  destruct (Http_notifier.attempt_fails (server 0%nat)) eqn:E.
  - rewrite loop_failed_attempt by exact E.
    rewrite backoff_sleep_last by reflexivity. reflexivity.
  - rewrite loop_successful_attempt by exact E. reflexivity.
Qed.

Lemma dispatch_without_retries_witness :
  Http_notifier.network_events
    (Http_notifier._dispatch Examples.json_dumps_stub Examples.hmac_stub
       Examples.clock Examples.always_500 "t1" Webhook.default_config
       Examples.payload_done)
  = [Http_notifier.HttpRequest
       (Http_notifier.request_of Examples.json_dumps_stub Examples.hmac_stub
          Examples.clock Webhook.default_config Examples.payload_done)].
Proof.
  apply (dispatch_without_retries Examples.json_dumps_stub Examples.hmac_stub
           Examples.clock Examples.always_500 "t1" Webhook.default_config
           Examples.payload_done).
  simpl. lia.
Defined.

(** X15.  Every sleep of a delivery sequence lasts
    [max(backoff_factor, 0.0)] times a power of two; with [backoff_factor]
    zero or negative, every sleep lasts zero seconds. *)
Theorem dispatch_sleeps_clamped
    (json_dumps : Http_notifier.Payload -> string)
    (hmac_sha256_hexdigest : string -> string -> string)
    (time_time : Q) (server : nat -> Http_notifier.outcome) (tid : string)
    (config : Webhook.WebhookConfig) (payload : Http_notifier.Payload) :
  let t :=
    Http_notifier._dispatch json_dumps hmac_sha256_hexdigest time_time server tid
      config payload in
  Forall (fun q => exists a,
            q = (Http_notifier.py_max_float (Webhook.backoff_factor config) 0
                 * inject_Z (2 ^ Z.of_nat a))%Q)
         (Http_notifier.sleeps_of t)
  /\ ((Webhook.backoff_factor config <= 0)%Q ->
      Forall (fun q => (q == 0)%Q) (Http_notifier.sleeps_of t)).
Proof.
  intros t.
  assert (H : Forall (fun q => exists a,
                        q = (Http_notifier.py_max_float (Webhook.backoff_factor config) 0
                             * inject_Z (2 ^ Z.of_nat a))%Q)
                     (Http_notifier.sleeps_of t))
    by (subst t; unfold Http_notifier._dispatch; cbv zeta; apply loop_sleeps_shape).
  split; [exact H |].
  intros Hb. eapply Forall_impl; [exact H |].
  intros q [a ->].
  assert (Hz : (Http_notifier.py_max_float (Webhook.backoff_factor config) 0 == 0)%Q).
  { unfold Http_notifier.py_max_float.
    destruct (Qlt_le_dec (Webhook.backoff_factor config) 0) as [_ | Hge];
      [reflexivity | apply Qle_antisym; assumption]. }
  rewrite Hz. apply Qmult_0_l.
Qed.

Lemma dispatch_sleeps_clamped_witness :
  Forall (fun q => (q == 0)%Q)
    (Http_notifier.sleeps_of
       (Http_notifier._dispatch Examples.json_dumps_stub Examples.hmac_stub
          Examples.clock Examples.always_500 "t1" Examples.config_negative_backoff
          Examples.payload_done)).
Proof.
  apply (proj2 (dispatch_sleeps_clamped Examples.json_dumps_stub Examples.hmac_stub
                  Examples.clock Examples.always_500 "t1"
                  Examples.config_negative_backoff Examples.payload_done)).
  simpl. discriminate.
Defined.

(** X16.  In every delivery sequence a sleep stands between a failed
    attempt and the next request: the event directly before a sleep is
    the record of a failure (a warning or an error, never the record of a
    delivery), and the event directly after it is a request, so the
    sequence never sleeps after its last attempt; the record of a
    delivery is the last event, so nothing, and no sleep, follows a
    success; and the sleeps are fewer than the requests. *)
Theorem dispatch_sleeps_between_requests
    (json_dumps : Http_notifier.Payload -> string)
    (hmac_sha256_hexdigest : string -> string -> string)
    (time_time : Q) (server : nat -> Http_notifier.outcome) (tid : string)
    (config : Webhook.WebhookConfig) (payload : Http_notifier.Payload) :
  let t :=
    Http_notifier._dispatch json_dumps hmac_sha256_hexdigest time_time server tid
      config payload in
  (forall i q,
      t !! i = Some (Http_notifier.Sleep q) ->
      (exists r, t !! S i = Some (Http_notifier.HttpRequest r))
      /\ (exists j lvl msg,
            i = S j
            /\ t !! j = Some (Http_notifier.Log lvl msg)
            /\ lvl <> Http_notifier.INFO))
  /\ (forall i msg,
        t !! i = Some (Http_notifier.Log Http_notifier.INFO msg) ->
        S i = length t)
  /\ (length (Http_notifier.sleeps_of t) < length (Http_notifier.requests_of t))%nat.
Proof.
  intros t. subst t. unfold Http_notifier._dispatch; cbv zeta.
  destruct (attempts_positive (Webhook.max_retries config)) as [r Hr].
  rewrite Hr.
  split; [| split].
  - apply paced_sleep_position. apply loop_paced. lia.
  - apply paced_delivered_last. apply loop_paced. lia.
  - apply loop_sleeps_lt_requests. lia.
Qed.

Lemma dispatch_sleeps_between_requests_witness :
  let t :=
    Http_notifier._dispatch Examples.json_dumps_stub Examples.hmac_stub
      Examples.clock Examples.always_500 "t1" Examples.config_signed
      Examples.payload_done in
  t !! 2%nat = Some (Http_notifier.Sleep 1)
  /\ (exists r, t !! 3%nat = Some (Http_notifier.HttpRequest r))
  /\ (exists j lvl msg,
        2%nat = S j
        /\ t !! j = Some (Http_notifier.Log lvl msg)
        /\ lvl <> Http_notifier.INFO).
Proof.
  cbv zeta. split; [reflexivity|].
  exact (proj1 (dispatch_sleeps_between_requests
                  Examples.json_dumps_stub Examples.hmac_stub
                  Examples.clock Examples.always_500 "t1" Examples.config_signed
                  Examples.payload_done)
           2%nat 1%Q eq_refl).
Defined.

(** X17.  A request that raises and a response with a status outside
    [200, 300) count alike: two endpoints that fail on the same attempts
    (whatever the statuses, texts and exceptions) get the same requests
    and sleeps. *)
Theorem dispatch_failure_kinds_alike
    (json_dumps : Http_notifier.Payload -> string)
    (hmac_sha256_hexdigest : string -> string -> string)
    (time_time : Q) (server1 server2 : nat -> Http_notifier.outcome) (tid : string)
    (config : Webhook.WebhookConfig) (payload : Http_notifier.Payload) :
  (forall i, Http_notifier.attempt_fails (server1 i)
             = Http_notifier.attempt_fails (server2 i)) ->
  Http_notifier.network_events
    (Http_notifier._dispatch json_dumps hmac_sha256_hexdigest time_time server1
       tid config payload)
  = Http_notifier.network_events
      (Http_notifier._dispatch json_dumps hmac_sha256_hexdigest time_time server2
         tid config payload).
Proof.
  intros Hsame. unfold Http_notifier._dispatch; cbv zeta.
  apply loop_outcome_insensitive. exact Hsame.
Qed.

Lemma dispatch_failure_kinds_alike_witness :
  Http_notifier.network_events
    (Http_notifier._dispatch Examples.json_dumps_stub Examples.hmac_stub
       Examples.clock Examples.always_500 "t1" Examples.config_signed
       Examples.payload_done)
  = Http_notifier.network_events
      (Http_notifier._dispatch Examples.json_dumps_stub Examples.hmac_stub
         Examples.clock Examples.always_timeout "t1" Examples.config_signed
         Examples.payload_done).
Proof.
  apply dispatch_failure_kinds_alike. intros i. reflexivity.
Defined.

(** X18.  How a delivery sequence ends (for up to 1024 retries).  When
    every attempt fails, its last event is the error record
    [Exhausted webhook retries for task ... (signature=...)], which
    carries the signature digest when one was computed and [<none>]
    otherwise; when an attempt gets a 2xx answer, its last event is the
    info record of that delivery with the status code, and no record of
    exhaustion follows. *)
Theorem dispatch_final_record
    (json_dumps : Http_notifier.Payload -> string)
    (hmac_sha256_hexdigest : string -> string -> string)
    (time_time : Q) (server : nat -> Http_notifier.outcome) (tid : string)
    (config : Webhook.WebhookConfig) (payload : Http_notifier.Payload) :
  0 <= Webhook.max_retries config <= 1024 ->
  let T := Http_notifier.timestamp_of time_time in
  let B := Http_notifier.body_of json_dumps payload in
  let t :=
    Http_notifier._dispatch json_dumps hmac_sha256_hexdigest time_time server tid
      config payload in
  (Http_notifier.never_2xx server ->
     last t
     = Some (Http_notifier.Log Http_notifier.ERROR
               ("Exhausted webhook retries for task " ++ tid ++ " (signature="
                ++ match Http_notifier.truthy_secret
                           (Http_notifier.signature_of hmac_sha256_hexdigest
                              config T B) with
                   | Some digest => digest
                   | None => "<none>"
                   end ++ ")"))
     /\ (Http_notifier.truthy_secret (Webhook.secret config) = None ->
         last t
         = Some (Http_notifier.Log Http_notifier.ERROR
                   ("Exhausted webhook retries for task " ++ tid
                    ++ " (signature=<none>)"))))
  /\ (forall k code text,
        (k <= Z.to_nat (Webhook.max_retries config))%nat ->
        Http_notifier.first_2xx_at server k ->
        server k = Http_notifier.Response code text ->
        last t
        = Some (Http_notifier.Log Http_notifier.INFO
                  ("Webhook for task " ++ tid ++ " delivered with status "
                   ++ Http_notifier.py_str_int code))).
Proof.
  intros Hn T B t. split.
  - intros Hs.
    assert (E : last t
                = Some (Http_notifier.exhausted_record tid
                          (Http_notifier.signature_of hmac_sha256_hexdigest
                             config T B))).
    { subst t. unfold Http_notifier._dispatch; cbv zeta.
      rewrite attempts_of_valid by lia. apply loop_all_fail_last.
      - rewrite Z.max_l by lia. lia.
      - lia.
      - intros i _. apply Hs. }
    split; [exact E |].
    intros Hnone. rewrite E. unfold Http_notifier.exhausted_record,
      Http_notifier.signature_of. rewrite Hnone. reflexivity.
  - intros k code text Hk [Hok Hbefore] Hresp.
    subst t. unfold Http_notifier._dispatch; cbv zeta.
    rewrite attempts_of_valid by lia.
    apply (loop_success_last _ _ _ _ _ _ k _ 0%nat code text).
    + exact Hk.
    + rewrite Z.max_l by lia. lia.
    + lia.
    + exact Hresp.
    + rewrite Hresp in Hok. simpl in Hok. apply negb_false_iff in Hok. exact Hok.
    + intros i Hi. apply Hbefore. lia.
Qed.

Lemma dispatch_final_record_witness :
  last (Http_notifier._dispatch Examples.json_dumps_stub Examples.hmac_stub
          Examples.clock Examples.always_500 "t1" Examples.config_signed
          Examples.payload_done)
  = Some (Http_notifier.Log Http_notifier.ERROR
            "Exhausted webhook retries for task t1 (signature=hmac-sha256(abc, 1700000000.{task_id: t1, status: success}))").
Proof.
  refine (proj1 (proj1 (dispatch_final_record Examples.json_dumps_stub
                          Examples.hmac_stub Examples.clock Examples.always_500
                          "t1" Examples.config_signed Examples.payload_done _) _)).
  - simpl. lia.
  - intros i. reflexivity.
Defined.

(* ===================================================================== *)
(** * Further properties of the composer                                  *)
(* ===================================================================== *)

Section ComposerFacts.
Import Composer.

Lemma websocket_notifier_skip l1 l2 :
  Forall not_websocket l1 -> websocket_notifier (l1 ++ l2) = websocket_notifier l2.
Proof.
  induction 1 as [|b l1 Hb _ IH]; [reflexivity|].
  destruct b; [exact IH | contradiction | exact IH].
Qed.

Lemma websocket_notifier_split ns subs :
  websocket_notifier ns = Some subs ->
  exists l1 l2, ns = l1 ++ Websocket subs :: l2 /\ Forall not_websocket l1.
Proof.
  induction ns as [|b ns IH]; [discriminate|].
  destruct b as [n|s|]; simpl.
  - intros H. destruct (IH H) as (l1 & l2 & -> & Hl1).
    exists (Http n :: l1), l2. split; [reflexivity | constructor; [exact I | exact Hl1]].
  - intros [= ->]. exists [], ns. split; [reflexivity | constructor].
  - intros H. destruct (IH H) as (l1 & l2 & -> & Hl1).
    exists (Other :: l1), l2. split; [reflexivity | constructor; [exact I | exact Hl1]].
Qed.

Lemma websocket_notifier_none ns :
  websocket_notifier ns = None <-> Forall not_websocket ns.
Proof.
  induction ns as [|b ns IH]; [split; [constructor | reflexivity]|].
  destruct b as [n|s|]; simpl.
  - rewrite IH. split; [intros H; constructor; [exact I | exact H] | intros H; inversion H; assumption].
  - split; [discriminate | intros H; inversion H; contradiction].
  - rewrite IH. split; [intros H; constructor; [exact I | exact H] | intros H; inversion H; assumption].
Qed.

End ComposerFacts.

(** X19.  [MultiNotifier.register_webhook] reaches the held
    [HttpNotifier]s and nothing else: each of them gets the call (so,
    for a configuration, stores it under the task id), the other held
    notifiers, the positions of all of them and the web-socket notifier
    the composer exposes are unchanged; when the composer holds no
    [HttpNotifier],
    or the configuration is [None], the call changes nothing. *)
Theorem composer_register_webhook_routing
    (notifiers : list Composer.backend) (tid : string)
    (config : option Webhook.WebhookConfig) :
  let notifiers' := Composer.register_webhook notifiers tid config in
  map Composer.is_http notifiers' = map Composer.is_http notifiers
  /\ length notifiers' = length notifiers
  /\ Composer.http_notifiers notifiers'
     = map (Http_notifier.state_after (Http_notifier.register_webhook tid config))
           (Composer.http_notifiers notifiers)
  /\ (forall c, config = Some c ->
        Forall (fun n => Http_notifier._webhook_configs n !! tid = Some c)
               (Composer.http_notifiers notifiers'))
  /\ List.filter (fun b => negb (Composer.is_http b)) notifiers'
     = List.filter (fun b => negb (Composer.is_http b)) notifiers
  /\ Composer.websocket_notifier notifiers' = Composer.websocket_notifier notifiers
  /\ (Composer.http_notifiers notifiers = [] -> notifiers' = notifiers)
  /\ (config = None -> notifiers' = notifiers).
Proof.
  cbv zeta. split.
  { unfold Composer.register_webhook. rewrite map_map.
    apply map_ext. intros [n|subs|]; reflexivity. }
  induction notifiers as [|b ns IH].
  - repeat split; try reflexivity. intros c _. constructor.
  - destruct IH as (Hlen & Hhttp & Hcfg & Hrest & Hws & Hnone & Hnull).
    destruct b as [n|s|]; cbn.
    + split; [f_equal; exact Hlen |].
      split.
      { unfold Composer.http_notifiers in *. cbn. f_equal. exact Hhttp. }
      split.
      { intros c ->. constructor; [apply lookup_insert_eq | apply Hcfg; reflexivity]. }
      split; [exact Hrest |]. split; [exact Hws |].
      split; [discriminate |].
      intros ->. f_equal. apply Hnull. reflexivity.
    + split; [f_equal; exact Hlen |]. split; [exact Hhttp |].
      split; [exact Hcfg |]. split; [f_equal; exact Hrest |].
      split; [reflexivity |].
      split; [intros H; f_equal; apply Hnone; exact H
             | intros H; f_equal; apply Hnull; exact H].
    + split; [f_equal; exact Hlen |]. split; [exact Hhttp |].
      split; [exact Hcfg |]. split; [f_equal; exact Hrest |].
      split; [exact Hws |].
      split; [intros H; f_equal; apply Hnone; exact H
             | intros H; f_equal; apply Hnull; exact H].
Qed.

Lemma composer_register_webhook_routing_witness :
  Forall (fun n => Http_notifier._webhook_configs n !! "t1"
                   = Some Examples.config_signed)
         (Composer.http_notifiers
            (Composer.register_webhook Examples.held_notifiers "t1"
               (Some Examples.config_signed))).
Proof.
  apply (proj1 (proj2 (proj2 (proj2 (composer_register_webhook_routing
                                       Examples.held_notifiers "t1"
                                       (Some Examples.config_signed)))))).
  reflexivity.
Defined.

(** X20.  The web-socket notifier the composer exposes is the first
    [WebsocketNotifier] among the held notifiers, in their order; there
    is none exactly when no held notifier is one, and the composer's
    [task_subscribers] is then an empty dictionary of its own. *)
Theorem composer_first_websocket_notifier (notifiers : list Composer.backend) :
  (forall subs,
      Composer.websocket_notifier notifiers = Some subs
      <-> exists l1 l2,
            notifiers = l1 ++ Composer.Websocket subs :: l2
            /\ Forall Composer.not_websocket l1)
  /\ (Composer.websocket_notifier notifiers = None
      <-> Forall Composer.not_websocket notifiers)
  /\ (forall subs, Composer.websocket_notifier notifiers = Some subs ->
                   Composer.task_subscribers notifiers = subs)
  /\ (Forall Composer.not_websocket notifiers ->
      Composer.task_subscribers notifiers = ∅).
Proof.
  split; [| split; [| split]].
  - intros subs. split; [apply websocket_notifier_split |].
    intros (l1 & l2 & -> & Hl1). rewrite websocket_notifier_skip by exact Hl1.
    reflexivity.
  - apply websocket_notifier_none.
  - intros subs H. unfold Composer.task_subscribers. rewrite H. reflexivity.
  - intros H. apply websocket_notifier_none in H.
    unfold Composer.task_subscribers. rewrite H. reflexivity.
Qed.

(* ===================================================================== *)
(** * The signed message                                                  *)
(* ===================================================================== *)

Section SignedMessage.
Import Webhook Http_notifier.

Local Abbreviation no_dot := (fun c : ascii => negb (Ascii.eqb c ".")).

Lemma string_of_uint_no_dot d :
  forall_chars no_dot (NilEmpty.string_of_uint d) = true.
Proof. induction d; simpl; auto. Qed.

(** The decimal form of an integer has no dot. *)
Lemma py_str_int_no_dot n : forall_chars no_dot (py_str_int n) = true.
Proof.
  unfold py_str_int, NilZero.string_of_int, NilZero.string_of_uint.
  destruct (Z.to_int n) as [d|d]; destruct d; simpl;
    try reflexivity; apply string_of_uint_no_dot.
Qed.

(** Distinct integers have distinct decimal forms. *)
Lemma py_str_int_inj n n' : py_str_int n = py_str_int n' -> n = n'.
Proof.
  unfold py_str_int. intros H.
  assert (Hnn : forall z, Z.to_int z <> Decimal.Pos Decimal.Nil
                          /\ Z.to_int z <> Decimal.Neg Decimal.Nil).
  { intros [|p|p]; simpl; split; try discriminate;
      intros [= E]; exact (DecimalPos.Unsigned.to_uint_nonnil p E). }
  apply DecimalZ.to_int_inj.
  assert (E : Some (Z.to_int n) = Some (Z.to_int n')).
  { rewrite <- (NilZero.isi (Z.to_int n)) by apply Hnn.
    rewrite <- (NilZero.isi (Z.to_int n')) by apply Hnn.
    rewrite H. reflexivity. }
  injection E as E. exact E.
Qed.

(** Two strings without a dot, each followed by a dot and more text:
    equal wholes have equal parts. *)
Lemma split_at_first_dot t1 : forall t2 b1 b2,
  forall_chars no_dot t1 = true ->
  forall_chars no_dot t2 = true ->
  (t1 ++ "." ++ b1 = t2 ++ "." ++ b2)%string ->
  t1 = t2 /\ b1 = b2.
Proof.
  induction t1 as [|c t1 IH]; intros [|c2 t2] b1 b2 H1 H2 E; simpl in *.
  - injection E as E. split; [reflexivity | exact E].
  - injection E as Ec E. subst c2. discriminate H2.
  - injection E as Ec E. subst c. discriminate H1.
  - injection E as Ec E. subst c2.
    apply andb_true_iff in H1 as [_ H1]. apply andb_true_iff in H2 as [_ H2].
    destruct (IH t2 b1 b2 H1 H2 E) as [-> ->]. split; reflexivity.
Qed.

End SignedMessage.

(** X21.  The signed string determines what was signed: since the
    timestamp is the decimal form of an integer, the string
    [timestamp.body] splits at its first dot, so two dispatches sign the
    same string only when they have the same timestamp (the same whole
    second) and the same body. *)
Theorem signed_message_unambiguous
    (json_dumps : Http_notifier.Payload -> string)
    (time1 time2 : Q) (payload1 payload2 : Http_notifier.Payload) :
  Http_notifier.signed_message (Http_notifier.timestamp_of time1)
    (Http_notifier.body_of json_dumps payload1)
  = Http_notifier.signed_message (Http_notifier.timestamp_of time2)
      (Http_notifier.body_of json_dumps payload2) ->
  Http_notifier.py_int time1 = Http_notifier.py_int time2
  /\ Http_notifier.timestamp_of time1 = Http_notifier.timestamp_of time2
  /\ Http_notifier.body_of json_dumps payload1
     = Http_notifier.body_of json_dumps payload2.
Proof.
  unfold Http_notifier.signed_message, Http_notifier.timestamp_of. intros E.
  apply split_at_first_dot in E as [Ht Hb]; try apply py_str_int_no_dot.
  split; [apply py_str_int_inj; exact Ht |]. split; [exact Ht | exact Hb].
Qed.

Lemma signed_message_unambiguous_witness :
  Http_notifier.py_int Examples.clock = Http_notifier.py_int (17000000009 # 10).
Proof.
  apply (signed_message_unambiguous Examples.json_dumps_stub Examples.clock
           (17000000009 # 10) Examples.payload_done Examples.payload_done).
  reflexivity.
Defined.
